(** * Notion → Jekyll sync script: a shallow embedding and its properties

    The script under study fetches the published pages of a Notion database,
    converts each page to Markdown with a YAML front matter, and reconciles
    the result with the files of the [_posts/] directory.

    Modelling conventions.
    - A JavaScript string is a [string]: the bytes of its UTF-8 encoding.
      The character classes [\s] and [\w], [toLowerCase] and the line
      terminators recognised by [^] are JavaScript's on ASCII; a byte above
      127 is taken for a character that is neither a space, a word character
      nor a line terminator and that [toLowerCase] leaves as it is. This is
      what JavaScript does except on the few code points listed in
      [beyond_ascii_classes]; the statements that depend on the difference
      are made for texts without them ([ascii_classes_exact]).
    - [undefined] and [null] are [None]; an optional field is an [option].
    - A thrown exception is the [Throw] constructor of [res].
    - The [_posts/] directory is a finite map from entry names to entries.
      A file name given to a file operation is taken for the name of an
      entry, which is what [path.join(POSTS_DIR, name)] denotes when the
      name holds no slash ([plain_name]); the statements on the files of a
      pass are made for plain names. A write can be refused; an unlink of an
      existing file always succeeds.
    - A [do ... while] loop whose exit depends on the remote server takes a
      bound on the number of requests; running out of it is [None]. *)

From Stdlib Require Import Ascii String.
From stdpp Require Import gmap strings list fin_maps.

(** ** JavaScript primitives *)

Module JS.

(** Truthiness of a string value: only the empty string is falsy. *)
Definition truthy_str (s : string) : bool :=
  match s with
  | EmptyString => false
  | String _ _ => true
  end.

(** Truthiness of a possibly absent string. *)
Definition truthy (o : option string) : bool :=
  match o with
  | Some s => truthy_str s
  | None => false
  end.

(** Truthiness of a possibly absent boolean. *)
Definition truthy_bool (o : option bool) : bool := default false o.

Definition code_of (c : ascii) : nat := nat_of_ascii c.

(** The class [\s] on ASCII: tab, line feed, vertical tab, form feed,
    carriage return and space. (JavaScript's class also holds the code
    points of white space outside ASCII, see [beyond_ascii_classes].) *)
Definition is_space (c : ascii) : bool :=
  let n := code_of c in ((9 <=? n) && (n <=? 13)) || (n =? 32).

Definition is_upper (c : ascii) : bool :=
  let n := code_of c in (65 <=? n) && (n <=? 90).

Definition is_lower (c : ascii) : bool :=
  let n := code_of c in (97 <=? n) && (n <=? 122).

Definition is_digit (c : ascii) : bool :=
  let n := code_of c in (48 <=? n) && (n <=? 57).

(** The class [\w]: letters, digits and the underscore. *)
Definition is_word (c : ascii) : bool :=
  is_upper c || is_lower c || is_digit c || (code_of c =? 95).

Definition is_hyphen (c : ascii) : bool := code_of c =? 45.

(** The ASCII line terminators, after which [^] matches under the [m]
    flag. (JavaScript has two more, U+2028 and U+2029, see
    [line_separators].) *)
Definition is_line_terminator (c : ascii) : bool :=
  (code_of c =? 10) || (code_of c =? 13).

(** [toLowerCase] on ASCII; the bytes above 127 are left as they are.
    (JavaScript lowers letters outside ASCII too; only U+0130 and U+212A
    give ASCII letters, see [beyond_ascii_classes].) *)
Definition toLowerCase_char (c : ascii) : ascii :=
  if is_upper c then ascii_of_nat (code_of c + 32) else c.

Fixpoint toLowerCase (s : string) : string :=
  match s with
  | EmptyString => EmptyString
  | String c s' => String (toLowerCase_char c) (toLowerCase s')
  end.

Fixpoint trimStart (s : string) : string :=
  match s with
  | EmptyString => EmptyString
  | String c s' => if is_space c then trimStart s' else s
  end.

Fixpoint trimEnd (s : string) : string :=
  match s with
  | EmptyString => EmptyString
  | String c s' =>
      match trimEnd s' with
      | EmptyString => if is_space c then EmptyString else String c EmptyString
      | t => String c t
      end
  end.

Definition trim (s : string) : string := trimEnd (trimStart s).

(** The line feed and the double quote as one-character strings. *)
Definition LF : string := String "010"%char EmptyString.
Definition DQ : string := String "034"%char EmptyString.

(** [Array.prototype.join]. *)
Definition join (sep : string) (l : list string) : string :=
  String.concat sep l.

(** [s.replace(/[C]/g, '')] for a character class [C]: every character of
    the class is dropped. *)
Fixpoint remove_class (p : ascii → bool) (s : string) : string :=
  match s with
  | EmptyString => EmptyString
  | String c s' =>
      if p c then remove_class p s' else String c (remove_class p s')
  end.

(** [s.replace(/[C]+/g, r)]: every maximal run of characters of the class
    is replaced by [r]. [in_run] tells that the previous character was
    part of a run already replaced. *)
Fixpoint replace_runs_from (p : ascii → bool) (r : string) (in_run : bool)
    (s : string) : string :=
  match s with
  | EmptyString => EmptyString
  | String c s' =>
      if p c then
        if in_run then replace_runs_from p r true s'
        else r +:+ replace_runs_from p r true s'
      else String c (replace_runs_from p r false s')
  end.

Definition replace_runs (p : ascii → bool) (r : string) (s : string) : string :=
  replace_runs_from p r false s.

(** [s.replace(/^-|-$/g, '')] (no [m] flag): a hyphen at the very start
    and a hyphen at the very end are dropped. *)
Definition drop_first_hyphen (s : string) : string :=
  match s with
  | String c s' => if is_hyphen c then s' else s
  | EmptyString => EmptyString
  end.

Fixpoint drop_last_hyphen (s : string) : string :=
  match s with
  | EmptyString => EmptyString
  | String c EmptyString => if is_hyphen c then EmptyString else s
  | String c s' => String c (drop_last_hyphen s')
  end.

Definition strip_edge_hyphens (s : string) : string :=
  drop_last_hyphen (drop_first_hyphen s).

(** [String.prototype.endsWith]. *)
Fixpoint endsWith (s suffix : string) : bool :=
  String.eqb s suffix ||
  match s with
  | EmptyString => false
  | String _ s' => endsWith s' suffix
  end.

End JS.

(** ** Exceptions *)

Inductive res (A : Type) : Type :=
  | Ok (a : A)
  | Throw (message : string).
Arguments Ok {A} a.
Arguments Throw {A} message.

(** ** Notion objects *)

Record Annotations := {
  bold : option bool;
  italic : option bool;
  strikethrough : option bool;
  code : option bool;
}.

Record RichText := {
  plain_text : option string;
  annotations : option Annotations;
  href : option string;
}.

Record UrlRef := { url : option string }.

Record Icon := { emoji : option string }.

(** The payload [block[block.type]] of a block. One record with optional
    fields stands for the payload objects of all block types. *)
Record BlockData := {
  rich_text : option (list RichText);
  checked : option bool;
  language : option string;
  caption : option (list RichText);
  icon : option Icon;
  data_type : option string;      (* data.type *)
  external : option UrlRef;
  file : option UrlRef;
  data_url : option string;       (* data.url *)
}.

Record Block := {
  block_type : string;            (* block.type *)
  block_data : option BlockData;  (* block[block.type] *)
}.

(** ** Rich text → Markdown *)

Definition no_annotations : Annotations :=
  {| bold := None; italic := None; strikethrough := None; code := None |}.

(** The arrow function mapped over the spans. *)
Definition richTextItemToMarkdown (item : RichText) : string :=
  let text := default "" (plain_text item) in
  if negb (JS.truthy_str text) then ""
  else
    let ann := default no_annotations (annotations item) in
    let href := href item in
    let text := if JS.truthy_bool (code ann) then "`" +:+ text +:+ "`" else text in
    let text :=
      if JS.truthy_bool (bold ann) && JS.truthy_bool (italic ann)
      then "***" +:+ text +:+ "***"
      else if JS.truthy_bool (bold ann) then "**" +:+ text +:+ "**"
      else if JS.truthy_bool (italic ann) then "*" +:+ text +:+ "*"
      else text in
    let text :=
      if JS.truthy_bool (strikethrough ann) then "~~" +:+ text +:+ "~~" else text in
    let text :=
      if JS.truthy href then "[" +:+ text +:+ "](" +:+ default "" href +:+ ")"
      else text in
    text.

(** The parameter defaults to the empty array when it is [undefined]. *)
Definition richTextToMarkdown (richText : option (list RichText)) : string :=
  JS.join "" (map richTextItemToMarkdown (default [] richText)).

(** ** Block → Markdown *)

(** The two-way selection of a media URL on [data.type]. *)
Definition mediaUrl (data : BlockData) : string :=
  if bool_decide (data_type data = Some "external")
  then default "" (external data ≫= url)
  else default "" (file data ≫= url).

Definition blockToMarkdown (block : Block) : option string :=
  let type := block_type block in
  match block_data block with
  | None => None
  | Some data =>
      if String.eqb type "paragraph" then
        Some (richTextToMarkdown (rich_text data))
      else if String.eqb type "heading_1" then
        Some ("# " +:+ richTextToMarkdown (rich_text data))
      else if String.eqb type "heading_2" then
        Some ("## " +:+ richTextToMarkdown (rich_text data))
      else if String.eqb type "heading_3" then
        Some ("### " +:+ richTextToMarkdown (rich_text data))
      else if String.eqb type "bulleted_list_item" then
        Some ("- " +:+ richTextToMarkdown (rich_text data))
      else if String.eqb type "numbered_list_item" then
        Some ("1. " +:+ richTextToMarkdown (rich_text data))
      else if String.eqb type "to_do" then
        Some ("- [" +:+ (if JS.truthy_bool (checked data) then "x" else " ")
              +:+ "] " +:+ richTextToMarkdown (rich_text data))
      else if String.eqb type "code" then
        let lang :=
          if JS.truthy (language data)
             && negb (bool_decide (language data = Some "plain text"))
          then default "" (language data) else "" in
        let code :=
          JS.join "" (map (λ r, default "" (plain_text r))
                          (default [] (rich_text data))) in
        let caption := richTextToMarkdown (Some (default [] (caption data))) in
        let block_md := "```" +:+ lang +:+ JS.LF +:+ code +:+ JS.LF +:+ "```" in
        Some (if JS.truthy_str caption
              then block_md +:+ JS.LF +:+ "*" +:+ caption +:+ "*"
              else block_md)
      else if String.eqb type "quote" then
        Some ("> " +:+ richTextToMarkdown (rich_text data))
      else if String.eqb type "callout" then
        let icon :=
          if JS.truthy (icon data ≫= emoji)
          then default "" (icon data ≫= emoji) +:+ " " else "" in
        Some ("> " +:+ icon +:+ richTextToMarkdown (rich_text data))
      else if String.eqb type "divider" then
        Some "---"
      else if String.eqb type "image" then
        let url := mediaUrl data in
        let caption := richTextToMarkdown (Some (default [] (caption data))) in
        Some ("![" +:+ caption +:+ "](" +:+ url +:+ ")")
      else if String.eqb type "video" then
        let url := mediaUrl data in
        let caption := richTextToMarkdown (Some (default [] (caption data))) in
        Some (if JS.truthy_str caption
              then "[▶ " +:+ caption +:+ "](" +:+ url +:+ ")"
              else "[▶ Watch video](" +:+ url +:+ ")")
      else if String.eqb type "bookmark" || String.eqb type "link_preview" then
        let url := default "" (data_url data) in
        Some ("[" +:+ url +:+ "](" +:+ url +:+ ")")
      else if String.eqb type "toggle" then
        Some ("<details>" +:+ JS.LF +:+ "<summary>"
              +:+ richTextToMarkdown (rich_text data) +:+ "</summary>"
              +:+ JS.LF +:+ JS.LF +:+ "</details>")
      else if String.eqb type "table_of_contents" then
        Some ""
      else if String.eqb type "child_page" || String.eqb type "child_database" then
        None
      else None
  end.

(** ** Blocks → Markdown *)

Definition LIST_TYPES : gset string :=
  {[ "bulleted_list_item"; "numbered_list_item"; "to_do" ]}.

(** The [for] loop of [blocksToMarkdown]: [i] is the loop index, [n] the
    number of iterations left, [lines] the array built so far. *)
Fixpoint blocksToMarkdown_loop (blocks : list Block) (n i : nat)
    (lines : list string) : list string :=
  match n with
  | 0 => lines
  | S n' =>
      match blocks !! i with
      | None => lines
      | Some block =>
          match blockToMarkdown block with
          | None => blocksToMarkdown_loop blocks n' (S i) lines
          | Some md =>
              let prevBlock := if 0 <? i then blocks !! (i - 1) else None in
              let isList := bool_decide (block_type block ∈ LIST_TYPES) in
              let prevIsList :=
                match prevBlock with
                | Some prev => bool_decide (block_type prev ∈ LIST_TYPES)
                | None => false
                end in
              let lines :=
                if (0 <? length lines) && negb (isList && prevIsList)
                then lines ++ [""] else lines in
              let lines :=
                if negb (String.eqb md "") then lines ++ [md] else lines in
              blocksToMarkdown_loop blocks n' (S i) lines
          end
      end
  end.

Definition blocksToMarkdown_lines (blocks : list Block) : list string :=
  blocksToMarkdown_loop blocks (length blocks) 0 [].

Definition blocksToMarkdown (blocks : list Block) : string :=
  JS.trim (JS.join JS.LF (blocksToMarkdown_lines blocks)).

(** ** Cursor pagination *)

Record ListResponse (A : Type) := {
  results : list A;
  has_more : bool;
  next_cursor : option string;
}.
Arguments results {A} _.
Arguments has_more {A} _.
Arguments next_cursor {A} _.

(** The [do ... while (cursor)] loop shared by the two fetchers: [request]
    is the remote call with every argument but the cursor fixed, [acc] the
    array filled so far. [None] when [fuel] requests did not reach the end
    of the listing. *)
Fixpoint fetch_loop {A : Type} (request : option string → res (ListResponse A))
    (fuel : nat) (cursor : option string) (acc : list A)
    : option (res (list A)) :=
  match fuel with
  | 0 => None
  | S fuel' =>
      match request cursor with
      | Throw e => Some (Throw e)
      | Ok r =>
          let acc := acc ++ results r in
          let cursor := if has_more r then next_cursor r else None in
          if JS.truthy cursor then fetch_loop request fuel' cursor acc
          else Some (Ok acc)
      end
  end.

(** ** Pages and their property bag *)

Record SelectOption := { option_name : string }.       (* t.name *)

Record DateValue := { start : option string }.

Record FileObject := {
  file_external : option UrlRef;                        (* f.external *)
  file_file : option UrlRef;                            (* f.file *)
}.

(** A property value; one record with optional fields stands for the
    property objects of all property types. *)
Record Property := {
  p_title : option (list RichText);
  p_rich_text : option (list RichText);
  p_date : option DateValue;
  p_multi_select : option (list SelectOption);
  p_files : option (list FileObject);
  p_url : option string;
  p_checkbox : option bool;
}.

Record Page := {
  page_id : string;                                     (* page.id *)
  properties : option (gmap string Property);           (* page.properties *)
}.

(** The [??] operator on possibly absent values. *)
Definition nullish {A : Type} (a b : option A) : option A :=
  match a with
  | Some x => Some x
  | None => b
  end.
Infix "??" := nullish (at level 61, left associativity).

(** The optional chaining [x?.f], where [f] reads a possibly absent field. *)
Notation "x ?. f" := (mbind (M:=option) f x)
  (at level 59, left associativity).

(** [a?.[0]]: the first element of an array, if any. *)
Definition first {A : Type} (l : list A) : option A := head l.

(** ** The remote API *)

Record Notion := {
  (* notion.blocks.children.list({ block_id, start_cursor, page_size }) *)
  blocks_children_list :
    string → option string → nat → res (ListResponse Block);
  (* notion.databases.query({ database_id, filter: { property, select:
     { equals } }, start_cursor }) *)
  databases_query :
    string → string * string → option string → res (ListResponse Page);
}.

Definition fetchAllBlocks (notion : Notion) (blockId : string) (fuel : nat)
    : option (res (list Block)) :=
  fetch_loop (λ cursor, blocks_children_list notion blockId cursor 100)
             fuel None [].

Definition fetchPublishedPages (notion : Notion) (DATABASE_ID : string)
    (fuel : nat) : option (res (list Page)) :=
  fetch_loop (λ cursor,
                databases_query notion DATABASE_ID ("Status", "Published") cursor)
             fuel None [].

(** ** Metadata extraction *)

Definition slug_keep (c : ascii) : bool :=
  JS.is_word c || JS.is_space c || JS.is_hyphen c.

Definition titleToSlug (title : string) : string :=
  let s := JS.toLowerCase title in
  let s := JS.remove_class (λ c, negb (slug_keep c)) s in   (* /[^\w\s-]/g → '' *)
  let s := JS.trim s in
  let s := JS.replace_runs JS.is_space "-" s in             (* /\s+/g → '-' *)
  let s := JS.replace_runs JS.is_hyphen "-" s in            (* /-+/g → '-' *)
  JS.strip_edge_hyphens s.                                  (* /^-|-$/g → '' *)

Record Meta := {
  title : string;
  slug : string;
  date : string;
  tags : list string;
  description : string;
  coverImage : string;
  canonicalUrl : string;
  featured : bool;
}.

(** [today] is the value of [new Date().toISOString().split('T')[0]]. *)
Definition extractMeta (today : string) (page : Page) : res Meta :=
  match properties page with
  | None => Throw "Cannot read properties of undefined (reading 'Title')"
  | Some props =>
      let titleProp := props !! "Title" ?? props !! "title" ?? props !! "Name" in
      let title :=
        default "Untitled"
          ((titleProp ?. p_title ?. first ?. plain_text)
           ?? (titleProp ?. p_rich_text ?. first ?. plain_text)) in
      let slugProp := props !! "Slug" ?? props !! "slug" in
      let slug :=
        let s := JS.trim <$> (slugProp ?. p_rich_text ?. first ?. plain_text) in
        if JS.truthy s then default "" s else titleToSlug title in
      let dateProp :=
        props !! "Publish Date" ?? props !! "Date" ?? props !! "Published" in
      let date := default today (dateProp ?. p_date ?. start) in
      let tags :=
        map option_name (default [] (props !! "Tags" ?. p_multi_select)) in
      let descProp :=
        props !! "Description" ?? props !! "Excerpt" ?? props !! "Summary" in
      let description :=
        default ""
          (JS.trim <$> (descProp ?. p_rich_text ?. first ?. plain_text)) in
      let coverFiles := default [] (props !! "Cover Image" ?. p_files) in
      let coverImage :=
        default ""
          ((first coverFiles ?. file_external ?. url)
           ?? (first coverFiles ?. file_file ?. url)) in
      let canonicalUrl := default "" (props !! "Canonical URL" ?. p_url) in
      let featured := default false (props !! "Featured" ?. p_checkbox) in
      Ok {| title := title; slug := slug; date := date; tags := tags;
            description := description; coverImage := coverImage;
            canonicalUrl := canonicalUrl; featured := featured |}
  end.

(** ** Front matter generation *)

Definition hex_digit (n : nat) : ascii :=
  if n <? 10 then ascii_of_nat (48 + n) else ascii_of_nat (87 + n).

(** The escape of one character inside a JSON string. *)
Definition JSON_quote_char (c : ascii) : string :=
  let n := JS.code_of c in
  if n =? 8 then "\b"
  else if n =? 9 then "\t"
  else if n =? 10 then "\n"
  else if n =? 12 then "\f"
  else if n =? 13 then "\r"
  else if n =? 34 then "\" +:+ JS.DQ
  else if n =? 92 then "\\"
  else if n <? 32 then
    "\u00" +:+ String (hex_digit (n / 16)) (String (hex_digit (n mod 16)) "")
  else String c "".

Fixpoint JSON_quote_body (s : string) : string :=
  match s with
  | EmptyString => EmptyString
  | String c s' => JSON_quote_char c +:+ JSON_quote_body s'
  end.

(** [JSON.stringify] on a string value. *)
Definition JSON_stringify (s : string) : string :=
  JS.DQ +:+ JSON_quote_body s +:+ JS.DQ.

Definition buildFrontMatter (meta : Meta) (notionId : string) : string :=
  let lines := ["---"] in
  let lines := lines ++ ["layout: post"] in
  let lines := lines ++ ["title: " +:+ JSON_stringify (title meta)] in
  let lines := lines ++ ["date: " +:+ date meta] in
  let lines := lines ++ ["slug: " +:+ slug meta] in
  let lines :=
    if 0 <? length (tags meta) then
      let tagList := JS.join ", " (map JSON_stringify (tags meta)) in
      lines ++ ["tags: [" +:+ tagList +:+ "]"]
    else lines in
  let lines :=
    if JS.truthy_str (description meta)
    then lines ++ ["excerpt: " +:+ JSON_stringify (description meta)]
    else lines in
  let lines :=
    if JS.truthy_str (coverImage meta)
    then lines ++ ["cover_image: " +:+ JSON_stringify (coverImage meta)]
    else lines in
  let lines :=
    if JS.truthy_str (canonicalUrl meta)
    then lines ++ ["canonical_url: " +:+ JSON_stringify (canonicalUrl meta)]
    else lines in
  let lines := if featured meta then lines ++ ["featured: true"] else lines in
  let lines := lines ++ ["notion_id: " +:+ JSON_stringify notionId] in
  let lines := lines ++ ["---"] in
  JS.join JS.LF lines.

Definition postFilename (date slug : string) : string :=
  date +:+ "-" +:+ slug +:+ ".md".

(** ** The pattern of the identity line *)

(** The pieces of the regular expressions used by the script. *)
Inductive atom :=
  | Bol                                   (* ^ under the m flag *)
  | Lit (s : string)                      (* literal characters *)
  | Star (p : ascii → bool)               (* [class]*, greedy *)
  | Opt (c : ascii)                       (* c?, greedy *)
  | Capture (n : nat) (p : ascii → bool). (* ([class]{n}), group 1 *)

Definition at_line_start (prev : option ascii) : bool :=
  match prev with
  | None => true
  | Some c => JS.is_line_terminator c
  end.

(** Consume the literal [l] at the head of [s]; the result carries the
    last character consumed. *)
Fixpoint eat_literal (l : string) (prev : option ascii) (s : string)
    : option (option ascii * string) :=
  match l with
  | EmptyString => Some (prev, s)
  | String a l' =>
      match s with
      | String c s' => if Ascii.eqb a c then eat_literal l' (Some c) s' else None
      | EmptyString => None
      end
  end.

(** Consume exactly [n] characters of the class [p]. *)
Fixpoint eat_class (n : nat) (p : ascii → bool) (prev : option ascii)
    (s : string) : option (string * option ascii * string) :=
  match n with
  | 0 => Some (EmptyString, prev, s)
  | S n' =>
      match s with
      | String c s' =>
          if p c then
            match eat_class n' p (Some c) s' with
            | Some (g, prev', rest) => Some (String c g, prev', rest)
            | None => None
            end
          else None
      | EmptyString => None
      end
  end.

(** Backtracking match of [re] at the head of [s]. [prev] is the character
    before the current position, [cap] the text of group 1 so far. The
    result is the text of group 1 of the match found, if one is. *)
Fixpoint regex_exec (re : list atom) (prev : option ascii) (s : string)
    (cap : option string) : option (option string) :=
  match re with
  | [] => Some cap
  | Bol :: re' =>
      if at_line_start prev then regex_exec re' prev s cap else None
  | Lit l :: re' =>
      match eat_literal l prev s with
      | Some (prev', s') => regex_exec re' prev' s' cap
      | None => None
      end
  | Star p :: re' =>
      (fix star (prev : option ascii) (s : string) : option (option string) :=
         match s with
         | String c s' =>
             if p c then
               match star (Some c) s' with
               | Some r => Some r
               | None => regex_exec re' prev s cap
               end
             else regex_exec re' prev s cap
         | EmptyString => regex_exec re' prev s cap
         end) prev s
  | Opt a :: re' =>
      match s with
      | String c s' =>
          if Ascii.eqb a c then
            match regex_exec re' (Some c) s' cap with
            | Some r => Some r
            | None => regex_exec re' prev s cap
            end
          else regex_exec re' prev s cap
      | EmptyString => regex_exec re' prev s cap
      end
  | Capture n p :: re' =>
      match eat_class n p prev s with
      | Some (g, prev', s') => regex_exec re' prev' s' (Some g)
      | None => None
      end
  end.

(** The leftmost match: every start position is tried in turn. *)
Fixpoint regex_search (re : list atom) (prev : option ascii) (s : string)
    : option (option string) :=
  match regex_exec re prev s None with
  | Some r => Some r
  | None =>
      match s with
      | EmptyString => None
      | String c s' => regex_search re (Some c) s'
      end
  end.

(** [s.match(re)] for a pattern without the [g] flag. *)
Definition String_match (re : list atom) (s : string) : option (option string) :=
  regex_search re None s.

(** The class [[a-f0-9-]]. *)
Definition is_id_char (c : ascii) : bool :=
  let n := JS.code_of c in
  ((97 <=? n) && (n <=? 102)) || JS.is_digit c || JS.is_hyphen c.

(** [/^notion_id:\s*"?([a-f0-9-]{36})"?/m] *)
Definition notion_id_re : list atom :=
  [Bol; Lit "notion_id:"; Star JS.is_space; Opt "034"%char;
   Capture 36 is_id_char; Opt "034"%char].

(** ** The posts directory *)

Inductive Entry :=
  | File (content : string)
  | Directory.

(** [fs.readdirSync(POSTS_DIR)] *)
Definition readdirSync (dir : gmap string Entry) : list string :=
  (map_to_list dir).*1.

(** [fs.existsSync(path.join(POSTS_DIR, name))], for a plain [name]. *)
Definition existsSync (dir : gmap string Entry) (name : string) : bool :=
  bool_decide (is_Some (dir !! name)).

(** [fs.readFileSync(path.join(POSTS_DIR, name), 'utf8')], for a plain
    [name]. *)
Definition readFileSync (dir : gmap string Entry) (name : string) : res string :=
  match dir !! name with
  | Some (File content) => Ok content
  | Some Directory => Throw "EISDIR: illegal operation on a directory, read"
  | None => Throw "ENOENT: no such file or directory, open"
  end.

(** [fs.writeFileSync(path.join(POSTS_DIR, name), content, 'utf8')], for
    a plain [name]; [denied] tells the names at which the system refuses
    the write (a read-only target, a missing parent, a full disk). *)
Definition writeFileSync (denied : string → bool) (dir : gmap string Entry)
    (name content : string) : res (gmap string Entry) :=
  match dir !! name with
  | Some Directory => Throw "EISDIR: illegal operation on a directory, open"
  | _ =>
      if denied name then Throw "EACCES: permission denied, open"
      else Ok (<[name := File content]> dir)
  end.

(** [fs.unlinkSync(path.join(POSTS_DIR, name))], for a plain [name]; the
    unlink of an existing file is never refused. *)
Definition unlinkSync (dir : gmap string Entry) (name : string)
    : res (gmap string Entry) :=
  match dir !! name with
  | Some (File _) => Ok (delete name dir)
  | Some Directory => Throw "EPERM: operation not permitted, unlink"
  | None => Throw "ENOENT: no such file or directory, unlink"
  end.

(** ** Main *)

Record Env := {
  NOTION_TOKEN : option string;
  NOTION_DATABASE_ID : option string;
}.

(** What the script runs against. *)
Record World := {
  notion : Notion;
  write_denied : string → bool;
  today : string;
}.

Record Stats := {
  created : nat;
  updated : nat;
  unchanged : nat;
  errors : nat;
}.

Record State := {
  posts : gmap string Entry;
  processedIds : gset string;
  stats : Stats;
}.

Inductive Outcome := Created | Updated | Unchanged.

Definition count (o : res Outcome) (s : Stats) : Stats :=
  match o with
  | Ok Created =>
      {| created := S (created s); updated := updated s;
         unchanged := unchanged s; errors := errors s |}
  | Ok Updated =>
      {| created := created s; updated := S (updated s);
         unchanged := unchanged s; errors := errors s |}
  | Ok Unchanged =>
      {| created := created s; updated := updated s;
         unchanged := S (unchanged s); errors := errors s |}
  | Throw _ =>
      {| created := created s; updated := updated s;
         unchanged := unchanged s; errors := S (errors s) |}
  end.

(** The index of the existing posts: one step of the loop over
    [existingFiles]. *)
Definition index_file (dir : gmap string Entry)
    (notionIdToFile : gmap string string) (file : string) : gmap string string :=
  match readFileSync dir file with
  | Ok content =>
      match String_match notion_id_re content with
      | Some (Some id) => <[id := file]> notionIdToFile
      | _ => notionIdToFile
      end
  | Throw _ => notionIdToFile
  end.

Definition build_index (dir : gmap string Entry) (existingFiles : list string)
    : gmap string string :=
  fold_left (index_file dir) existingFiles ∅.

(** The file content of a page. *)
Definition pageContent (meta : Meta) (notionId : string) (blocks : list Block)
    : string :=
  let body := blocksToMarkdown blocks in
  let fm := buildFrontMatter meta notionId in
  fm +:+ JS.LF +:+ JS.LF +:+ body +:+ JS.LF.

(** The second [try] block of the loop body; [fetched] is what awaiting
    [fetchAllBlocks] gave. The directory returned holds the effects made
    before an exception was thrown. *)
Definition tryWritePost (denied : string → bool) (existingFiles : list string)
    (notionIdToFile : gmap string string) (dir : gmap string Entry)
    (page : Page) (meta : Meta) (fetched : res (list Block))
    : gmap string Entry * res Outcome :=
  match fetched with
  | Throw e => (dir, Throw e)
  | Ok blocks =>
      let content := pageContent meta (page_id page) blocks in
      let filename := postFilename (date meta) (slug meta) in
      let prevFilename := notionIdToFile !! page_id page in
      let dir :=
        if JS.truthy prevFilename
           && negb (bool_decide (prevFilename = Some filename))
        then
          match unlinkSync dir (default "" prevFilename) with
          | Ok dir' => dir'
          | Throw _ => dir
          end
        else dir in
      let needsWrite :=
        if existsSync dir filename then
          match readFileSync dir filename with
          | Ok existing => Ok (negb (String.eqb existing content))
          | Throw e => Throw e
          end
        else Ok true in
      match needsWrite with
      | Throw e => (dir, Throw e)
      | Ok true =>
          match writeFileSync denied dir filename content with
          | Throw e => (dir, Throw e)
          | Ok dir' =>
              let isNew :=
                negb (JS.truthy prevFilename)
                && negb (bool_decide (filename ∈ existingFiles)) in
              (dir', Ok (if isNew then Created else Updated))
          end
      | Ok false => (dir, Ok Unchanged)
      end
  end.

(** The two [try] blocks of the loop body: the directory after them and
    either the counter to increment or the exception that was caught. *)
Definition pageOutcome (w : World) (fuel : nat) (existingFiles : list string)
    (notionIdToFile : gmap string string) (dir : gmap string Entry)
    (page : Page) : option (gmap string Entry * res Outcome) :=
  match extractMeta (today w) page with
  | Throw e => Some (dir, Throw e)
  | Ok meta =>
      fetched ← fetchAllBlocks (notion w) (page_id page) fuel;
      Some (tryWritePost (write_denied w) existingFiles notionIdToFile dir
                         page meta fetched)
  end.

(** One iteration of the loop over the published pages. *)
Definition processPage (w : World) (fuel : nat) (existingFiles : list string)
    (notionIdToFile : gmap string string) (st : State) (page : Page)
    : option State :=
  let processedIds := {[ page_id page ]} ∪ processedIds st in
  '(dir, o) ← pageOutcome w fuel existingFiles notionIdToFile (posts st) page;
  Some {| posts := dir; processedIds := processedIds;
          stats := count o (stats st) |}.

Fixpoint processPages (w : World) (fuel : nat) (existingFiles : list string)
    (notionIdToFile : gmap string string) (pages : list Page) (st : State)
    : option State :=
  match pages with
  | [] => Some st
  | page :: pages' =>
      st' ← processPage w fuel existingFiles notionIdToFile st page;
      processPages w fuel existingFiles notionIdToFile pages' st'
  end.

(** One iteration of the loop that removes the posts no longer published. *)
Definition remove_unpublished (processedIds : gset string)
    (dir : gmap string Entry) (entry : string * string) : gmap string Entry :=
  let '(notionId, filename) := entry in
  if negb (bool_decide (notionId ∈ processedIds)) then
    match unlinkSync dir filename with
    | Ok dir' => dir'
    | Throw _ => dir
    end
  else dir.

Record Result := {
  exit_code : nat;
  final_posts : gmap string Entry;
  indexed : list string;          (* existingFiles, whose length is printed *)
  summary : option Stats;         (* the counters printed, if the pass ran *)
}.

(** The posts found in the directory when the script starts. *)
Definition existingFiles (dir : gmap string Entry) : list string :=
  filter (λ f, Is_true (JS.endsWith f ".md")) (readdirSync dir).

Definition notionIdToFile (dir : gmap string Entry) : gmap string string :=
  build_index dir (existingFiles dir).

Definition initial_state (dir : gmap string Entry) : State :=
  {| posts := dir; processedIds := ∅;
     stats := {| created := 0; updated := 0; unchanged := 0; errors := 0 |} |}.

(** The loop that removes the posts no longer published. *)
Definition remove_all_unpublished (notionIdToFile : gmap string string)
    (processedIds : gset string) (dir : gmap string Entry)
    : gmap string Entry :=
  fold_left (remove_unpublished processedIds) (map_to_list notionIdToFile) dir.

Definition main (w : World) (DATABASE_ID : string) (fuel : nat)
    (dir : gmap string Entry) : option Result :=
  let existingFiles := existingFiles dir in
  let notionIdToFile := notionIdToFile dir in
  listing ← fetchPublishedPages (notion w) DATABASE_ID fuel;
  match listing with
  | Throw _ =>
      Some {| exit_code := 1; final_posts := dir; indexed := existingFiles;
              summary := None |}
  | Ok publishedPages =>
      st ← processPages w fuel existingFiles notionIdToFile publishedPages
             (initial_state dir);
      let dir' :=
        remove_all_unpublished notionIdToFile (processedIds st) (posts st) in
      Some {| exit_code := if 0 <? errors (stats st) then 1 else 0;
              final_posts := dir'; indexed := existingFiles;
              summary := Some (stats st) |}
  end.

(** The script: the environment is validated before [main] runs. *)
Definition script (env : Env) (w : World) (fuel : nat)
    (dir : gmap string Entry) : option Result :=
  if negb (JS.truthy (NOTION_TOKEN env)) then
    Some {| exit_code := 1; final_posts := dir; indexed := []; summary := None |}
  else if negb (JS.truthy (NOTION_DATABASE_ID env)) then
    Some {| exit_code := 1; final_posts := dir; indexed := []; summary := None |}
  else main w (default "" (NOTION_DATABASE_ID env)) fuel dir.

(** ** Reference formulations

    The definitions below are not part of the script: they phrase the
    documented behaviour, against which the script is compared. *)

(** The four layers of the span formatter, in the documented order. *)
Definition wrap (marker text : string) : string := marker +:+ text +:+ marker.

Definition code_layer (ann : Annotations) (text : string) : string :=
  if JS.truthy_bool (code ann) then wrap "`" text else text.

Definition emphasis_layer (ann : Annotations) (text : string) : string :=
  match JS.truthy_bool (bold ann), JS.truthy_bool (italic ann) with
  | true, true => wrap "***" text
  | true, false => wrap "**" text
  | false, true => wrap "*" text
  | false, false => text
  end.

Definition strike_layer (ann : Annotations) (text : string) : string :=
  if JS.truthy_bool (strikethrough ann) then wrap "~~" text else text.

Definition link_layer (href : option string) (text : string) : string :=
  match href with
  | Some (String c target) => "[" +:+ text +:+ "](" +:+ String c target +:+ ")"
  | _ => text
  end.

Definition unlinked (item : RichText) : RichText :=
  {| plain_text := plain_text item; annotations := annotations item;
     href := None |}.

(** A media URL taken from the external reference first, from the hosted
    file when there is no external URL. *)
Definition externalFirst (ext hosted : option UrlRef) : string :=
  default "" ((ext ?. url) ?? (hosted ?. url)).

(** The storage tag of a media payload names the representation that is
    populated. *)
Definition tag_consistent (data : BlockData) : Prop :=
  data_type data = Some "external" ↔ is_Some (external data ?. url).

Definition media_block (type : string) (data : BlockData) : Block :=
  {| block_type := type; block_data := Some data |}.

Definition media_caption (data : BlockData) : string :=
  richTextToMarkdown (Some (default [] (caption data))).

(** A listing split across cursor pages: [paged request cursor pages] holds
    when the requests made from [cursor] on return the item lists [pages],
    each response but the last announcing more and giving the cursor of the
    next request. *)
Inductive paged {A : Type} (request : option string → res (ListResponse A))
    : option string → list (list A) → Prop :=
  | paged_last cursor r :
      request cursor = Ok r →
      has_more r = false →
      paged request cursor [results r]
  | paged_more cursor r c next rest :
      request cursor = Ok r →
      has_more r = true →
      next_cursor r = Some (String c next) →
      paged request (Some (String c next)) rest →
      paged request cursor (results r :: rest).

Definition children_request (notion : Notion) (blockId : string)
    : option string → res (ListResponse Block) :=
  λ cursor, blocks_children_list notion blockId cursor 100.

Definition published_request (notion : Notion) (DATABASE_ID : string)
    : option string → res (ListResponse Page) :=
  λ cursor, databases_query notion DATABASE_ID ("Status", "Published") cursor.

(** Membership in the list family. *)
Definition is_list_block (b : Block) : bool :=
  bool_decide (block_type b ∈ LIST_TYPES).

(** The documented walk over the blocks: a blank line goes before every
    block that is not omitted, unless the block and the one before it are
    both list items. [prev] is the block standing before [blocks];
    [keep_prev] tells whether an omitted block leaves [prev] as it is (the
    preceding block is then the preceding block that is not omitted) or
    becomes the preceding block itself. *)
Fixpoint walk_lines (keep_prev : bool) (prev : option Block)
    (blocks : list Block) : list string :=
  match blocks with
  | [] => []
  | b :: blocks' =>
      match blockToMarkdown b with
      | None => walk_lines keep_prev (if keep_prev then prev else Some b) blocks'
      | Some md =>
          (if is_list_block b && from_option is_list_block false prev
           then [] else [""])
          ++ (if String.eqb md "" then [] else [md])
          ++ walk_lines keep_prev (Some b) blocks'
      end
  end.

(** The body as documented: the preceding block is the preceding block
    that is not omitted. *)
Definition documented_body (blocks : list Block) : string :=
  JS.trim (JS.join JS.LF (walk_lines true None blocks)).

(** The same walk where the preceding block is the block just before in
    the list, omitted or not. *)
Definition adjacent_body (blocks : list Block) : string :=
  JS.trim (JS.join JS.LF (walk_lines false None blocks)).

(** What one block adds to the lines built so far by [blocksToMarkdown]. *)
Definition push_block (prevBlock : option Block) (block : Block)
    (lines : list string) : list string :=
  match blockToMarkdown block with
  | None => lines
  | Some md =>
      lines
      ++ (if (0 <? length lines)
             && negb (is_list_block block
                      && from_option is_list_block false prevBlock)
          then [""] else [])
      ++ (if String.eqb md "" then [] else [md])
  end.

(** Removal of every leading, and of every trailing, character of a
    class. *)
Fixpoint strip_start (p : ascii → bool) (s : string) : string :=
  match s with
  | EmptyString => EmptyString
  | String c s' => if p c then strip_start p s' else s
  end.

Fixpoint strip_end (p : ascii → bool) (s : string) : string :=
  match s with
  | EmptyString => EmptyString
  | String c s' =>
      match strip_end p s' with
      | EmptyString => if p c then EmptyString else String c EmptyString
      | t => String c t
      end
  end.

(** The slug of a title as documented: lowercase, strip what is not a word
    character, a space or a hyphen, collapse runs of spaces to one hyphen,
    collapse repeated hyphens, trim the leading and the trailing hyphens. *)
Definition documented_slug (title : string) : string :=
  let s := JS.toLowerCase title in
  let s := JS.remove_class (λ c, negb (slug_keep c)) s in
  let s := JS.replace_runs JS.is_space "-" s in
  let s := JS.replace_runs JS.is_hyphen "-" s in
  strip_end JS.is_hyphen (strip_start JS.is_hyphen s).

(** Spaces and hyphens alike. *)
Definition is_separator (c : ascii) : bool := JS.is_space c || JS.is_hyphen c.

(** No two hyphens in a row. *)
Fixpoint no_double_hyphen (s : string) : bool :=
  match s with
  | EmptyString => true
  | String c s' =>
      match s' with
      | EmptyString => true
      | String c' _ => negb (JS.is_hyphen c && JS.is_hyphen c')
      end && no_double_hyphen s'
  end.

Fixpoint string_forall (p : ascii → bool) (s : string) : bool :=
  match s with
  | EmptyString => true
  | String c s' => p c && string_forall p s'
  end.

(** The characters of a slug made from a title. *)
Definition is_slug_char (c : ascii) : bool :=
  JS.is_lower c || JS.is_digit c || (JS.code_of c =? 95) || JS.is_hyphen c.

(** The text of the Slug property of a property bag, trimmed. *)
Definition slug_text (props : gmap string Property) : option string :=
  JS.trim <$> ((props !! "Slug" ?? props !! "slug")
               ?. p_rich_text ?. first ?. plain_text).

Definition is_lowercase (s : string) : Prop := JS.toLowerCase s = s.

(** A string without a line terminator. *)
Definition single_line (s : string) : Prop :=
  string_forall (λ c, negb (JS.is_line_terminator c)) s = true.

(** A header line at which the identity pattern cannot match: it is not
    empty, does not start with the first letter of the key and holds no
    line terminator. *)
Definition other_key_line (l : string) : Prop :=
  match l with
  | String c _ => c ≠ "n"%char
  | EmptyString => False
  end ∧ single_line l.

(** The identity tokens: 36 characters among [a-f], [0-9] and the hyphen. *)
Definition is_identity_token (token : string) : Prop :=
  String.length token = 36 ∧ string_forall is_id_char token = true.

(** The lines of the front matter that come before the identity line. *)
Definition header_lines (meta : Meta) : list string :=
  ["---"; "layout: post";
   "title: " +:+ JSON_stringify (title meta);
   "date: " +:+ date meta;
   "slug: " +:+ slug meta]
  ++ (if 0 <? length (tags meta)
      then ["tags: [" +:+ JS.join ", " (map JSON_stringify (tags meta)) +:+ "]"]
      else [])
  ++ (if JS.truthy_str (description meta)
      then ["excerpt: " +:+ JSON_stringify (description meta)] else [])
  ++ (if JS.truthy_str (coverImage meta)
      then ["cover_image: " +:+ JSON_stringify (coverImage meta)] else [])
  ++ (if JS.truthy_str (canonicalUrl meta)
      then ["canonical_url: " +:+ JSON_stringify (canonicalUrl meta)] else [])
  ++ (if featured meta then ["featured: true"] else []).

(** The pages counted by the summary. *)
Definition total (s : Stats) : nat :=
  created s + updated s + unchanged s + errors s.

(** Exactly one counter of [s'] is one above its value in [s], the others
    are the same. *)
Definition bumps_one (s s' : Stats) : Prop :=
  (created s' = S (created s) ∧ updated s' = updated s
   ∧ unchanged s' = unchanged s ∧ errors s' = errors s)
  ∨ (created s' = created s ∧ updated s' = S (updated s)
     ∧ unchanged s' = unchanged s ∧ errors s' = errors s)
  ∨ (created s' = created s ∧ updated s' = updated s
     ∧ unchanged s' = S (unchanged s) ∧ errors s' = errors s)
  ∨ (created s' = created s ∧ updated s' = updated s
     ∧ unchanged s' = unchanged s ∧ errors s' = S (errors s)).

(** The listing of the blocks of a page ends within the request bound. *)
Definition responds (w : World) (fuel : nat) (page : Page) : Prop :=
  is_Some (fetchAllBlocks (notion w) (page_id page) fuel).

(** The state after a page whose processing left the directory [dir] and
    ended with [o]. *)
Definition state_after (st : State) (page : Page) (dir : gmap string Entry)
    (o : res Outcome) : State :=
  {| posts := dir; processedIds := {[ page_id page ]} ∪ processedIds st;
     stats := count o (stats st) |}.

Global Instance Entry_eq_dec : EqDecision Entry.
Proof. solve_decision. Defined.

(** Every entry of an index comes from a post of the initial listing whose
    content matched the identity pattern with that token. *)
Definition index_from_posts (dir : gmap string Entry)
    (index : gmap string string) : Prop :=
  ∀ id g, index !! id = Some g →
    g ∈ existingFiles dir
    ∧ ∃ content, dir !! g = Some (File content)
        ∧ String_match notion_id_re content = Some (Some id).

(** The names a page may unlink or write: the file its token had in the
    index, and its target file. *)
Definition touches (w : World) (index : gmap string string) (page : Page)
    (f : string) : Prop :=
  index !! page_id page = Some f
  ∨ ∃ meta, extractMeta (today w) page = Ok meta
      ∧ postFilename (date meta) (slug meta) = f.

(** ** Sample data *)

Definition plain (s : string) : RichText :=
  {| plain_text := Some s; annotations := None; href := None |}.

Definition text_data (s : string) : BlockData :=
  {| rich_text := Some [plain s]; checked := None; language := None;
     caption := None; icon := None; data_type := None; external := None;
     file := None; data_url := None |}.

Definition text_block (type s : string) : Block :=
  {| block_type := type; block_data := Some (text_data s) |}.

Definition no_property : Property :=
  {| p_title := None; p_rich_text := None; p_date := None;
     p_multi_select := None; p_files := None; p_url := None;
     p_checkbox := None |}.

Definition title_property (s : string) : Property :=
  {| p_title := Some [plain s]; p_rich_text := None; p_date := None;
     p_multi_select := None; p_files := None; p_url := None;
     p_checkbox := None |}.

Definition text_property (s : string) : Property :=
  {| p_title := None; p_rich_text := Some [plain s]; p_date := None;
     p_multi_select := None; p_files := None; p_url := None;
     p_checkbox := None |}.

Definition date_property (s : string) : Property :=
  {| p_title := None; p_rich_text := None;
     p_date := Some {| start := Some s |};
     p_multi_select := None; p_files := None; p_url := None;
     p_checkbox := None |}.

Definition titled_page (id t : string) : Page :=
  {| page_id := id; properties := Some {[ "Title" := title_property t ]} |}.

Definition id_one : string := "11111111-1111-1111-1111-111111111111".
Definition id_two : string := "22222222-2222-2222-2222-222222222222".
Definition id_three : string := "33333333-3333-3333-3333-333333333333".
Definition id_gone : string := "44444444-4444-4444-4444-444444444444".

(** A server whose database lists three pages over two cursor pages, and
    whose block listing has two cursor pages for every page but the second,
    for which it fails. *)
Definition sample_notion : Notion :=
  {| blocks_children_list := λ blockId cursor _,
       if String.eqb blockId id_two then Throw "request failed"
       else match cursor with
            | None =>
                Ok {| results := [text_block "bulleted_list_item" "a";
                                  text_block "bulleted_list_item" "b"];
                      has_more := true; next_cursor := Some "next" |}
            | Some _ =>
                Ok {| results := [text_block "paragraph" blockId];
                      has_more := false; next_cursor := None |}
            end;
     databases_query := λ _ _ cursor,
       match cursor with
       | None =>
           Ok {| results := [titled_page id_one "One"; titled_page id_two "Two"];
                 has_more := true; next_cursor := Some "more" |}
       | Some _ =>
           Ok {| results := [titled_page id_three "Three"];
                 has_more := false; next_cursor := None |}
       end |}.

Definition sample_world : World :=
  {| notion := sample_notion; write_denied := λ _, false;
     today := "2024-01-01" |}.

(** A directory with the post of a page no longer published, a file that is
    not a post and a subdirectory named like a post. *)
Definition sample_dir : gmap string Entry :=
  {[ "2023-05-05-gone.md" :=
       File ("---" +:+ JS.LF +:+ "notion_id: " +:+ JS.DQ +:+ id_gone
             +:+ JS.DQ +:+ JS.LF +:+ "---");
     "notes.txt" := File "keep me";
     "drafts.md" := Directory ]}.

Definition hosted_image : BlockData :=
  {| rich_text := None; checked := None; language := None; caption := None;
     icon := None; data_type := Some "file"; external := None;
     file := Some {| url := Some "https://files.example/f.png" |};
     data_url := None |}.

Definition external_image : BlockData :=
  {| rich_text := None; checked := None; language := None; caption := None;
     icon := None; data_type := Some "external";
     external := Some {| url := Some "https://cdn.example/e.png" |};
     file := None; data_url := None |}.

Definition list_with_omitted_block : list Block :=
  [text_block "bulleted_list_item" "a"; text_block "child_page" "x";
   text_block "bulleted_list_item" "b"].

Definition grouped_list : list Block :=
  [text_block "bulleted_list_item" "a"; text_block "bulleted_list_item" "b";
   text_block "paragraph" "p"; text_block "numbered_list_item" "n"].

Definition hello_page : Page := titled_page id_one "Hello, World!".

(** A page whose slug is given by its Slug property, with capitals. *)
Definition capital_slug_page : Page :=
  {| page_id := id_one;
     properties := Some {[ "Title" := title_property "My Post";
                           "Slug" := text_property "My-Post";
                           "Publish Date" := date_property "2021-03-25" ]} |}.

Definition zero_token : string := "00000000-0000-0000-0000-000000000000".

(** A page whose Slug property spans two lines, the second of which looks
    like an identity line. *)
Definition two_line_slug_page : Page :=
  {| page_id := id_one;
     properties :=
       Some {[ "Title" := title_property "Post";
               "Slug" := text_property
                           ("post" +:+ JS.LF +:+ "notion_id: " +:+ zero_token) ]} |}.


(** ** Further reference formulations *)

(** A span that carries some text. *)
Definition has_text (item : RichText) : bool :=
  JS.truthy_str (default "" (plain_text item)).

(** A span stripped of its annotations and of its link. *)
Definition bare (item : RichText) : RichText :=
  {| plain_text := plain_text item; annotations := None; href := None |}.

(** The block types [blockToMarkdown] has a line for. *)
Definition rendered_types : list string :=
  ["paragraph"; "heading_1"; "heading_2"; "heading_3"; "bulleted_list_item";
   "numbered_list_item"; "to_do"; "code"; "quote"; "callout"; "divider";
   "image"; "video"; "bookmark"; "link_preview"; "toggle";
   "table_of_contents"].

(** A payload with another text. *)
Definition with_rich_text (data : BlockData) (text : option (list RichText))
    : BlockData :=
  {| rich_text := text; checked := checked data; language := language data;
     caption := caption data; icon := icon data; data_type := data_type data;
     external := external data; file := file data;
     data_url := data_url data |}.

Definition with_language (data : BlockData) (lang : option string)
    : BlockData :=
  {| rich_text := rich_text data; checked := checked data; language := lang;
     caption := caption data; icon := icon data; data_type := data_type data;
     external := external data; file := file data;
     data_url := data_url data |}.

Definition annotated_code : BlockData :=
  {| rich_text :=
       Some [{| plain_text := Some "x = 1";
                annotations := Some {| bold := Some true; italic := None;
                                       strikethrough := None;
                                       code := Some true |};
                href := Some "https://x" |}];
     checked := None; language := Some "plain text"; caption := None;
     icon := None; data_type := None; external := None; file := None;
     data_url := None |}.

Definition code_block (data : BlockData) : Block :=
  {| block_type := "code"; block_data := Some data |}.

(** A block that [blockToMarkdown] omits. *)
Definition omitted (b : Block) : Prop := blockToMarkdown b = None.

(** A listing that fails: [fails_after request cursor n e] holds when the
    requests made from [cursor] on succeed and announce a next page until
    the [n]-th, which throws [e]. *)
Inductive fails_after {A : Type} (request : option string → res (ListResponse A))
    : option string → nat → string → Prop :=
  | fails_now cursor e :
      request cursor = Throw e →
      fails_after request cursor 1 e
  | fails_later cursor r n e :
      request cursor = Ok r →
      has_more r = true →
      JS.truthy (next_cursor r) = true →
      fails_after request (next_cursor r) n e →
      fails_after request cursor (S n) e.

(** A listing as the loop reads it: it goes on while the response announces
    more and gives a cursor that is not empty, and ends at the first
    response that does not. *)
Inductive listed {A : Type} (request : option string → res (ListResponse A))
    : option string → list (list A) → Prop :=
  | listed_last cursor r :
      request cursor = Ok r →
      JS.truthy (if has_more r then next_cursor r else None) = false →
      listed request cursor [results r]
  | listed_more cursor r rest :
      request cursor = Ok r →
      has_more r = true →
      JS.truthy (next_cursor r) = true →
      listed request (next_cursor r) rest →
      listed request cursor (results r :: rest).

(** A server that never ends a listing. *)
Definition endless (A : Type) (request : option string → res (ListResponse A))
    : Prop :=
  ∀ cursor, ∃ r, request cursor = Ok r ∧ has_more r = true
                 ∧ JS.truthy (next_cursor r) = true.

(** A server whose listings go wrong: the children of [id_gone] never
    end, those of [id_two] fail on the second page, those of any other
    block announce more with an empty cursor; the database [limited] fails
    on its second page, any other announces more without a cursor. *)
Definition faulty_notion : Notion :=
  {| blocks_children_list := λ blockId cursor _,
       if String.eqb blockId id_gone then
         Ok {| results := [text_block "paragraph" "again"];
               has_more := true; next_cursor := Some "again" |}
       else if String.eqb blockId id_two then
         match cursor with
         | None =>
             Ok {| results := [text_block "paragraph" "first"];
                   has_more := true; next_cursor := Some "next" |}
         | Some _ => Throw "request failed"
         end
       else
         Ok {| results := [text_block "paragraph" "first"];
               has_more := true; next_cursor := Some "" |};
     databases_query := λ database _ cursor,
       if String.eqb database "limited" then
         match cursor with
         | None =>
             Ok {| results := [titled_page id_one "One"];
                   has_more := true; next_cursor := Some "more" |}
         | Some _ => Throw "rate limited"
         end
       else
         Ok {| results := [titled_page id_one "One"];
               has_more := true; next_cursor := None |} |}.

(** A server that always announces more. *)
Definition endless_notion : Notion :=
  {| blocks_children_list := λ _ _ _,
       Ok {| results := [text_block "paragraph" "again"];
             has_more := true; next_cursor := Some "again" |};
     databases_query := λ _ _ _,
       Ok {| results := [titled_page id_one "One"];
             has_more := true; next_cursor := Some "again" |} |}.

(** A string with a word character. *)
Fixpoint has_word (s : string) : bool :=
  match s with
  | EmptyString => false
  | String c s' => JS.is_word c || has_word s'
  end.

(** A page whose title has no ASCII letter or digit. *)
Definition wordless_page : Page := titled_page id_one "你好!".

(** The number of line feeds and carriage returns of a string. *)
Fixpoint line_breaks (s : string) : nat :=
  match s with
  | EmptyString => 0
  | String c s' => (if JS.is_line_terminator c then 1 else 0) + line_breaks s'
  end.

Definition Nat_of_bool (b : bool) : nat := if b then 1 else 0.

(** A metadata record whose text fields hold line breaks and quotes. *)
Definition multiline_meta : Meta :=
  {| title := "Line one" +:+ JS.LF +:+ "notion_id: " +:+ JS.DQ;
     slug := "post"; date := "2024-01-01";
     tags := ["a" +:+ JS.LF +:+ "b"]; description := JS.LF;
     coverImage := ""; canonicalUrl := ""; featured := false |}.

(** The metadata of [hello_page] and the directory that holds only its
    post, without blocks. *)
Definition hello_meta : Meta :=
  {| title := "Hello, World!"; slug := "hello-world"; date := "2024-01-01";
     tags := []; description := ""; coverImage := ""; canonicalUrl := "";
     featured := false |}.

Definition hello_dir : gmap string Entry :=
  {[ "2024-01-01-hello-world.md" := File (pageContent hello_meta id_one []) ]}.

(** The same post under the name it had before its slug changed. *)
Definition old_hello_dir : gmap string Entry :=
  {[ "2024-01-01-hello.md" := File (pageContent hello_meta id_one []) ]}.

Definition old_hello_index : gmap string string :=
  {[ id_one := "2024-01-01-hello.md" ]}.

(** A world in which every write is refused. *)
Definition read_only_world : World :=
  {| notion := sample_notion; write_denied := λ _, true;
     today := "2024-01-02" |}.

(** [holds dir id g]: the post [g] is a file whose first identity line
    carries the token [id]. *)
Definition holds (dir : gmap string Entry) (id g : string) : Prop :=
  ∃ content, dir !! g = Some (File content)
             ∧ String_match notion_id_re content = Some (Some id).

(** A directory in which the post of a page no longer published has the
    name that the first published page of [sample_notion] is given. *)
Definition taken_dir : gmap string Entry :=
  {[ "2024-01-01-one.md" :=
       File ("---" +:+ JS.LF +:+ "notion_id: " +:+ id_gone +:+ JS.LF
             +:+ "---") ]}.

(** A directory with a post written by hand. *)
Definition handwritten_dir : gmap string Entry :=
  {[ "2020-02-02-about.md" := File ("---" +:+ JS.LF +:+ "title: About") ]}.

(** A page is processed without writing anything when its metadata cannot
    be read or the listing of its blocks throws. *)
Definition fails_early (w : World) (fuel : nat) (page : Page) : Prop :=
  (∃ e, extractMeta (today w) page = Throw e)
  ∨ ∃ e, fetchAllBlocks (notion w) (page_id page) fuel = Some (Throw e).

(** The post of the second page of [sample_notion], whose blocks cannot be
    fetched, as a previous pass left it. *)
Definition two_dir : gmap string Entry :=
  {[ "2023-12-31-two.md" :=
       File ("---" +:+ JS.LF +:+ "notion_id: " +:+ id_two +:+ JS.LF
             +:+ "---") ]}.

(** The date property of a page, under one of its three names. *)
Definition dateProp (props : gmap string Property) : option Property :=
  props !! "Publish Date" ?? props !! "Date" ?? props !! "Published".

(** The world of [sample_world] one day later. *)
Definition next_day_world : World :=
  {| notion := sample_notion; write_denied := λ _, false;
     today := "2024-01-02" |}.

(** A configuration whose database cannot be listed to the end. *)
Definition limited_env : Env :=
  {| NOTION_TOKEN := Some "secret"; NOTION_DATABASE_ID := Some "limited" |}.

Definition faulty_world : World :=
  {| notion := faulty_notion; write_denied := λ _, false;
     today := "2024-01-01" |}.

(** The target file of a page, when its metadata can be read. *)
Definition targetOf (w : World) (page : Page) : option string :=
  match extractMeta (today w) page with
  | Ok meta => Some (postFilename (date meta) (slug meta))
  | Throw _ => None
  end.

(** A server that answers every listing at once: two published pages, each
    with one paragraph. *)
Definition steady_notion : Notion :=
  {| blocks_children_list := λ blockId _ _,
       Ok {| results := [text_block "paragraph" blockId];
             has_more := false; next_cursor := None |};
     databases_query := λ _ _ _,
       Ok {| results := [titled_page id_one "One"; titled_page id_two "Two"];
             has_more := false; next_cursor := None |} |}.

Definition steady_world : World :=
  {| notion := steady_notion; write_denied := λ _, false;
     today := "2024-01-01" |}.

(** ** The inputs on which the embedding is exact

    The classes of [JS] are JavaScript's on ASCII. Outside ASCII JavaScript
    acts on a few more code points: [\s] and [trim] take U+00A0, U+1680,
    U+2000 to U+200A, U+2028, U+2029, U+202F, U+205F, U+3000 and U+FEFF for
    white space, a multi-line [^] also matches after U+2028 and U+2029, and
    [toLowerCase] turns U+0130 and U+212A into text that holds an ASCII
    letter (every other code point outside ASCII stays outside ASCII and
    keeps being, or not being, white space). On a text, read as UTF-8, that
    holds none of these code points the functions of [JS] give what the
    script computes. In the same way the directory functions take a file
    name for the name of an entry, which is what [path.join(POSTS_DIR, name)]
    denotes when the name is plain. *)

(** [occurs_in p s]: the text [p] occurs in [s]. *)
Fixpoint occurs_in (p s : string) : bool :=
  String.prefix p s
  || match s with
     | EmptyString => false
     | String _ s' => occurs_in p s'
     end.

(** The string of the bytes [codes]. *)
Definition utf8 (codes : list nat) : string :=
  fold_right (λ n s, String (ascii_of_nat n) s) EmptyString codes.

(** U+2028 and U+2029. *)
Definition line_separators : list string :=
  [utf8 [226; 128; 168]; utf8 [226; 128; 169]].

(** The code points outside ASCII that the classes of [JS] do not follow. *)
Definition beyond_ascii_classes : list string :=
  [utf8 [194; 160];                                   (* U+00A0 *)
   utf8 [225; 154; 128];                              (* U+1680 *)
   utf8 [226; 128; 128]; utf8 [226; 128; 129];        (* U+2000, U+2001 *)
   utf8 [226; 128; 130]; utf8 [226; 128; 131];        (* U+2002, U+2003 *)
   utf8 [226; 128; 132]; utf8 [226; 128; 133];        (* U+2004, U+2005 *)
   utf8 [226; 128; 134]; utf8 [226; 128; 135];        (* U+2006, U+2007 *)
   utf8 [226; 128; 136]; utf8 [226; 128; 137];        (* U+2008, U+2009 *)
   utf8 [226; 128; 138];                              (* U+200A *)
   utf8 [226; 128; 175];                              (* U+202F *)
   utf8 [226; 129; 159];                              (* U+205F *)
   utf8 [227; 128; 128];                              (* U+3000 *)
   utf8 [239; 187; 191];                              (* U+FEFF *)
   utf8 [196; 176];                                   (* U+0130 *)
   utf8 [226; 132; 170]]                              (* U+212A *)
  ++ line_separators.

Definition holds_none_of (patterns : list string) (s : string) : bool :=
  forallb (λ p, negb (occurs_in p s)) patterns.

(** The text holds neither U+2028 nor U+2029. *)
Definition no_line_separator (s : string) : bool :=
  holds_none_of line_separators s.

(** The text holds no code point that the classes of [JS] do not follow. *)
Definition ascii_classes_exact (s : string) : bool :=
  holds_none_of beyond_ascii_classes s.

(** A file name that [path.join(POSTS_DIR, name)] leaves as the entry of
    that name in the posts directory: it is not empty, is neither [.] nor
    [..], and holds no slash and no NUL. *)
Definition plain_name (name : string) : bool :=
  JS.truthy_str name
  && negb (String.eqb name ".") && negb (String.eqb name "..")
  && string_forall (λ c, negb (Ascii.eqb c "/") && negb (Ascii.eqb c "000"))
       name.

(** The post of a page is within the domain on which the embedding is
    exact: whenever the metadata and the blocks of the page can be read, the
    content of the post holds no code point beyond the ASCII classes (so
    that neither the slug, nor the trimmed texts, nor the lines seen by the
    identity pattern differ from the script's) and its file name is
    plain. *)
Definition exact_post (w : World) (fuel : nat) (page : Page) : Prop :=
  ∀ meta blocks,
    extractMeta (today w) page = Ok meta →
    fetchAllBlocks (notion w) (page_id page) fuel = Some (Ok blocks) →
    ascii_classes_exact (pageContent meta (page_id page) blocks) = true
    ∧ plain_name (postFilename (date meta) (slug meta)) = true.

(** The directory is within the domain on which the embedding is exact:
    its entries have plain names, as a directory listing gives them, and
    its files hold no code point beyond the ASCII classes. *)
Definition exact_entry (name : string) (e : Entry) : bool :=
  plain_name name
  && match e with
     | File content => ascii_classes_exact content
     | Directory => true
     end.

Definition exact_dir (dir : gmap string Entry) : Prop :=
  map_Forall (λ name e, exact_entry name e = true) dir.

(** A server whose only published page is [two_line_slug_page], without
    blocks. *)
Definition two_line_notion : Notion :=
  {| blocks_children_list := λ _ _ _,
       Ok {| results := []; has_more := false; next_cursor := None |};
     databases_query := λ _ _ _,
       Ok {| results := [two_line_slug_page]; has_more := false;
             next_cursor := None |} |}.

Definition two_line_world : World :=
  {| notion := two_line_notion; write_denied := λ _, false;
     today := "2024-01-01" |}.



(** * Properties *)

(** ** Strings *)

Lemma append_cons (c : ascii) (s t : string) :
  String c s +:+ t = String c (s +:+ t).
Proof. reflexivity. Qed.

Lemma append_empty_r (s : string) : s +:+ "" = s.
Proof. induction s as [|c s IH]; [done|]. by rewrite append_cons, IH. Qed.

Lemma append_assoc (s t u : string) : (s +:+ t) +:+ u = s +:+ t +:+ u.
Proof. induction s as [|c s IH]; [done|]. by rewrite !append_cons, IH. Qed.

(** ** The span formatter *)

Lemma link_layer_truthy (href : option string) (text : string) :
  link_layer href text =
  if JS.truthy href then "[" +:+ text +:+ "](" +:+ default "" href +:+ ")"
  else text.
Proof. by destruct href as [[|c target]|]. Qed.

(** C4. The span formatter applies its layers in a fixed order: code
    markers, then the combined or single emphasis markers, then the
    strikethrough markers, then the link, which is therefore outermost; an
    empty text gives an empty output whatever the annotations and the link;
    absent annotations behave as unset ones; the spans of a sequence are
    concatenated in order. *)
Theorem span_layers_in_order (item : RichText) :
  let text := default "" (plain_text item) in
  let ann := default no_annotations (annotations item) in
  richTextItemToMarkdown item =
    (if JS.truthy_str text
     then link_layer (href item)
            (strike_layer ann (emphasis_layer ann (code_layer ann text)))
     else "")
  ∧ richTextItemToMarkdown item =
      (if JS.truthy_str text && JS.truthy (href item)
       then "[" +:+ richTextItemToMarkdown (unlinked item) +:+ "]("
            +:+ default "" (href item) +:+ ")"
       else richTextItemToMarkdown (unlinked item))
  ∧ richTextItemToMarkdown
      {| plain_text := plain_text item; annotations := None;
         href := href item |}
    = (if JS.truthy_str text then link_layer (href item) text else "")
  ∧ richTextItemToMarkdown
      {| plain_text := Some "t";
         annotations := Some {| bold := Some true; italic := Some true;
                                strikethrough := None; code := None |};
         href := Some "https://x" |}
    = "[***t***](https://x)"
  ∧ ∀ items : list RichText,
      richTextToMarkdown (Some (item :: items)) =
      richTextItemToMarkdown item +:+ richTextToMarkdown (Some items).
Proof.
  intros text ann. repeat split.
  - unfold richTextItemToMarkdown. fold text. fold ann.
    destruct (JS.truthy_str text); [|done]. simpl negb. cbv iota.
    rewrite link_layer_truthy.
    unfold strike_layer, emphasis_layer, code_layer, wrap.
    by destruct (JS.truthy_bool (code ann)), (JS.truthy_bool (bold ann)),
         (JS.truthy_bool (italic ann)), (JS.truthy_bool (strikethrough ann)).
  - unfold richTextItemToMarkdown, unlinked. simpl plain_text.
    simpl annotations. simpl href. fold text. fold ann.
    destruct (JS.truthy_str text); [|done]. simpl negb. cbv iota.
    rewrite andb_true_l. by destruct (JS.truthy (href item)).
  - unfold richTextItemToMarkdown. simpl plain_text. simpl annotations.
    simpl href. fold text.
    destruct (JS.truthy_str text); [|done]. simpl negb. cbv iota.
    by rewrite link_layer_truthy.
  - intros items. unfold richTextToMarkdown, JS.join. simpl default.
    simpl map. destruct items as [|item' items]; simpl String.concat.
    + by rewrite append_empty_r.
    + done.
Qed.

(** ** Media URLs *)

Lemma image_markdown (data : BlockData) :
  blockToMarkdown (media_block "image" data) =
  Some ("![" +:+ media_caption data +:+ "](" +:+ mediaUrl data +:+ ")").
Proof. reflexivity. Qed.

Lemma video_markdown (data : BlockData) :
  blockToMarkdown (media_block "video" data) =
  Some (if JS.truthy_str (media_caption data)
        then "[▶ " +:+ media_caption data +:+ "](" +:+ mediaUrl data +:+ ")"
        else "[▶ Watch video](" +:+ mediaUrl data +:+ ")").
Proof. reflexivity. Qed.

Lemma mediaUrl_consistent (data : BlockData) :
  tag_consistent data →
  mediaUrl data = externalFirst (external data) (file data).
Proof.
  intros Htag. unfold mediaUrl, externalFirst. case_bool_decide as Hext.
  - apply Htag in Hext as [u Hu]. by rewrite Hu.
  - destruct (external data ?. url) as [u|] eqn:Hu; [|done].
    destruct Hext. apply Htag. by exists u.
Qed.

(** C7. For every image or video block whose payload is as the API gives
    it, its storage tag naming the representation that is populated, the
    URL is taken from the external reference first and from the hosted file
    when there is no external URL (the empty string when there is neither);
    the cover image of the metadata is the external URL of the first cover
    file, else its hosted-file URL, else empty. *)
Theorem media_url_external_first (data : BlockData) (today : string)
    (id : string) (props : gmap string Property) :
  tag_consistent data →
  blockToMarkdown (media_block "image" data)
  = Some ("![" +:+ media_caption data +:+ "]("
          +:+ externalFirst (external data) (file data) +:+ ")")
  ∧ blockToMarkdown (media_block "video" data)
    = Some (if JS.truthy_str (media_caption data)
            then "[▶ " +:+ media_caption data +:+ "]("
                 +:+ externalFirst (external data) (file data) +:+ ")"
            else "[▶ Watch video]("
                 +:+ externalFirst (external data) (file data) +:+ ")")
  ∧ ∃ meta, extractMeta today {| page_id := id; properties := Some props |}
            = Ok meta
      ∧ coverImage meta =
        let coverFiles := default [] (props !! "Cover Image" ?. p_files) in
        externalFirst (first coverFiles ?. file_external)
                      (first coverFiles ?. file_file).
Proof.
  intros Htag. rewrite image_markdown, video_markdown.
  rewrite (mediaUrl_consistent data Htag).
  split; [done|]. split; [done|]. eexists. split; [reflexivity|]. done.
Qed.

Lemma media_url_external_first_witness :
  tag_consistent external_image
  ∧ tag_consistent hosted_image
  ∧ blockToMarkdown (media_block "image" external_image)
    = Some "![](https://cdn.example/e.png)"
  ∧ blockToMarkdown (media_block "image" hosted_image)
    = Some "![](https://files.example/f.png)".
Proof.
  assert (Hexternal : tag_consistent external_image).
  { split; intros _; [by eexists | reflexivity]. }
  assert (Hhosted : tag_consistent hosted_image).
  { split; [discriminate | by intros [u Hu]]. }
  split; [exact Hexternal|]. split; [exact Hhosted|]. split.
  - exact (proj1 (media_url_external_first external_image "2024-01-01" "p" ∅
                    Hexternal)).
  - exact (proj1 (media_url_external_first hosted_image "2024-01-01" "p" ∅
                    Hhosted)).
Defined.

(** ** Pagination *)

Section Pagination.
Context {A : Type} (request : option string → res (ListResponse A)).

Lemma paged_nonempty (cursor : option string) (pages : list (list A)) :
  paged request cursor pages → 0 < length pages.
Proof. destruct 1; simpl; lia. Qed.

Lemma fetch_loop_paged (cursor : option string) (pages : list (list A)) :
  paged request cursor pages →
  ∀ (fuel : nat) (acc : list A),
    length pages ≤ fuel →
    fetch_loop request fuel cursor acc = Some (Ok (acc ++ concat pages)).
Proof.
  induction 1 as [cursor r Hreq Hmore|cursor r c next rest Hreq Hmore Hnext _ IH];
    intros [|fuel] acc Hfuel; simpl in Hfuel; try lia;
    simpl; rewrite Hreq, Hmore.
  - simpl. by rewrite app_nil_r.
  - rewrite Hnext. simpl. rewrite IH by lia. by rewrite <- app_assoc.
Qed.

(** More fuel than needed does not change the result. *)
Lemma fetch_loop_mono (fuel fuel' : nat) (cursor : option string)
    (acc : list A) (r : res (list A)) :
  fetch_loop request fuel cursor acc = Some r →
  fuel ≤ fuel' →
  fetch_loop request fuel' cursor acc = Some r.
Proof.
  revert fuel' cursor acc.
  induction fuel as [|fuel IH]; intros [|fuel'] cursor acc Hrun Hle;
    simpl in *; try done; try lia.
  destruct (request cursor) as [resp|e]; [|done].
  destruct (JS.truthy _); [|done]. apply IH; [done|lia].
Qed.

End Pagination.

(** C5. When a listing is split across cursor pages, each response but the
    last carrying the cursor of the next request, the fetcher returns the
    concatenation of the item lists of all pages, in order, as soon as it
    is allowed one request per page; this is what a listing returning the
    same items in one page gives. It holds for the children of a block and
    for the published pages of the database. *)
Theorem pagination_complete (notion : Notion) (blockId DATABASE_ID : string)
    (fuel : nat) (block_pages : list (list Block))
    (page_pages : list (list Page)) :
  paged (children_request notion blockId) None block_pages →
  paged (published_request notion DATABASE_ID) None page_pages →
  length block_pages ≤ fuel →
  length page_pages ≤ fuel →
  fetchAllBlocks notion blockId fuel = Some (Ok (concat block_pages))
  ∧ fetchPublishedPages notion DATABASE_ID fuel = Some (Ok (concat page_pages))
  ∧ ∀ one_page : Notion,
      paged (children_request one_page blockId) None [concat block_pages] →
      paged (published_request one_page DATABASE_ID) None [concat page_pages] →
      fetchAllBlocks one_page blockId fuel = fetchAllBlocks notion blockId fuel
      ∧ fetchPublishedPages one_page DATABASE_ID fuel
        = fetchPublishedPages notion DATABASE_ID fuel.
Proof.
  intros Hblocks Hpages Hbf Hpf.
  assert (Hb : fetchAllBlocks notion blockId fuel
               = Some (Ok (concat block_pages))).
  { apply (fetch_loop_paged _ _ _ Hblocks fuel [] Hbf). }
  assert (Hp : fetchPublishedPages notion DATABASE_ID fuel
               = Some (Ok (concat page_pages))).
  { apply (fetch_loop_paged _ _ _ Hpages fuel [] Hpf). }
  split; [done|]. split; [done|].
  intros one_page Hblocks1 Hpages1. rewrite Hb, Hp.
  apply paged_nonempty in Hblocks, Hpages.
  split.
  - change (fetchAllBlocks one_page blockId fuel)
      with (fetch_loop (children_request one_page blockId) fuel None []).
    rewrite (fetch_loop_paged _ _ _ Hblocks1 fuel []) by (simpl; lia).
    simpl. by rewrite app_nil_r.
  - change (fetchPublishedPages one_page DATABASE_ID fuel)
      with (fetch_loop (published_request one_page DATABASE_ID) fuel None []).
    rewrite (fetch_loop_paged _ _ _ Hpages1 fuel []) by (simpl; lia).
    simpl. by rewrite app_nil_r.
Qed.

Lemma pagination_complete_witness :
  paged (children_request sample_notion id_one) None
    [[text_block "bulleted_list_item" "a"; text_block "bulleted_list_item" "b"];
     [text_block "paragraph" id_one]]
  ∧ paged (published_request sample_notion "db") None
      [[titled_page id_one "One"; titled_page id_two "Two"];
       [titled_page id_three "Three"]]
  ∧ fetchAllBlocks sample_notion id_one 2
    = Some (Ok [text_block "bulleted_list_item" "a";
                text_block "bulleted_list_item" "b";
                text_block "paragraph" id_one])
  ∧ fetchPublishedPages sample_notion "db" 2
    = Some (Ok [titled_page id_one "One"; titled_page id_two "Two";
                titled_page id_three "Three"]).
Proof.
  assert (Hblocks : paged (children_request sample_notion id_one) None
            [[text_block "bulleted_list_item" "a";
              text_block "bulleted_list_item" "b"];
             [text_block "paragraph" id_one]]).
  { apply (paged_more _ None
             {| results := [text_block "bulleted_list_item" "a";
                            text_block "bulleted_list_item" "b"];
                has_more := true; next_cursor := Some "next" |} "n" "ext");
      [reflexivity..|].
    apply (paged_last _ (Some "next")
             {| results := [text_block "paragraph" id_one];
                has_more := false; next_cursor := None |}); reflexivity. }
  assert (Hpages : paged (published_request sample_notion "db") None
            [[titled_page id_one "One"; titled_page id_two "Two"];
             [titled_page id_three "Three"]]).
  { apply (paged_more _ None
             {| results := [titled_page id_one "One"; titled_page id_two "Two"];
                has_more := true; next_cursor := Some "more" |} "m" "ore");
      [reflexivity..|].
    apply (paged_last _ (Some "more")
             {| results := [titled_page id_three "Three"];
                has_more := false; next_cursor := None |}); reflexivity. }
  split; [exact Hblocks|]. split; [exact Hpages|].
  destruct (pagination_complete sample_notion id_one "db" 2 _ _ Hblocks Hpages)
    as (Hb & Hp & _); [simpl; lia..|].
  split; [exact Hb | exact Hp].
Defined.

(** ** Document assembly *)

Lemma blocksToMarkdown_loop_step (blocks : list Block) (n i : nat)
    (lines : list string) :
  blocksToMarkdown_loop blocks (S n) i lines =
  match blocks !! i with
  | None => lines
  | Some block =>
      blocksToMarkdown_loop blocks n (S i)
        (push_block (if 0 <? i then blocks !! (i - 1) else None) block lines)
  end.
Proof.
  simpl. destruct (blocks !! i) as [block|]; [|done].
  unfold push_block. destruct (blockToMarkdown block) as [md|]; [|done].
  f_equal. unfold is_list_block.
  destruct (if 0 <? i then blocks !! (i - 1) else None) as [prev|];
    simpl from_option;
    destruct (_ && _); destruct (String.eqb md ""); simpl;
    by rewrite ?app_nil_r, <- ?app_assoc.
Qed.

Lemma blocksToMarkdown_loop_prefix (pre extra : list Block) (n : nat) :
  ∀ (i : nat) (lines : list string),
    i + n ≤ length pre →
    blocksToMarkdown_loop (pre ++ extra) n i lines
    = blocksToMarkdown_loop pre n i lines.
Proof.
  induction n as [|n IH]; intros i lines Hle; [done|].
  rewrite !blocksToMarkdown_loop_step.
  rewrite (lookup_app_l pre extra i) by lia.
  destruct (pre !! i) as [block|]; [|done].
  rewrite IH by lia. do 2 f_equal.
  destruct (0 <? i) eqn:Hi; [|done].
  apply lookup_app_l. apply Nat.ltb_lt in Hi. lia.
Qed.

Lemma blocksToMarkdown_loop_split (blocks : list Block) (n m : nat) :
  ∀ (i : nat) (lines : list string),
    i + n ≤ length blocks →
    blocksToMarkdown_loop blocks (n + m) i lines
    = blocksToMarkdown_loop blocks m (i + n)
        (blocksToMarkdown_loop blocks n i lines).
Proof.
  induction n as [|n IH]; intros i lines Hle.
  - by rewrite Nat.add_0_r.
  - change (S n + m) with (S (n + m)). rewrite !blocksToMarkdown_loop_step.
    destruct (lookup_lt_is_Some_2 blocks i) as [block Hblock]; [lia|].
    rewrite Hblock, IH by lia. by rewrite Nat.add_succ_r.
Qed.

(** The lines after one more block. *)
Lemma blocksToMarkdown_lines_snoc (pre : list Block) (b : Block) :
  blocksToMarkdown_lines (pre ++ [b])
  = push_block (last pre) b (blocksToMarkdown_lines pre).
Proof.
  unfold blocksToMarkdown_lines. rewrite length_app. simpl length.
  rewrite blocksToMarkdown_loop_split by (rewrite length_app; simpl; lia).
  rewrite (blocksToMarkdown_loop_prefix pre [b] (length pre) 0) by lia.
  simpl plus.
  rewrite blocksToMarkdown_loop_step.
  rewrite list_lookup_middle by done. simpl blocksToMarkdown_loop.
  f_equal. rewrite last_lookup. destruct pre as [|b0 pre]; [done|].
  simpl length. simpl Nat.ltb. cbv iota.
  rewrite lookup_app_l by (simpl; lia). f_equal. simpl. lia.
Qed.

Lemma walk_lines_snoc (pre : list Block) (b : Block) :
  is_Some (blockToMarkdown b) →
  ∀ prev : option Block,
    walk_lines false prev (pre ++ [b])
    = walk_lines false prev pre
      ++ walk_lines false (match last pre with
                           | Some x => Some x
                           | None => prev
                           end) [b].
Proof.
  intros [md Hmd].
  induction pre as [|a pre IH]; intros prev.
  - simpl. by rewrite Hmd.
  - simpl app. simpl walk_lines at 1 2. rewrite last_cons.
    destruct (blockToMarkdown a) as [mda|].
    + rewrite IH, <- !app_assoc. by destruct (last pre).
    + rewrite IH. by destruct (last pre).
Qed.

Lemma walk_lines_snoc_omitted (pre : list Block) (b : Block) :
  blockToMarkdown b = None →
  ∀ prev : option Block,
    walk_lines false prev (pre ++ [b]) = walk_lines false prev pre.
Proof.
  intros Hb. induction pre as [|a pre IH]; intros prev; simpl.
  - by rewrite Hb.
  - destruct (blockToMarkdown a); by rewrite IH.
Qed.

(** The walk differs from the loop by blank lines at the front only. *)
Lemma walk_lines_blocksToMarkdown_lines (blocks : list Block) :
  ∃ k : nat,
    walk_lines false None blocks
    = replicate k "" ++ blocksToMarkdown_lines blocks.
Proof.
  induction blocks as [|b pre [k IH]] using rev_ind.
  - by exists 0.
  - rewrite blocksToMarkdown_lines_snoc. unfold push_block.
    destruct (blockToMarkdown b) as [md|] eqn:Hmd.
    + rewrite walk_lines_snoc by (by rewrite Hmd). rewrite IH.
      replace (match last pre with Some x => Some x | None => None end)
        with (last pre) by (by destruct (last pre)).
      simpl walk_lines. rewrite Hmd, app_nil_r.
      destruct (blocksToMarkdown_lines pre) as [|l ls].
      * simpl length. simpl Nat.ltb. rewrite andb_false_l, !app_nil_r.
        destruct (_ && _).
        -- by exists k.
        -- exists (S k). simpl app at 4.
           by rewrite app_assoc, <- replicate_S_end.
      * exists k. simpl length. simpl Nat.ltb. rewrite andb_true_l.
        rewrite <- !app_assoc. by destruct (_ && _).
    + exists k. by rewrite walk_lines_snoc_omitted.
Qed.

Lemma trimStart_join_blank (k : nat) (lines : list string) :
  JS.trimStart (JS.join JS.LF (replicate k "" ++ lines))
  = JS.trimStart (JS.join JS.LF lines).
Proof.
  induction k as [|k IH]; [done|].
  simpl replicate. simpl app. unfold JS.join in *.
  destruct (replicate k "" ++ lines) as [|x rest] eqn:Hrest.
  - by rewrite <- IH.
  - rewrite <- IH. reflexivity.
Qed.

(** The documented rule and the loop agree when no block is omitted. *)
Lemma walk_lines_without_omitted (blocks : list Block) :
  Forall (λ b, is_Some (blockToMarkdown b)) blocks →
  ∀ prev : option Block,
    walk_lines true prev blocks = walk_lines false prev blocks.
Proof.
  induction 1 as [|b blocks [md Hmd] _ IH]; intros prev; [done|].
  simpl. by rewrite Hmd, IH.
Qed.

(** C2, as stated, fails: an omitted block between two list items makes
    the second item lose its adjacency, and a blank line separates them. *)
Lemma omitted_block_splits_list :
  blocksToMarkdown list_with_omitted_block
    = "- a" +:+ JS.LF +:+ JS.LF +:+ "- b"
  ∧ documented_body list_with_omitted_block = "- a" +:+ JS.LF +:+ "- b"
  ∧ blocksToMarkdown list_with_omitted_block
    ≠ documented_body list_with_omitted_block.
Proof. split; [reflexivity|]. split; [reflexivity | discriminate]. Qed.

(** C2, amended. The assembled body puts a blank line before every block
    that is not omitted, unless that block and the block just before it in
    the list, omitted or not, are both list items (bulleted, numbered or
    checklist, in any mix), which are then kept on adjacent lines; the
    result is trimmed. On [bulleted, bulleted, paragraph, numbered] the two
    bulleted lines are adjacent and blank lines stand before the paragraph
    and before the numbered item. *)
Theorem assembly_separates_by_adjacent_block (blocks : list Block) :
  blocksToMarkdown blocks = adjacent_body blocks
  ∧ blocksToMarkdown grouped_list
    = "- a" +:+ JS.LF +:+ "- b" +:+ JS.LF +:+ JS.LF +:+ "p"
      +:+ JS.LF +:+ JS.LF +:+ "1. n".
Proof.
  split; [|reflexivity].
  unfold blocksToMarkdown, adjacent_body, JS.trim.
  destruct (walk_lines_blocksToMarkdown_lines blocks) as [k ->].
  by rewrite trimStart_join_blank.
Qed.

(** ** Slugs *)

Ltac by_cases_on_char c :=
  destruct c as [[] [] [] [] [] [] [] []]; try reflexivity; try discriminate.

Lemma space_not_hyphen (c : ascii) :
  JS.is_space c = true → JS.is_hyphen c = false.
Proof. by_cases_on_char c. Qed.

Lemma separator_false (c : ascii) :
  is_separator c = false → JS.is_space c = false ∧ JS.is_hyphen c = false.
Proof. unfold is_separator. by destruct (JS.is_space c), (JS.is_hyphen c). Qed.

(** Collapsing the runs of spaces and then the runs of hyphens collapses
    the runs of separators. *)
Lemma replace_runs_twice (s : string) :
  ∀ h w : bool,
    (w = true → h = true) →
    JS.replace_runs_from JS.is_hyphen "-" h
      (JS.replace_runs_from JS.is_space "-" w s)
    = JS.replace_runs_from is_separator "-" h s.
Proof.
  induction s as [|c s IH]; intros h w Hwh; [done|].
  simpl. unfold is_separator at 1.
  destruct (JS.is_space c) eqn:Hsp; simpl orb.
  - destruct w.
    + rewrite Hwh by done. by apply IH.
    + change ("-" +:+ ?x) with (String "-" x). simpl.
      rewrite IH by done. by destruct h.
  - simpl. destruct (JS.is_hyphen c) eqn:Hhy.
    + rewrite IH by done. by destruct h.
    + by rewrite IH.
Qed.

Section Separators.
Let G := JS.replace_runs_from is_separator "-".
Let H := JS.is_hyphen.

Lemma collapsed_cons (b : bool) (c : ascii) (s : string) :
  G b (String c s) =
  if is_separator c then (if b then G true s else String "-" (G true s))
  else String c (G false s).
Proof. reflexivity. Qed.

Lemma collapsed_true_head (s : string) :
  strip_start H (G true s) = G true s.
Proof.
  induction s as [|c s IH]; [done|]. rewrite collapsed_cons.
  destruct (is_separator c) eqn:Hsep; [done|].
  destruct (separator_false c Hsep) as [_ Hhy]. unfold H. simpl.
  by rewrite Hhy.
Qed.

Lemma strip_start_collapsed (b : bool) (s : string) :
  strip_start H (G b s) = strip_start H (G true s).
Proof.
  destruct s as [|c s]; [done|]. rewrite !collapsed_cons.
  destruct (is_separator c); [|done]. by destruct b.
Qed.

Lemma strip_start_collapsed_trimStart (b : bool) (s : string) :
  strip_start H (G b (JS.trimStart s)) = strip_start H (G b s).
Proof.
  induction s as [|c s IH]; [done|]. simpl JS.trimStart.
  destruct (JS.is_space c) eqn:Hsp; [|done].
  rewrite IH, (collapsed_cons b c). unfold is_separator. rewrite Hsp.
  simpl orb. cbv iota. rewrite (strip_start_collapsed b).
  by destruct b.
Qed.

Lemma strip_end_cons (p : ascii → bool) (c : ascii) (s t : string) :
  strip_end p s = strip_end p t →
  strip_end p (String c s) = strip_end p (String c t).
Proof. simpl. by intros ->. Qed.

Lemma strip_end_collapsed_trimEnd (s : string) :
  ∀ b : bool, strip_end H (G b (JS.trimEnd s)) = strip_end H (G b s).
Proof.
  induction s as [|c s IH]; intros b; [done|].
  assert (Hcons : strip_end H (G b (String c (JS.trimEnd s)))
                  = strip_end H (G b (String c s))).
  { rewrite !collapsed_cons. destruct (is_separator c).
    - destruct b; [apply IH | apply strip_end_cons, IH].
    - apply strip_end_cons, IH. }
  simpl JS.trimEnd. destruct (JS.trimEnd s) as [|c' t] eqn:Htrim; [|done].
  destruct (JS.is_space c) eqn:Hsp; [|done].
  rewrite collapsed_cons. unfold is_separator. rewrite Hsp. simpl orb.
  cbv iota. pose proof (IH true) as Hend. simpl in Hend.
  destruct b; [done|]. simpl. by rewrite <- Hend.
Qed.

End Separators.

Lemma strip_start_end_comm (p : ascii → bool) (s : string) :
  strip_end p (strip_start p s) = strip_start p (strip_end p s).
Proof.
  induction s as [|c s IH]; [done|]. simpl.
  destruct (p c) eqn:Hc.
  - rewrite IH. destruct (strip_end p s); [done|]. simpl. by rewrite Hc.
  - simpl. destruct (strip_end p s); simpl; by rewrite Hc.
Qed.

Lemma no_double_hyphen_tail (c : ascii) (s : string) :
  no_double_hyphen (String c s) = true → no_double_hyphen s = true.
Proof. simpl. by intros [_ ?]%andb_true_iff. Qed.

Lemma strip_end_empty_head (p : ascii → bool) (c : ascii) (s : string) :
  strip_end p (String c s) = "" → p c = true.
Proof. simpl. destruct (strip_end p s); [|done]. by destruct (p c). Qed.

(** Without doubled hyphens, dropping one hyphen at an end drops them
    all. *)
Lemma drop_last_hyphen_strip_end (s : string) :
  no_double_hyphen s = true →
  JS.drop_last_hyphen s = strip_end JS.is_hyphen s.
Proof.
  induction s as [|c s IH]; [done|]. intros Hnd.
  pose proof (no_double_hyphen_tail _ _ Hnd) as Htail.
  destruct s as [|c' s]; [done|].
  change (JS.drop_last_hyphen (String c (String c' s)))
    with (String c (JS.drop_last_hyphen (String c' s))).
  rewrite IH by done.
  change (strip_end JS.is_hyphen (String c (String c' s)))
    with (match strip_end JS.is_hyphen (String c' s) with
          | EmptyString =>
              if JS.is_hyphen c then EmptyString else String c EmptyString
          | t => String c t
          end).
  destruct (strip_end JS.is_hyphen (String c' s)) eqn:Hend; [|done].
  apply strip_end_empty_head in Hend. simpl in Hnd. rewrite Hend in Hnd.
  by destruct (JS.is_hyphen c).
Qed.

Lemma no_double_hyphen_collapsed (s : string) :
  ∀ b : bool,
    no_double_hyphen (JS.replace_runs_from is_separator "-" b s) = true.
Proof.
  induction s as [|c s IH]; intros b; [done|]. rewrite collapsed_cons.
  destruct (is_separator c) eqn:Hsep.
  - destruct b; [apply IH|].
    pose proof (collapsed_true_head s) as Hhead.
    pose proof (IH true) as Hnd.
    destruct (JS.replace_runs_from is_separator "-" true s) as [|c' t];
      [done|].
    change (negb (JS.is_hyphen "-" && JS.is_hyphen c')
            && no_double_hyphen (String c' t) = true).
    rewrite Hnd, andb_true_r. simpl in Hhead.
    destruct (JS.is_hyphen c') eqn:Hc'; [|done].
    exfalso. clear -Hhead.
    assert (Hlen : ∀ u, String.length (strip_start JS.is_hyphen u)
                        ≤ String.length u).
    { induction u as [|a u IHu]; simpl; [lia|].
      destruct (JS.is_hyphen a); simpl; lia. }
    specialize (Hlen t). rewrite Hhead in Hlen. simpl in Hlen. lia.
  - destruct (separator_false c Hsep) as [_ Hhy].
    pose proof (IH false) as Hnd. simpl. rewrite Hhy. simpl.
    rewrite Hnd. by destruct (JS.replace_runs_from is_separator "-" false s).
Qed.

Lemma drop_first_hyphen_collapsed (s : string) :
  JS.drop_first_hyphen (JS.replace_runs_from is_separator "-" false s)
  = strip_start JS.is_hyphen (JS.replace_runs_from is_separator "-" false s).
Proof.
  destruct s as [|c s]; [done|]. rewrite collapsed_cons.
  destruct (is_separator c) eqn:Hsep.
  - simpl. by rewrite collapsed_true_head.
  - destruct (separator_false c Hsep) as [_ Hhy]. simpl. by rewrite Hhy.
Qed.

Lemma no_double_hyphen_drop_first (s : string) :
  no_double_hyphen s = true →
  no_double_hyphen (JS.drop_first_hyphen s) = true.
Proof.
  destruct s as [|c s]; [done|]. intros Hnd. simpl JS.drop_first_hyphen.
  destruct (JS.is_hyphen c); [|done]. by apply no_double_hyphen_tail in Hnd.
Qed.

(** The slug of a title is the documented one: the [trim] step of the
    script changes nothing to the result. *)
Lemma titleToSlug_documented (title : string) :
  titleToSlug title = documented_slug title.
Proof.
  unfold titleToSlug, documented_slug, JS.replace_runs, JS.strip_edge_hyphens.
  set (s := JS.remove_class _ _).
  rewrite !replace_runs_twice by done.
  rewrite drop_last_hyphen_strip_end
    by apply no_double_hyphen_drop_first, no_double_hyphen_collapsed.
  rewrite drop_first_hyphen_collapsed. unfold JS.trim.
  rewrite strip_start_end_comm, strip_end_collapsed_trimEnd.
  rewrite <- strip_start_end_comm.
  by rewrite strip_start_collapsed_trimStart.
Qed.

(** C8. A page without a slug property gets the slug of its resolved
    title, which is the documented slugification: lowercase, strip what is
    not a word character, a space or a hyphen, collapse the runs of spaces
    to one hyphen, collapse repeated hyphens, trim the hyphens at both
    ends; the title "Hello, World!" gives [hello-world]. *)
Theorem slug_from_title (today id : string) (props : gmap string Property) :
  props !! "Slug" = None →
  props !! "slug" = None →
  ∃ meta,
    extractMeta today {| page_id := id; properties := Some props |} = Ok meta
    ∧ slug meta = titleToSlug (title meta)
    ∧ slug meta = documented_slug (title meta)
    ∧ titleToSlug "Hello, World!" = "hello-world"
    ∧ ∃ hello, extractMeta today hello_page = Ok hello
        ∧ title hello = "Hello, World!" ∧ slug hello = "hello-world".
Proof.
  intros HSlug Hslug. eexists. split; [reflexivity|].
  assert (Hs : ∀ m : Meta, slug m = titleToSlug (title m) →
               slug m = titleToSlug (title m)
               ∧ slug m = documented_slug (title m)
               ∧ titleToSlug "Hello, World!" = "hello-world"
               ∧ ∃ hello, extractMeta today hello_page = Ok hello
                   ∧ title hello = "Hello, World!"
                   ∧ slug hello = "hello-world").
  { intros m Hm. split; [done|]. split; [|split; [reflexivity|]].
    - by rewrite Hm, titleToSlug_documented.
    - eexists. split; [reflexivity|]. by split. }
  apply Hs. simpl slug. simpl title. by rewrite HSlug, Hslug.
Qed.

Lemma slug_from_title_witness :
  ({[ "Title" := title_property "Hello, World!" ]} : gmap string Property)
    !! "Slug" = None
  ∧ ({[ "Title" := title_property "Hello, World!" ]} : gmap string Property)
      !! "slug" = None
  ∧ ∃ meta, extractMeta "2024-01-01" hello_page = Ok meta
            ∧ slug meta = "hello-world".
Proof.
  split; [reflexivity|]. split; [reflexivity|].
  destruct (slug_from_title "2024-01-01" id_one
              {[ "Title" := title_property "Hello, World!" ]})
    as (meta & Hmeta & Hslug & _); [reflexivity..|].
  exists meta. split; [exact Hmeta|].
  rewrite Hslug. injection Hmeta as <-. reflexivity.
Defined.

(** ** Lowercase file names *)

Lemma string_forall_impl (p q : ascii → bool) (s : string) :
  (∀ c, p c = true → q c = true) →
  string_forall p s = true → string_forall q s = true.
Proof.
  intros Hpq. induction s as [|c s IH]; [done|]. simpl.
  intros [Hc Hs]%andb_true_iff. by rewrite (Hpq c Hc), IH.
Qed.

Lemma string_forall_append (p : ascii → bool) (s t : string) :
  string_forall p (s +:+ t) = string_forall p s && string_forall p t.
Proof.
  induction s as [|c s IH]; [done|].
  rewrite append_cons. simpl. by rewrite IH, andb_assoc.
Qed.

Lemma toLowerCase_char_not_upper (c : ascii) :
  JS.is_upper (JS.toLowerCase_char c) = false.
Proof. by_cases_on_char c. Qed.

Lemma slug_char_lowercase (c : ascii) :
  is_slug_char c = true → JS.toLowerCase_char c = c.
Proof. by_cases_on_char c. Qed.

Lemma kept_char_is_slug_char (c : ascii) :
  (slug_keep c && negb (JS.is_upper c) && negb (JS.is_space c)
   || JS.is_hyphen c) = true →
  is_slug_char c = true.
Proof. by_cases_on_char c. Qed.

Lemma string_forall_stripped (title : string) :
  string_forall (λ c, slug_keep c && negb (JS.is_upper c))
    (JS.remove_class (λ c, negb (slug_keep c)) (JS.toLowerCase title)) = true.
Proof.
  induction title as [|c s IH]; [done|]. simpl.
  destruct (slug_keep (JS.toLowerCase_char c)) eqn:Hkeep; simpl; [|done].
  by rewrite Hkeep, toLowerCase_char_not_upper, IH.
Qed.

Lemma string_forall_trimStart (p : ascii → bool) (s : string) :
  string_forall p s = true → string_forall p (JS.trimStart s) = true.
Proof.
  induction s as [|c s IH]; [done|]. simpl.
  intros [Hc Hs]%andb_true_iff. destruct (JS.is_space c); [by apply IH|].
  simpl. by rewrite Hc, Hs.
Qed.

Lemma string_forall_trimEnd (p : ascii → bool) (s : string) :
  string_forall p s = true → string_forall p (JS.trimEnd s) = true.
Proof.
  induction s as [|c s IH]; [done|]. simpl.
  intros [Hc Hs]%andb_true_iff. specialize (IH Hs).
  destruct (JS.trimEnd s) as [|c' t].
  - destruct (JS.is_space c); [done|]. simpl. by rewrite Hc.
  - change (p c && string_forall p (String c' t) = true). by rewrite Hc, IH.
Qed.

Lemma string_forall_replace_runs (p q : ascii → bool) (s : string) :
  string_forall p s = true →
  ∀ b : bool,
    string_forall (λ c, p c && negb (q c) || JS.is_hyphen c)
      (JS.replace_runs_from q "-" b s) = true.
Proof.
  induction s as [|c s IH]; [done|]. simpl.
  intros [Hc Hs]%andb_true_iff b. specialize (IH Hs).
  destruct (q c) eqn:Hq.
  - destruct b; [apply IH|]. change ("-" +:+ ?x) with (String "-" x).
    simpl. rewrite IH. by rewrite orb_true_r.
  - simpl. by rewrite Hc, Hq, IH.
Qed.

Lemma string_forall_drop_first_hyphen (p : ascii → bool) (s : string) :
  string_forall p s = true →
  string_forall p (JS.drop_first_hyphen s) = true.
Proof.
  destruct s as [|c s]; [done|]. simpl.
  intros [Hc Hs]%andb_true_iff. destruct (JS.is_hyphen c); [done|].
  simpl. by rewrite Hc, Hs.
Qed.

Lemma string_forall_drop_last_hyphen (p : ascii → bool) (s : string) :
  string_forall p s = true →
  string_forall p (JS.drop_last_hyphen s) = true.
Proof.
  induction s as [|c s IH]; [done|]. intros Hall.
  pose proof Hall as [Hc Hs]%andb_true_iff. specialize (IH Hs).
  destruct s as [|c' s].
  - simpl. destruct (JS.is_hyphen c); [done|]. simpl. by rewrite Hc.
  - change (p c && string_forall p (JS.drop_last_hyphen (String c' s)) = true).
    by rewrite Hc, IH.
Qed.

(** A slug made from a title has lowercase letters, digits, underscores
    and hyphens only. *)
Lemma titleToSlug_chars (title : string) :
  string_forall is_slug_char (titleToSlug title) = true.
Proof.
  unfold titleToSlug, JS.strip_edge_hyphens, JS.replace_runs, JS.trim.
  apply string_forall_drop_last_hyphen, string_forall_drop_first_hyphen.
  eapply string_forall_impl; cycle 1.
  - apply string_forall_replace_runs. apply string_forall_replace_runs.
    apply string_forall_trimEnd, string_forall_trimStart.
    apply string_forall_stripped.
  - intros c Hc. apply kept_char_is_slug_char. simpl in Hc.
    destruct (JS.is_hyphen c); [by rewrite orb_true_r|].
    rewrite !orb_false_r, andb_true_r in Hc. by rewrite orb_false_r.
Qed.

Lemma string_forall_lowercase (s : string) :
  string_forall is_slug_char s = true → is_lowercase s.
Proof.
  unfold is_lowercase. induction s as [|c s IH]; [done|]. simpl.
  intros [Hc Hs]%andb_true_iff. by rewrite (slug_char_lowercase c Hc), IH.
Qed.

Lemma toLowerCase_append (s t : string) :
  JS.toLowerCase (s +:+ t) = JS.toLowerCase s +:+ JS.toLowerCase t.
Proof.
  induction s as [|c s IH]; [done|]. rewrite append_cons. simpl.
  by rewrite IH.
Qed.

Lemma postFilename_lowercase (date slug : string) :
  is_lowercase date → is_lowercase slug →
  is_lowercase (postFilename date slug).
Proof.
  unfold is_lowercase, postFilename. intros Hd Hs.
  by rewrite !toLowerCase_append, Hd, Hs.
Qed.

(** C6, as stated, fails: a slug read from the Slug property keeps its
    capitals, and so does the file name. *)
Lemma filename_keeps_capitals_of_slug_property :
  ∃ meta, extractMeta "2024-01-01" capital_slug_page = Ok meta
    ∧ postFilename (date meta) (slug meta) = "2021-03-25-My-Post.md"
    ∧ ¬ is_lowercase (postFilename (date meta) (slug meta)).
Proof.
  eexists. split; [reflexivity|]. split; [reflexivity|].
  unfold is_lowercase. discriminate.
Qed.

(** C6, amended. The output file name is the date, a hyphen, the slug and
    [.md]. A slug read from the Slug property is used as it is, trimmed;
    a slug made from the title is entirely lowercase, and the file name is
    then entirely lowercase whenever the date string is. *)
Theorem filename_from_date_and_slug (today id : string)
    (props : gmap string Property) :
  ∃ meta,
    extractMeta today {| page_id := id; properties := Some props |} = Ok meta
    ∧ postFilename (date meta) (slug meta)
      = date meta +:+ "-" +:+ slug meta +:+ ".md"
    ∧ slug meta = (if JS.truthy (slug_text props)
                   then default "" (slug_text props)
                   else titleToSlug (title meta))
    ∧ (JS.truthy (slug_text props) = false →
       is_lowercase (slug meta)
       ∧ (is_lowercase (date meta) →
          is_lowercase (postFilename (date meta) (slug meta)))).
Proof.
  eexists. split; [reflexivity|]. split; [reflexivity|].
  split; [reflexivity|]. simpl slug. simpl date. unfold slug_text.
  intros ->.
  assert (Hslug : ∀ t, is_lowercase (titleToSlug t)).
  { intros t. apply string_forall_lowercase, titleToSlug_chars. }
  split; [apply Hslug|]. intros Hdate.
  by apply postFilename_lowercase.
Qed.

Lemma filename_from_date_and_slug_witness :
  JS.truthy (slug_text {[ "Title" := title_property "Hello, World!" ]}) = false
  ∧ ∃ meta, extractMeta "2024-01-01" hello_page = Ok meta
    ∧ postFilename (date meta) (slug meta) = "2024-01-01-hello-world.md"
    ∧ is_lowercase (postFilename (date meta) (slug meta)).
Proof.
  split; [reflexivity|].
  destruct (filename_from_date_and_slug "2024-01-01" id_one
              {[ "Title" := title_property "Hello, World!" ]})
    as (meta & Hmeta & _ & _ & Hlower).
  exists meta. split; [exact Hmeta|].
  assert (Hm : meta = {| title := "Hello, World!"; slug := "hello-world";
                         date := "2024-01-01"; tags := []; description := "";
                         coverImage := ""; canonicalUrl := "";
                         featured := false |}).
  { change (extractMeta "2024-01-01" hello_page) with
      (Ok {| title := "Hello, World!"; slug := "hello-world";
             date := "2024-01-01"; tags := []; description := "";
             coverImage := ""; canonicalUrl := ""; featured := false |})
      in Hmeta.
    by injection Hmeta. }
  split; [by rewrite Hm|].
  apply Hlower; [reflexivity|]. rewrite Hm. reflexivity.
Defined.

(** ** The identity line of the front matter *)

Lemma join_cons (sep x : string) (l : list string) :
  l ≠ [] → JS.join sep (x :: l) = x +:+ sep +:+ JS.join sep l.
Proof. by destruct l. Qed.

Lemma single_line_append (s t : string) :
  single_line s → single_line t → single_line (s +:+ t).
Proof.
  unfold single_line. intros Hs Ht. by rewrite string_forall_append, Hs, Ht.
Qed.

Lemma single_line_join (sep : string) (l : list string) :
  single_line sep → Forall single_line l → single_line (JS.join sep l).
Proof.
  intros Hsep. induction 1 as [|x l Hx Hl IH]; [done|].
  destruct l as [|y l]; [done|]. rewrite join_cons by done.
  by repeat apply single_line_append.
Qed.

Lemma JSON_quote_char_single_line (c : ascii) :
  single_line (JSON_quote_char c).
Proof. unfold single_line. by_cases_on_char c. Qed.

Lemma JSON_stringify_single_line (s : string) :
  single_line (JSON_stringify s).
Proof.
  unfold JSON_stringify. apply single_line_append; [done|].
  apply single_line_append; [|done].
  induction s as [|c s IH]; [done|]. simpl.
  apply single_line_append; [apply JSON_quote_char_single_line | done].
Qed.

Lemma JSON_quote_char_id_char (c : ascii) :
  is_id_char c = true → JSON_quote_char c = String c "".
Proof. by_cases_on_char c. Qed.

(** A token is printed between quotes, unchanged. *)
Lemma JSON_stringify_token (token : string) :
  string_forall is_id_char token = true →
  JSON_stringify token = JS.DQ +:+ token +:+ JS.DQ.
Proof.
  intros Htok. unfold JSON_stringify. do 2 f_equal.
  induction token as [|c s IH]; [done|]. simpl in *.
  apply andb_true_iff in Htok as [Hc Hs].
  by rewrite (JSON_quote_char_id_char c Hc), IH.
Qed.

Lemma other_key_line_prefix (c : ascii) (key value : string) :
  c ≠ "n"%char → single_line (String c key) → single_line value →
  other_key_line (String c key +:+ value).
Proof.
  intros Hc Hkey Hvalue. split; [done|]. by apply single_line_append.
Qed.

(** *** The search skips the lines of the other keys *)

Lemma regex_exec_off_line_start (prev : option ascii) (s : string)
    (cap : option string) :
  at_line_start prev = false → regex_exec notion_id_re prev s cap = None.
Proof.
  intros Hprev. unfold notion_id_re. cbn [regex_exec]. by rewrite Hprev.
Qed.

Lemma eat_literal_other_letter (a c : ascii) (l s : string)
    (prev : option ascii) :
  c ≠ a → eat_literal (String a l) prev (String c s) = None.
Proof.
  intros Hc. cbn [eat_literal]. by destruct (Ascii.eqb_spec a c) as [->|_].
Qed.

Lemma regex_exec_other_letter (prev : option ascii) (c : ascii) (s : string)
    (cap : option string) :
  c ≠ "n"%char → regex_exec notion_id_re prev (String c s) cap = None.
Proof.
  intros Hc. unfold notion_id_re. cbn [regex_exec].
  destruct (at_line_start prev); [|done].
  by rewrite eat_literal_other_letter.
Qed.

Lemma regex_search_inside_line (line rest : string) :
  single_line line →
  ∀ prev : option ascii,
    at_line_start prev = false →
    regex_search notion_id_re prev (line +:+ JS.LF +:+ rest)
    = regex_search notion_id_re (Some "010"%char) rest.
Proof.
  unfold single_line.
  induction line as [|c line IH]; intros Hline prev Hprev.
  - change ("" +:+ JS.LF +:+ rest) with (String "010" rest).
    cbn [regex_search]. by rewrite regex_exec_off_line_start.
  - rewrite append_cons. cbn [regex_search].
    rewrite regex_exec_off_line_start by done.
    simpl in Hline. apply andb_true_iff in Hline as [Hc Hline].
    apply IH; [done|]. simpl. by apply negb_true_iff.
Qed.

Lemma regex_search_skip_line (line rest : string) (prev : option ascii) :
  other_key_line line →
  regex_search notion_id_re prev (line +:+ JS.LF +:+ rest)
  = regex_search notion_id_re (Some "010"%char) rest.
Proof.
  destruct line as [|c line]; intros [Hc Hline]; [done|].
  rewrite append_cons. cbn [regex_search].
  rewrite regex_exec_other_letter by done.
  unfold single_line in Hline. simpl in Hline.
  apply andb_true_iff in Hline as [Hlt Hline].
  apply regex_search_inside_line; [done|]. simpl. by apply negb_true_iff.
Qed.

Lemma regex_search_skip_lines (lines : list string) :
  Forall other_key_line lines →
  lines ≠ [] →
  ∀ (tail : list string) (suffix : string) (prev : option ascii),
    tail ≠ [] →
    regex_search notion_id_re prev (JS.join JS.LF (lines ++ tail) +:+ suffix)
    = regex_search notion_id_re (Some "010"%char)
        (JS.join JS.LF tail +:+ suffix).
Proof.
  induction 1 as [|l lines Hl Hlines IH]; [done|].
  intros _ tail suffix prev Htail. simpl app.
  rewrite join_cons by (by destruct lines, tail).
  rewrite !append_assoc, regex_search_skip_line by done.
  destruct lines as [|l' lines]; [done|]. by apply IH.
Qed.

(** *** The match at the identity line *)

Lemma eat_literal_append (l rest : string) :
  ∀ prev : option ascii,
    ∃ prev', eat_literal l prev (l +:+ rest) = Some (prev', rest).
Proof.
  induction l as [|a l IH]; intros prev; [by eexists|].
  rewrite append_cons. cbn [eat_literal]. rewrite Ascii.eqb_refl. apply IH.
Qed.

Lemma eat_class_append (p : ascii → bool) (token rest : string) :
  string_forall p token = true →
  ∀ prev : option ascii,
    ∃ prev', eat_class (String.length token) p prev (token +:+ rest)
             = Some (token, prev', rest).
Proof.
  induction token as [|c token IH]; intros Hall prev; [by eexists|].
  simpl in Hall. apply andb_true_iff in Hall as [Hc Hall].
  rewrite append_cons. cbn [String.length eat_class]. rewrite Hc.
  destruct (IH Hall (Some c)) as [prev' ->]. by eexists.
Qed.

Lemma regex_exec_star (p : ascii → bool) (re : list atom)
    (prev : option ascii) (c : ascii) (s : string) (cap : option string) :
  regex_exec (Star p :: re) prev (String c s) cap =
  if p c then
    match regex_exec (Star p :: re) (Some c) s cap with
    | Some r => Some r
    | None => regex_exec re prev (String c s) cap
    end
  else regex_exec re prev (String c s) cap.
Proof. reflexivity. Qed.

Lemma regex_exec_opt (a : ascii) (re : list atom) (prev : option ascii)
    (c : ascii) (s : string) (cap : option string) :
  regex_exec (Opt a :: re) prev (String c s) cap =
  if Ascii.eqb a c then
    match regex_exec re (Some c) s cap with
    | Some r => Some r
    | None => regex_exec re prev (String c s) cap
    end
  else regex_exec re prev (String c s) cap.
Proof. reflexivity. Qed.

Lemma regex_exec_capture (n : nat) (p : ascii → bool) (re : list atom)
    (prev : option ascii) (s : string) (cap : option string) :
  regex_exec (Capture n p :: re) prev s cap =
  match eat_class n p prev s with
  | Some (g, prev', s') => regex_exec re prev' s' (Some g)
  | None => None
  end.
Proof. reflexivity. Qed.

Lemma regex_exec_identity_line (token rest : string) (prev : option ascii) :
  at_line_start prev = true →
  is_identity_token token →
  regex_exec notion_id_re prev
    ("notion_id: " +:+ JS.DQ +:+ token +:+ JS.DQ +:+ rest) None
  = Some (Some token).
Proof.
  intros Hprev [Hlen Hchars]. unfold notion_id_re. cbn [regex_exec].
  rewrite Hprev.
  change ("notion_id: " +:+ ?x) with ("notion_id:" +:+ String " " x).
  destruct (eat_literal_append "notion_id:"
              (String " " (JS.DQ +:+ token +:+ JS.DQ +:+ rest)) prev)
    as [p1 ->].
  change (JS.DQ +:+ ?x) with (String "034" x).
  match goal with
  | |- ?lhs = _ =>
      change lhs with
        (regex_exec [Star JS.is_space; Opt "034"; Capture 36 is_id_char;
                     Opt "034"] p1
           (String " " (String "034" (token +:+ String "034" rest))) None)
  end.
  rewrite regex_exec_star. change (JS.is_space " ") with true. cbv iota.
  rewrite regex_exec_star. change (JS.is_space "034") with false. cbv iota.
  rewrite regex_exec_opt, Ascii.eqb_refl, regex_exec_capture, <- Hlen.
  destruct (eat_class_append is_id_char token (String "034" rest) Hchars
              (Some "034"%char)) as [p2 ->].
  by rewrite regex_exec_opt, Ascii.eqb_refl.
Qed.

(** *** The shape of the front matter *)

Lemma buildFrontMatter_lines (meta : Meta) (notionId : string) :
  buildFrontMatter meta notionId
  = JS.join JS.LF (header_lines meta
                   ++ ["notion_id: " +:+ JSON_stringify notionId; "---"]).
Proof.
  unfold buildFrontMatter, header_lines.
  by destruct (0 <? length (tags meta)), (JS.truthy_str (description meta)),
       (JS.truthy_str (coverImage meta)), (JS.truthy_str (canonicalUrl meta)),
       (featured meta).
Qed.

Lemma header_lines_other_keys (meta : Meta) :
  single_line (date meta) → single_line (slug meta) →
  Forall other_key_line (header_lines meta).
Proof.
  intros Hdate Hslug. unfold header_lines.
  repeat apply Forall_app_2.
  - repeat apply Forall_cons_2; try apply Forall_nil_2;
      try (by split);
      apply other_key_line_prefix; try done.
    apply JSON_stringify_single_line.
  - destruct (0 <? _); [|done]. apply Forall_singleton.
    apply other_key_line_prefix; [done..|].
    apply single_line_append; [|done].
    apply single_line_join; [done|].
    apply Forall_map, Forall_forall. intros t _.
    apply JSON_stringify_single_line.
  - destruct (JS.truthy_str _); [|done]. apply Forall_singleton.
    apply other_key_line_prefix; [done..|]. apply JSON_stringify_single_line.
  - destruct (JS.truthy_str _); [|done]. apply Forall_singleton.
    apply other_key_line_prefix; [done..|]. apply JSON_stringify_single_line.
  - destruct (JS.truthy_str _); [|done]. apply Forall_singleton.
    apply other_key_line_prefix; [done..|]. apply JSON_stringify_single_line.
  - destruct (featured meta); [|done]. apply Forall_singleton. by split.
Qed.

Lemma String_match_pageContent (meta : Meta) (token : string)
    (blocks : list Block) :
  single_line (date meta) → single_line (slug meta) →
  is_identity_token token →
  String_match notion_id_re (pageContent meta token blocks)
  = Some (Some token).
Proof.
  intros Hdate Hslug Htoken. unfold String_match, pageContent.
  rewrite buildFrontMatter_lines.
  rewrite regex_search_skip_lines
    by (done || by apply header_lines_other_keys).
  rewrite JSON_stringify_token by apply Htoken.
  rewrite join_cons by done. rewrite !append_assoc.
  destruct (_ +:+ _) eqn:Hs; cbn [regex_search];
    rewrite <- Hs, regex_exec_identity_line; done.
Qed.

Lemma join_app (sep : string) (lines tail : list string) :
  lines ≠ [] → tail ≠ [] →
  JS.join sep (lines ++ tail)
  = JS.join sep lines +:+ sep +:+ JS.join sep tail.
Proof.
  intros Hlines Htail. induction lines as [|l lines IH]; [done|].
  destruct lines as [|l' lines].
  - simpl app. by rewrite join_cons.
  - simpl app in *. rewrite (join_cons sep l (l' :: _ ++ _)) by done.
    rewrite IH by done. rewrite (join_cons sep l (l' :: lines)) by done.
    by rewrite !append_assoc.
Qed.

(** C3. The round trip fails on the code: the date and the slug are
    written to the header as they are, while the other text fields go
    through [JSON.stringify], and a slug that spans two lines can put a line
    that looks like an identity line before the real one; the pattern then
    recovers another token. *)
Lemma two_line_slug_breaks_round_trip :
  ∃ meta, extractMeta "2024-01-01" two_line_slug_page = Ok meta
    ∧ is_identity_token (page_id two_line_slug_page)
    ∧ String_match notion_id_re
        (pageContent meta (page_id two_line_slug_page) [])
      = Some (Some zero_token)
    ∧ String_match notion_id_re
        (pageContent meta (page_id two_line_slug_page) [])
      ≠ Some (Some (page_id two_line_slug_page)).
Proof.
  eexists. split; [reflexivity|]. split; [by split|].
  split; [by vm_compute | by vm_compute].
Qed.

(** The pass after the one that wrote such a post indexes it under the
    other token, finds the page unchanged and then removes the post, since
    the other token belongs to no published page. *)
Lemma two_line_slug_post_is_removed :
  ∃ r1 r2 content,
    main two_line_world "db" 1 ∅ = Some r1
    ∧ final_posts r1 = {[ "2024-01-01-post" +:+ JS.LF +:+ "notion_id: "
                          +:+ zero_token +:+ ".md" := File content ]}
    ∧ main two_line_world "db" 1 (final_posts r1) = Some r2
    ∧ summary r2 = Some {| created := 0; updated := 0; unchanged := 1;
                           errors := 0 |}
    ∧ final_posts r2 = ∅.
Proof.
  eexists _, _, _. split; [vm_compute; reflexivity|].
  split; [vm_compute; reflexivity|]. split; [vm_compute; reflexivity|].
  split; vm_compute; reflexivity.
Qed.

(** X27. The identity line makes a round trip when the raw fields are well
    behaved: for every metadata record whose date and slug hold no line
    break, whose header holds neither U+2028 nor U+2029 (which
    [JSON.stringify] leaves as they are and after which the pattern starts
    a line), and every identity token of 36 characters among [a-f], [0-9]
    and the hyphen, the header ends with the line made of the fixed key and
    the quoted token, followed by the closing marker; the pattern of the
    index, applied to the whole file content, recovers exactly that token,
    and the index maps the token to the file. *)
Theorem identity_token_round_trip (meta : Meta) (token : string)
    (blocks : list Block) :
  single_line (date meta) →
  single_line (slug meta) →
  no_line_separator (buildFrontMatter meta token) = true →
  is_identity_token token →
  (∃ before,
     buildFrontMatter meta token
     = before +:+ JS.LF +:+ "notion_id: " +:+ JS.DQ +:+ token +:+ JS.DQ
       +:+ JS.LF +:+ "---")
  ∧ String_match notion_id_re (pageContent meta token blocks)
    = Some (Some token)
  ∧ ∀ (dir : gmap string Entry) (notionIdToFile : gmap string string)
      (file : string),
      dir !! file = Some (File (pageContent meta token blocks)) →
      index_file dir notionIdToFile file = <[token := file]> notionIdToFile.
Proof.
  intros Hdate Hslug _ Htoken.
  pose proof (String_match_pageContent meta token blocks Hdate Hslug Htoken)
    as Hmatch.
  split; [|split; [done|]].
  - exists (JS.join JS.LF (header_lines meta)).
    rewrite buildFrontMatter_lines, join_app by done.
    rewrite JSON_stringify_token by apply Htoken.
    rewrite join_cons by done. by rewrite !append_assoc.
  - intros dir idx file Hfile. unfold index_file, readFileSync.
    by rewrite Hfile, Hmatch.
Qed.

Lemma identity_token_round_trip_witness :
  single_line "2024-01-01"
  ∧ single_line "hello-world"
  ∧ no_line_separator
      (buildFrontMatter
         {| title := "Hello, World!"; slug := "hello-world";
            date := "2024-01-01"; tags := ["a"]; description := "";
            coverImage := ""; canonicalUrl := ""; featured := true |}
         id_one) = true
  ∧ is_identity_token id_one
  ∧ String_match notion_id_re
      (pageContent {| title := "Hello, World!"; slug := "hello-world";
                      date := "2024-01-01"; tags := ["a"]; description := "";
                      coverImage := ""; canonicalUrl := ""; featured := true |}
                   id_one [text_block "paragraph" "p"])
    = Some (Some id_one).
Proof.
  split; [reflexivity|]. split; [reflexivity|]. split; [reflexivity|].
  split; [split; reflexivity|].
  apply identity_token_round_trip;
    [reflexivity | reflexivity | reflexivity | split; reflexivity].
Defined.

(** ** The reconciliation pass *)

Section Pass.
Context (w : World) (fuel : nat) (existing : list string)
        (index : gmap string string).

Lemma pageOutcome_responds (dir : gmap string Entry) (page : Page) :
  responds w fuel page →
  is_Some (pageOutcome w fuel existing index dir page).
Proof.
  intros [fetched Hfetched]. unfold pageOutcome.
  destruct (extractMeta (today w) page); [|by eexists].
  rewrite Hfetched. by eexists.
Qed.

Lemma processPage_outcome (st : State) (page : Page) :
  processPage w fuel existing index st page
  = (λ r, state_after st page r.1 r.2)
    <$> pageOutcome w fuel existing index (posts st) page.
Proof.
  unfold processPage.
  by destruct (pageOutcome w fuel existing index (posts st) page) as [[d o]|].
Qed.


Lemma processPages_responds (pages : list Page) :
  Forall (responds w fuel) pages →
  ∀ st : State, is_Some (processPages w fuel existing index pages st).
Proof.
  induction 1 as [|page pages Hpage _ IH]; intros st; [by eexists|].
  simpl. rewrite processPage_outcome.
  destruct (pageOutcome_responds (posts st) page Hpage) as [r ->].
  apply IH.
Qed.

Lemma count_bumps_one (o : res Outcome) (s : Stats) :
  bumps_one s (count o s).
Proof.
  unfold bumps_one. destruct o as [[]|e]; simpl; naive_solver.
Qed.

Lemma bumps_one_total (s s' : Stats) :
  bumps_one s s' → total s' = S (total s).
Proof. unfold bumps_one, total. intros H; decompose [and or] H; lia. Qed.

Lemma processPage_bumps_one (st st' : State) (page : Page) :
  processPage w fuel existing index st page = Some st' →
  bumps_one (stats st) (stats st').
Proof.
  rewrite processPage_outcome.
  destruct (pageOutcome _ _ _ _ _ _) as [[d o]|]; [|done].
  intros [= <-]. apply count_bumps_one.
Qed.

Lemma processPages_total (pages : list Page) :
  ∀ st st' : State,
    processPages w fuel existing index pages st = Some st' →
    total (stats st') = length pages + total (stats st).
Proof.
  induction pages as [|page pages IH]; intros st st'; simpl.
  - by intros [= <-].
  - destruct (processPage w fuel existing index st page) as [st1|] eqn:Hpage;
      [|done].
    simpl. intros Hrest. rewrite (IH _ _ Hrest).
    apply processPage_bumps_one, bumps_one_total in Hpage. lia.
Qed.

End Pass.

(** C9. In a pass over the pages returned by the listing, each page
    increments exactly one of the four counters, so that the counters of
    the summary add up to the number of published pages. *)
Theorem counters_add_up (w : World) (DATABASE_ID : string) (fuel : nat)
    (dir : gmap string Entry) (pages : list Page) :
  fetchPublishedPages (notion w) DATABASE_ID fuel = Some (Ok pages) →
  Forall (responds w fuel) pages →
  (∃ r s, main w DATABASE_ID fuel dir = Some r
          ∧ summary r = Some s
          ∧ created s + updated s + unchanged s + errors s = length pages)
  ∧ ∀ existing index st page st',
      processPage w fuel existing index st page = Some st' →
      bumps_one (stats st) (stats st').
Proof.
  intros Hlisting Hpages.
  split; [|intros; by eapply processPage_bumps_one].
  unfold main. rewrite Hlisting. simpl.
  destruct (processPages_responds w fuel (existingFiles dir)
              (notionIdToFile dir) pages Hpages (initial_state dir))
    as [st Hst].
  rewrite Hst. simpl. eexists _, _. split; [done|]. split; [done|].
  apply processPages_total in Hst. unfold total in Hst. simpl in Hst. lia.
Qed.

Lemma sample_listing :
  fetchPublishedPages (notion sample_world) "db" 2
  = Some (Ok [titled_page id_one "One"; titled_page id_two "Two";
              titled_page id_three "Three"]).
Proof. reflexivity. Defined.

Lemma sample_pages_respond :
  Forall (responds sample_world 2)
    [titled_page id_one "One"; titled_page id_two "Two";
     titled_page id_three "Three"].
Proof. repeat constructor; by eexists. Defined.

Lemma counters_add_up_witness :
  fetchPublishedPages (notion sample_world) "db" 2
    = Some (Ok [titled_page id_one "One"; titled_page id_two "Two";
                titled_page id_three "Three"])
  ∧ Forall (responds sample_world 2)
      [titled_page id_one "One"; titled_page id_two "Two";
       titled_page id_three "Three"]
  ∧ ∃ r s, main sample_world "db" 2 sample_dir = Some r
           ∧ summary r = Some s
           ∧ created s + updated s + unchanged s + errors s = 3.
Proof.
  split; [exact sample_listing|]. split; [exact sample_pages_respond|].
  exact (proj1 (counters_add_up sample_world "db" 2 sample_dir _
                  sample_listing sample_pages_respond)).
Defined.

(** ** Failure isolation *)

Lemma writeFileSync_ok (denied : string → bool) (dir dir' : gmap string Entry)
    (name content : string) :
  writeFileSync denied dir name content = Ok dir' →
  dir' = <[name := File content]> dir ∧ denied name = false.
Proof.
  unfold writeFileSync.
  destruct (dir !! name) as [[c|]|]; [| done |];
    destruct (denied name); [done | by intros [= <-] | done | by intros [= <-]].
Qed.

Lemma unlinkSync_ok (dir dir' : gmap string Entry) (name : string) :
  unlinkSync dir name = Ok dir' → dir' = delete name dir.
Proof.
  unfold unlinkSync. destruct (dir !! name) as [[c|]|]; [|done..].
  by intros [= <-].
Qed.

Lemma readFileSync_ok (dir : gmap string Entry) (name content : string) :
  readFileSync dir name = Ok content → dir !! name = Some (File content).
Proof.
  unfold readFileSync. destruct (dir !! name) as [[c|]|]; [|done..].
  by intros [= <-].
Qed.

Section Isolation.
Context (w : World) (fuel : nat) (existing : list string)
        (index : gmap string string).

(** A page that is counted as created, updated or unchanged has its
    content in its file when its turn ends. *)
Lemma tryWritePost_written (dir dir' : gmap string Entry) (page : Page)
    (meta : Meta) (blocks : list Block) (o : Outcome) :
  tryWritePost (write_denied w) existing index dir page meta (Ok blocks)
  = (dir', Ok o) →
  dir' !! postFilename (date meta) (slug meta)
  = Some (File (pageContent meta (page_id page) blocks)).
Proof.
  unfold tryWritePost.
  set (content := pageContent meta (page_id page) blocks).
  set (filename := postFilename (date meta) (slug meta)).
  set (dir1 := if _ && _ then _ else dir).
  destruct (existsSync dir1 filename).
  - destruct (readFileSync dir1 filename) as [existing'|e] eqn:Hread;
      [|done].
    destruct (String.eqb_spec existing' content) as [->|_]; simpl.
    + intros [= <- _]. by apply readFileSync_ok.
    + destruct (writeFileSync _ _ _ _) as [d|e] eqn:Hwrite; [|done].
      intros [= <- _]. apply writeFileSync_ok in Hwrite as [-> _].
      apply lookup_insert_eq.
  - destruct (writeFileSync _ _ _ _) as [d|e] eqn:Hwrite; [|done].
    intros [= <- _]. apply writeFileSync_ok in Hwrite as [-> _].
    apply lookup_insert_eq.
Qed.


Local Arguments tryWritePost : simpl never.


Lemma pageOutcome_metadata_throws (dir dir' : gmap string Entry) (page : Page)
    (o : res Outcome) (e : string) :
  extractMeta (today w) page = Throw e →
  pageOutcome w fuel existing index dir page = Some (dir', o) →
  dir' = dir ∧ o = Throw e.
Proof. unfold pageOutcome. intros ->. by intros [= <- <-]. Qed.

Lemma pageOutcome_fetch_throws (dir dir' : gmap string Entry) (page : Page)
    (o : res Outcome) (e : string) :
  fetchAllBlocks (notion w) (page_id page) fuel = Some (Throw e) →
  pageOutcome w fuel existing index dir page = Some (dir', o) →
  dir' = dir ∧ ∃ e', o = Throw e'.
Proof.
  unfold pageOutcome. intros ->.
  destruct (extractMeta (today w) page); simpl; intros [= <- <-]; eauto.
Qed.

End Isolation.

(** ** Files a page leaves alone *)

Section Keeps.
Context (w : World) (fuel : nat) (existing : list string)
        (index : gmap string string) (f : string).

Lemma unlinkSync_keeps (dir : gmap string Entry) (g : string) :
  g ≠ f →
  match unlinkSync dir g with Ok dir' => dir' | Throw _ => dir end !! f
  = dir !! f.
Proof.
  intros Hg. destruct (unlinkSync dir g) as [dir'|e] eqn:Hunlink; [|done].
  apply unlinkSync_ok in Hunlink as ->. by apply lookup_delete_ne.
Qed.

Lemma tryWritePost_keeps (dir dir' : gmap string Entry) (page : Page)
    (meta : Meta) (fetched : res (list Block)) (o : res Outcome) :
  index !! page_id page ≠ Some f →
  postFilename (date meta) (slug meta) ≠ f →
  tryWritePost (write_denied w) existing index dir page meta fetched
  = (dir', o) →
  dir' !! f = dir !! f.
Proof.
  intros Hprevious Hfilename. unfold tryWritePost.
  destruct fetched as [blocks|e]; [|by intros [= <- _]].
  set (content := pageContent meta (page_id page) blocks).
  set (filename := postFilename (date meta) (slug meta)) in *.
  set (dir1 := if _ && _ then _ else dir).
  assert (Hdir1 : dir1 !! f = dir !! f).
  { unfold dir1.
    destruct (index !! page_id page) as [prev|] eqn:Hprev; [|done].
    destruct (_ && _); [|done]. simpl.
    apply unlinkSync_keeps. congruence. }
  assert (Hwrite : ∀ d, writeFileSync (write_denied w) dir1 filename content
                        = Ok d → d !! f = dir !! f).
  { intros d [-> _]%writeFileSync_ok. by rewrite lookup_insert_ne. }
  destruct (existsSync dir1 filename).
  - destruct (readFileSync dir1 filename) as [existing'|e];
      [|by intros [= <- _]].
    destruct (negb (String.eqb existing' content)); [|by intros [= <- _]].
    destruct (writeFileSync _ _ _ _) as [d|e] eqn:Hw; intros [= <- _];
      [by apply Hwrite | done].
  - destruct (writeFileSync _ _ _ _) as [d|e] eqn:Hw; intros [= <- _];
      [by apply Hwrite | done].
Qed.

Lemma processPage_keeps (st st' : State) (page : Page) :
  ¬ touches w index page f →
  processPage w fuel existing index st page = Some st' →
  posts st' !! f = posts st !! f.
Proof.
  intros Htouch. rewrite processPage_outcome. unfold pageOutcome.
  destruct (extractMeta (today w) page) as [meta|e] eqn:Hmeta;
    [|by intros [= <-]].
  destruct (fetchAllBlocks _ _ _) as [fetched|]; [|done]. simpl.
  intros [= <-]. simpl.
  eapply tryWritePost_keeps; [| |apply surjective_pairing].
  - intros Hprev. apply Htouch. by left.
  - intros Hname. apply Htouch. right. by exists meta.
Qed.

Lemma processPages_keeps (pages : list Page) :
  (∀ page, page ∈ pages → ¬ touches w index page f) →
  ∀ st st' : State,
    processPages w fuel existing index pages st = Some st' →
    posts st' !! f = posts st !! f.
Proof.
  induction pages as [|page pages IH]; intros Htouch st st'; simpl.
  - by intros [= <-].
  - destruct (processPage w fuel existing index st page) as [st1|] eqn:Hpage;
      [|done].
    simpl. intros Hrest.
    rewrite (IH (λ q Hq, Htouch q (list_elem_of_further _ _ _ Hq)) _ _ Hrest).
    eapply processPage_keeps; [|done]. apply Htouch. by left.
Qed.

Lemma processPages_processedIds (pages : list Page) :
  ∀ (st st' : State) (id : string),
    processPages w fuel existing index pages st = Some st' →
    id ∈ processedIds st'
    ↔ id ∈ processedIds st ∨ id ∈ page_id <$> pages.
Proof.
  induction pages as [|page pages IH]; intros st st' id; simpl.
  - intros [= <-]. rewrite elem_of_nil. tauto.
  - rewrite processPage_outcome.
    destruct (pageOutcome _ _ _ _ _ _) as [[d o]|]; [|done]. simpl.
    intros Hrest. rewrite (IH _ _ id Hrest). simpl.
    rewrite elem_of_cons, elem_of_union, elem_of_singleton. tauto.
Qed.

End Keeps.

(** What the removal loop changes is the post of a token that was not
    processed. *)
Lemma remove_unpublished_changes (ids : gset string)
    (entries : list (string * string)) :
  ∀ (dir : gmap string Entry) (g : string),
    fold_left (remove_unpublished ids) entries dir !! g ≠ dir !! g →
    ∃ id, (id, g) ∈ entries ∧ id ∉ ids.
Proof.
  induction entries as [|[id0 g0] entries IH]; intros dir g; [done|].
  simpl fold_left.
  set (dir1 := remove_unpublished ids dir (id0, g0)).
  destruct (decide (dir1 !! g = dir !! g)) as [Hsame|Hchanged].
  - rewrite <- Hsame. intros (id & Hin & Hid)%IH. exists id.
    split; [by right | done].
  - intros _. exists id0. unfold dir1, remove_unpublished in Hchanged.
    case_bool_decide as Hid0; simpl in Hchanged; [done|].
    destruct (unlinkSync dir g0) as [d|e] eqn:Hunlink; [|done].
    apply unlinkSync_ok in Hunlink as ->.
    destruct (decide (g0 = g)) as [->|Hne];
      [split; [by left | done]|].
    by rewrite lookup_delete_ne in Hchanged.
Qed.

Lemma remove_all_unpublished_keeps (index : gmap string string)
    (ids : gset string) (dir : gmap string Entry) (f : string) :
  (∀ id, index !! id = Some f → id ∈ ids) →
  remove_all_unpublished index ids dir !! f = dir !! f.
Proof.
  intros Hprocessed.
  destruct (decide (remove_all_unpublished index ids dir !! f = dir !! f))
    as [|Hne]; [done|].
  apply remove_unpublished_changes in Hne as (id & Hin & Hid).
  apply elem_of_map_to_list in Hin. destruct Hid. by apply Hprocessed.
Qed.



(** ** Files that are not posts *)

Lemma endsWith_unfold (s suffix : string) :
  JS.endsWith s suffix =
  String.eqb s suffix
  || match s with
     | EmptyString => false
     | String _ s' => JS.endsWith s' suffix
     end.
Proof. by destruct s. Qed.

Lemma endsWith_refl (s : string) : JS.endsWith s s = true.
Proof. by rewrite endsWith_unfold, String.eqb_refl. Qed.

Lemma endsWith_append (s suffix : string) :
  JS.endsWith (s +:+ suffix) suffix = true.
Proof.
  induction s as [|c s IH]; [apply endsWith_refl|].
  rewrite append_cons, endsWith_unfold, IH. apply orb_true_r.
Qed.

Lemma postFilename_md (date slug : string) :
  JS.endsWith (postFilename date slug) ".md" = true.
Proof.
  unfold postFilename. rewrite <- !append_assoc. apply endsWith_append.
Qed.

Lemma existingFiles_spec (dir : gmap string Entry) (g : string) :
  g ∈ existingFiles dir ↔ JS.endsWith g ".md" = true ∧ is_Some (dir !! g).
Proof.
  unfold existingFiles, readdirSync. rewrite list_elem_of_filter.
  rewrite Is_true_true. apply and_iff_compat_l.
  rewrite list_elem_of_fmap. split.
  - intros [[g' e] [-> He%elem_of_map_to_list]]. by exists e.
  - intros [e He]. exists (g, e). by rewrite elem_of_map_to_list.
Qed.

Lemma build_index_from_posts (dir : gmap string Entry) :
  index_from_posts dir (notionIdToFile dir).
Proof.
  unfold notionIdToFile, build_index.
  assert (Hgen : ∀ files acc,
            (∀ f, f ∈ files → f ∈ existingFiles dir) →
            index_from_posts dir acc →
            index_from_posts dir (fold_left (index_file dir) files acc)).
  { induction files as [|file files IH]; intros acc Hfiles Hacc; [done|].
    simpl. apply IH; [intros f Hf; apply Hfiles; by right|].
    unfold index_file, readFileSync.
    destruct (dir !! file) as [[content|]|] eqn:Hfile; [|done..].
    destruct (String_match notion_id_re content) as [[id|]|] eqn:Hmatch;
      [|done..].
    intros id' g. destruct (decide (id = id')) as [<-|Hne].
    - rewrite lookup_insert_eq. intros [= <-].
      split; [apply Hfiles; by left|]. by exists content.
    - rewrite lookup_insert_ne by done. apply Hacc. }
  apply Hgen; [done|]. intros id g. by rewrite lookup_empty.
Qed.


(** C10. A file of the output directory whose name does not end in [.md]
    is not in the listing of existing posts (whose length is the count the
    script prints), is the value of no entry of the index, is left as it is
    by the removal of the posts no longer published and by the whole pass;
    the removal loop only changes posts of the initial listing whose content
    matched the identity pattern, with a token that was not processed. *)
Theorem non_posts_untouched (w : World) (DATABASE_ID : string) (fuel : nat)
    (dir : gmap string Entry) (r : Result) (f : string) :
  main w DATABASE_ID fuel dir = Some r →
  JS.endsWith f ".md" = false →
  (f ∉ indexed r)
  ∧ (∀ id, notionIdToFile dir !! id ≠ Some f)
  ∧ (∀ ids d, remove_all_unpublished (notionIdToFile dir) ids d !! f = d !! f)
  ∧ final_posts r !! f = dir !! f
  ∧ ∀ ids d g,
      remove_all_unpublished (notionIdToFile dir) ids d !! g ≠ d !! g →
      (g ∈ indexed r)
      ∧ JS.endsWith g ".md" = true
      ∧ ∃ content id,
          dir !! g = Some (File content)
          ∧ String_match notion_id_re content = Some (Some id)
          ∧ notionIdToFile dir !! id = Some g
          ∧ (id ∉ ids).
Proof.
  intros Hmain Hf.
  pose proof (build_index_from_posts dir) as Hindex.
  assert (Hmd : ∀ id g, notionIdToFile dir !! id = Some g →
                        JS.endsWith g ".md" = true).
  { intros id g [Hg _]%Hindex. by apply existingFiles_spec in Hg as [? _]. }
  assert (Hindexed : indexed r = existingFiles dir).
  { unfold main in Hmain.
    destruct (fetchPublishedPages _ _ _) as [[pages|e]|]; simpl in Hmain;
      [|by injection Hmain as <-|done].
    destruct (processPages _ _ _ _ _ _) as [st|]; simpl in Hmain; [|done].
    by injection Hmain as <-. }
  assert (Hchanges : ∀ ids d g,
            remove_all_unpublished (notionIdToFile dir) ids d !! g ≠ d !! g →
            ∃ id, notionIdToFile dir !! id = Some g ∧ id ∉ ids).
  { intros ids d g (id & Hin & Hid)%remove_unpublished_changes.
    exists id. by rewrite <- elem_of_map_to_list. }
  assert (Hkept : ∀ ids d,
            remove_all_unpublished (notionIdToFile dir) ids d !! f = d !! f).
  { intros ids d.
    destruct (decide (remove_all_unpublished (notionIdToFile dir) ids d !! f
                      = d !! f)) as [|Hne]; [done|].
    apply Hchanges in Hne as (id & Hid%Hmd & _). congruence. }
  split; [|split; [|split; [done|split]]].
  - rewrite Hindexed, existingFiles_spec. intros [? _]. congruence.
  - intros id Hid%Hmd. congruence.
  - unfold main in Hmain.
    destruct (fetchPublishedPages _ _ _) as [[pages|e]|]; simpl in Hmain;
      [|by injection Hmain as <-|done].
    destruct (processPages _ _ _ _ _ _) as [st|] eqn:Hst; simpl in Hmain;
      [|done].
    injection Hmain as <-. simpl. rewrite Hkept.
    apply (processPages_keeps w fuel _ _ f) in Hst; [done|].
    intros page _ [Hprev%Hmd|(meta & _ & Hname)]; [congruence|].
    pose proof (postFilename_md (date meta) (slug meta)). congruence.
  - intros ids d g (id & Hid & Hnot)%Hchanges. rewrite Hindexed.
    destruct (Hindex id g Hid) as (Hg & content & Hcontent & Hmatch).
    split; [done|]. split; [by apply existingFiles_spec in Hg as [? _]|].
    by exists content, id.
Qed.

Lemma non_posts_untouched_witness :
  JS.endsWith "notes.txt" ".md" = false
  ∧ ∃ r, main sample_world "db" 2 sample_dir = Some r
      ∧ final_posts r !! "notes.txt" = Some (File "keep me").
Proof.
  split; [reflexivity|].
  destruct (main sample_world "db" 2 sample_dir) as [r|] eqn:Hmain.
  - exists r. split; [reflexivity|].
    destruct (non_posts_untouched sample_world "db" 2 sample_dir r "notes.txt"
                Hmain eq_refl) as (_ & _ & _ & -> & _).
    reflexivity.
  - exfalso. vm_compute in Hmain. discriminate Hmain.
Defined.

(** Concrete pages and directories within the domain of the embedding. *)
Ltac exact_post_by_computation :=
  let meta := fresh "meta" in
  let blocks := fresh "blocks" in
  let Hmeta := fresh "Hmeta" in
  let Hblocks := fresh "Hblocks" in
  intros meta blocks Hmeta Hblocks;
  vm_compute in Hmeta; vm_compute in Hblocks;
  first [ discriminate Hmeta
        | discriminate Hblocks
        | injection Hmeta as <-; injection Hblocks as <-;
          split; vm_compute; reflexivity ].

Ltac exact_posts_by_computation :=
  repeat (apply List.Forall_cons; [exact_post_by_computation|]);
  apply List.Forall_nil.

Ltac exact_dir_by_computation :=
  apply map_Forall_to_list; vm_compute;
  repeat (apply List.Forall_cons; [reflexivity|]); apply List.Forall_nil.


(** * Further properties *)

(** ** Rich text *)

Lemma join_empty_cons (x : string) (l : list string) :
  JS.join "" (x :: l) = x +:+ JS.join "" l.
Proof.
  destruct l as [|y l]; [by rewrite append_empty_r|]. by rewrite join_cons.
Qed.

Lemma join_empty_app (l1 l2 : list string) :
  JS.join "" (l1 ++ l2) = JS.join "" l1 +:+ JS.join "" l2.
Proof.
  induction l1 as [|x l1 IH]; [done|]. simpl app.
  by rewrite !join_empty_cons, IH, append_assoc.
Qed.

(** X1. The formatted text of a sequence of spans is the concatenation of
    the formatted texts of its parts: formatting a sequence cut in two and
    gluing the results gives the text of the whole, no separator is added
    between spans, and an absent array is formatted like the empty one. *)
Theorem richTextToMarkdown_app (spans1 spans2 : list RichText) :
  richTextToMarkdown (Some (spans1 ++ spans2))
  = richTextToMarkdown (Some spans1) +:+ richTextToMarkdown (Some spans2)
  ∧ richTextToMarkdown None = richTextToMarkdown (Some []).
Proof.
  split; [|reflexivity]. unfold richTextToMarkdown. simpl default.
  by rewrite map_app, join_empty_app.
Qed.

Lemma richTextItemToMarkdown_no_text (item : RichText) :
  has_text item = false → richTextItemToMarkdown item = "".
Proof. unfold has_text, richTextItemToMarkdown. by intros ->. Qed.

(** X2. Spans without text leave no trace in the output, whatever their
    annotations and link: removing them from the sequence does not change
    the formatted text; and a sequence of spans without annotation or link
    is formatted as the concatenation of their texts. *)
Theorem richTextToMarkdown_ignores_empty_spans (spans : list RichText)
    (texts : list string) :
  richTextToMarkdown (Some (filter (λ i, Is_true (has_text i)) spans))
  = richTextToMarkdown (Some spans)
  ∧ richTextToMarkdown (Some (plain <$> texts)) = JS.join "" texts.
Proof.
  unfold richTextToMarkdown. simpl default. split.
  - induction spans as [|item spans IH]; [done|].
    rewrite filter_cons. destruct (has_text item) eqn:Htext.
    + rewrite decide_True by done. simpl map.
      by rewrite !join_empty_cons, IH.
    + rewrite decide_False by (by intros []). simpl map.
      by rewrite join_empty_cons, IH, richTextItemToMarkdown_no_text.
  - induction texts as [|t texts IH]; [done|]. simpl fmap. simpl map.
    rewrite !join_empty_cons. f_equal; [|apply IH].
    unfold richTextItemToMarkdown. simpl. by destruct t.
Qed.

(** ** Blocks *)

(** X3. The text of a code block is taken literally: the annotations and
    links of its spans are not rendered, so stripping them does not change
    the output; and the language [plain text], like an empty or absent
    language, gives a fence without a language tag. *)
Theorem code_block_is_literal (data : BlockData) :
  blockToMarkdown
    (code_block (with_rich_text data (map bare <$> rich_text data)))
  = blockToMarkdown (code_block data)
  ∧ blockToMarkdown (code_block (with_language data (Some "plain text")))
    = blockToMarkdown (code_block (with_language data None))
  ∧ blockToMarkdown (code_block (with_language data (Some "")))
    = blockToMarkdown (code_block (with_language data None))
  ∧ blockToMarkdown (code_block annotated_code)
    = Some ("```" +:+ JS.LF +:+ "x = 1" +:+ JS.LF +:+ "```").
Proof.
  split; [|by repeat split].
  unfold blockToMarkdown, code_block, with_rich_text. simpl.
  destruct (rich_text data) as [spans|]; [|done]. simpl.
  replace (map (λ r, default "" (plain_text r)) (map bare spans))
    with (map (λ r, default "" (plain_text r)) spans); [done|].
  induction spans as [|item spans IH]; [done|]. simpl. by rewrite IH.
Qed.

Ltac case_block_type type :=
  repeat match goal with
    | |- context [String.eqb type ?l] =>
        destruct (String.eqb_spec type l) as [->|?];
        [ simpl; split;
          [ discriminate
          | intros [?|Hn]; [discriminate | destruct Hn; repeat constructor] ]
        | simpl ]
    end.

(** X4. A block is omitted from the document exactly when its payload is
    missing or its type is not one of the rendered types; child pages,
    child databases and unknown types are omitted, and a rendered type with
    a payload always gives a line, possibly empty. *)
Theorem blockToMarkdown_omits (block : Block) :
  blockToMarkdown block = None
  ↔ block_data block = None ∨ block_type block ∉ rendered_types.
Proof.
  destruct block as [type [data|]]; unfold blockToMarkdown; simpl;
    [|by split; [left|]].
  case_block_type type.
  replace (if _ || _ then None else None) with (@None string)
    by (by destruct (_ || _)).
  split; [|done]. intros _. right. unfold rendered_types.
  rewrite !not_elem_of_cons. repeat (split; [done|]). apply not_elem_of_nil.
Qed.

(** ** Document body *)

Lemma blocksToMarkdown_walk (blocks : list Block) :
  blocksToMarkdown blocks
  = JS.trim (JS.join JS.LF (walk_lines false None blocks)).
Proof.
  unfold blocksToMarkdown, JS.trim.
  destruct (walk_lines_blocksToMarkdown_lines blocks) as [k ->].
  by rewrite trimStart_join_blank.
Qed.

Lemma blocksToMarkdown_lines_omitted_end (blocks trailing : list Block) :
  Forall omitted trailing →
  blocksToMarkdown_lines (blocks ++ trailing) = blocksToMarkdown_lines blocks.
Proof.
  induction trailing as [|o trailing IH] using rev_ind; intros Hom.
  - by rewrite app_nil_r.
  - apply Forall_app in Hom as [Hom Ho].
    apply (Forall_inv (P:=omitted)) in Ho. unfold omitted in Ho.
    rewrite app_assoc, blocksToMarkdown_lines_snoc. unfold push_block.
    rewrite Ho. by apply IH.
Qed.

Lemma walk_lines_omitted_start (leading blocks : list Block) :
  Forall omitted leading →
  ∀ prev : option Block,
    ∃ prev', walk_lines false prev (leading ++ blocks)
             = walk_lines false prev' blocks.
Proof.
  induction 1 as [|o leading Ho _ IH]; intros prev; [by exists prev|].
  simpl. unfold omitted in Ho. rewrite Ho. apply IH.
Qed.

(** Changing the block standing before a list changes blank lines at the
    front only. *)
Lemma walk_lines_prev (blocks : list Block) (p q : option Block) :
  ∃ (k1 k2 : nat) (tail : list string),
    walk_lines false p blocks = replicate k1 "" ++ tail
    ∧ walk_lines false q blocks = replicate k2 "" ++ tail.
Proof.
  destruct blocks as [|b blocks]; [by exists 0, 0, []|]. simpl.
  destruct (blockToMarkdown b) as [md|]; [|by exists 0, 0; eexists].
  exists (if is_list_block b && from_option is_list_block false p
          then 0 else 1),
         (if is_list_block b && from_option is_list_block false q
          then 0 else 1).
  eexists. split; by destruct (_ && _).
Qed.

(** X5. Omitted blocks at the start and at the end of the list leave no
    trace in the body: the body is that of the list without them. (Between
    two blocks they can, see C2.) A list of omitted blocks gives the empty
    body. *)
Theorem omitted_blocks_at_the_edges (leading blocks trailing : list Block) :
  Forall omitted leading →
  Forall omitted trailing →
  blocksToMarkdown (leading ++ blocks ++ trailing) = blocksToMarkdown blocks
  ∧ blocksToMarkdown (leading ++ trailing) = "".
Proof.
  intros Hleading Htrailing.
  assert (Hedges : ∀ inner,
            blocksToMarkdown (leading ++ inner ++ trailing)
            = blocksToMarkdown inner).
  { intros inner. transitivity (blocksToMarkdown (leading ++ inner)).
    - unfold blocksToMarkdown. rewrite app_assoc.
      by rewrite blocksToMarkdown_lines_omitted_end.
    - rewrite !blocksToMarkdown_walk.
      destruct (walk_lines_omitted_start leading inner Hleading None)
        as [prev ->].
      destruct (walk_lines_prev inner prev None) as (k1 & k2 & tail & -> & ->).
      unfold JS.trim. by rewrite !trimStart_join_blank. }
  split; [apply Hedges|]. apply (Hedges []).
Qed.

Lemma omitted_blocks_at_the_edges_witness :
  Forall omitted [text_block "child_page" "x"]
  ∧ Forall omitted [text_block "child_database" "y"; text_block "embed" "z"]
  ∧ blocksToMarkdown
      ([text_block "child_page" "x"] ++ grouped_list
       ++ [text_block "child_database" "y"; text_block "embed" "z"])
    = blocksToMarkdown grouped_list.
Proof.
  assert (H1 : Forall omitted [text_block "child_page" "x"])
    by (by repeat constructor).
  assert (H2 : Forall omitted [text_block "child_database" "y";
                               text_block "embed" "z"])
    by (by repeat constructor).
  split; [exact H1|]. split; [exact H2|].
  apply (omitted_blocks_at_the_edges _ grouped_list _ H1 H2).
Defined.

Lemma trimEnd_head (c : ascii) (s : string) :
  JS.is_space c = false →
  ∃ t, JS.trimEnd (String c s) = String c t.
Proof.
  intros Hc. simpl. destruct (JS.trimEnd s); rewrite ?Hc; by eexists.
Qed.

Lemma trimEnd_idempotent (s : string) :
  JS.trimEnd (JS.trimEnd s) = JS.trimEnd s.
Proof.
  induction s as [|c s IH]; [done|]. simpl.
  destruct (JS.trimEnd s) as [|c' t] eqn:Hend.
  - destruct (JS.is_space c) eqn:Hc; [done|]. simpl. by rewrite Hc.
  - change (JS.trimEnd (String c (String c' t)))
      with (match JS.trimEnd (String c' t) with
            | EmptyString =>
                if JS.is_space c then EmptyString else String c EmptyString
            | u => String c u
            end).
    by rewrite IH.
Qed.

Lemma trimStart_trim (s : string) :
  JS.trimStart (JS.trim s) = JS.trim s.
Proof.
  unfold JS.trim. induction s as [|c s IH]; [done|].
  simpl JS.trimStart at 2 3.
  destruct (JS.is_space c) eqn:Hc; [apply IH|].
  destruct (trimEnd_head c s Hc) as [t ->]. simpl. by rewrite Hc.
Qed.

Lemma trim_idempotent (s : string) : JS.trim (JS.trim s) = JS.trim s.
Proof.
  unfold JS.trim at 1. rewrite trimStart_trim. apply trimEnd_idempotent.
Qed.

(** X6. The body of a document never starts nor ends with white space or a
    line break, whatever the blocks: trimming it again, at either end,
    changes nothing. *)
Theorem blocksToMarkdown_trimmed (blocks : list Block) :
  JS.trimStart (blocksToMarkdown blocks) = blocksToMarkdown blocks
  ∧ JS.trimEnd (blocksToMarkdown blocks) = blocksToMarkdown blocks
  ∧ JS.trim (blocksToMarkdown blocks) = blocksToMarkdown blocks.
Proof.
  unfold blocksToMarkdown. split; [apply trimStart_trim|].
  split; [apply trimEnd_idempotent | apply trim_idempotent].
Qed.

(** ** Listings that fail, stop short or never end *)

Section Listings.
Context {A : Type} (request : option string → res (ListResponse A)).

Lemma fetch_loop_fails (cursor : option string) (n : nat) (e : string) :
  fails_after request cursor n e →
  ∀ (fuel : nat) (acc : list A),
    n ≤ fuel → fetch_loop request fuel cursor acc = Some (Throw e).
Proof.
  induction 1 as [cursor e Hreq|cursor r n e Hreq Hmore Hnext _ IH];
    intros [|fuel] acc Hfuel; try lia; simpl; rewrite Hreq; [done|].
  rewrite Hmore, Hnext. apply IH. lia.
Qed.

Lemma fetch_loop_listed (cursor : option string) (pages : list (list A)) :
  listed request cursor pages →
  ∀ (fuel : nat) (acc : list A),
    length pages ≤ fuel →
    fetch_loop request fuel cursor acc = Some (Ok (acc ++ concat pages)).
Proof.
  induction 1 as [cursor r Hreq Hstop|cursor r rest Hreq Hmore Hnext _ IH];
    intros [|fuel] acc Hfuel; simpl in Hfuel; try lia; simpl; rewrite Hreq.
  - rewrite Hstop. simpl. by rewrite app_nil_r.
  - rewrite Hmore, Hnext, IH by lia. by rewrite <- app_assoc.
Qed.

Lemma fetch_loop_endless :
  endless A request →
  ∀ (fuel : nat) (cursor : option string) (acc : list A),
    fetch_loop request fuel cursor acc = None.
Proof.
  intros Hendless. induction fuel as [|fuel IH]; intros cursor acc; [done|].
  simpl. destruct (Hendless cursor) as (r & -> & -> & ->). apply IH.
Qed.

End Listings.

(** X7. A failure of the remote listing is not retried: when the [n]-th
    request of a listing throws, the fetcher throws the same error as soon
    as it is allowed [n] requests, and the items of the pages already
    received are not returned. *)
Theorem fetch_failure_propagates (notion : Notion)
    (blockId DATABASE_ID : string) (fuel n m : nat) (e e' : string) :
  fails_after (children_request notion blockId) None n e →
  fails_after (published_request notion DATABASE_ID) None m e' →
  n ≤ fuel → m ≤ fuel →
  fetchAllBlocks notion blockId fuel = Some (Throw e)
  ∧ fetchPublishedPages notion DATABASE_ID fuel = Some (Throw e').
Proof.
  intros Hblocks Hpages Hn Hm. split.
  - by apply (fetch_loop_fails _ _ _ _ Hblocks).
  - by apply (fetch_loop_fails _ _ _ _ Hpages).
Qed.

Lemma fetch_failure_propagates_witness :
  fails_after (children_request faulty_notion id_two) None 2 "request failed"
  ∧ fails_after (published_request faulty_notion "limited") None 2
      "rate limited"
  ∧ fetchAllBlocks faulty_notion id_two 2 = Some (Throw "request failed")
  ∧ fetchPublishedPages faulty_notion "limited" 2
    = Some (Throw "rate limited").
Proof.
  assert (H1 : fails_after (children_request faulty_notion id_two) None 2
                 "request failed").
  { eapply (fails_later _ None); [reflexivity..|]. by constructor. }
  assert (H2 : fails_after (published_request faulty_notion "limited") None 2
                 "rate limited").
  { eapply (fails_later _ None); [reflexivity..|]. by constructor. }
  split; [exact H1|]. split; [exact H2|].
  apply (fetch_failure_propagates faulty_notion id_two "limited" 2 2 2 _ _
           H1 H2); lia.
Defined.

(** X8. The loop goes on only while the response announces more pages and
    gives a cursor that is not empty: a response that announces more but
    whose cursor is missing or empty ends the listing like a last page, and
    the fetcher returns, without an error, the items received so far. *)
Theorem listing_stops_without_cursor (notion : Notion)
    (blockId DATABASE_ID : string) (fuel : nat)
    (block_pages : list (list Block)) (page_pages : list (list Page)) :
  listed (children_request notion blockId) None block_pages →
  listed (published_request notion DATABASE_ID) None page_pages →
  length block_pages ≤ fuel →
  length page_pages ≤ fuel →
  fetchAllBlocks notion blockId fuel = Some (Ok (concat block_pages))
  ∧ fetchPublishedPages notion DATABASE_ID fuel
    = Some (Ok (concat page_pages)).
Proof.
  intros Hblocks Hpages Hb Hp. split.
  - by apply (fetch_loop_listed _ _ _ Hblocks fuel []).
  - by apply (fetch_loop_listed _ _ _ Hpages fuel []).
Qed.

Lemma listing_stops_without_cursor_witness :
  listed (children_request faulty_notion id_one) None
    [[text_block "paragraph" "first"]]
  ∧ listed (published_request faulty_notion "db") None
      [[titled_page id_one "One"]]
  ∧ children_request faulty_notion id_one None
    = Ok {| results := [text_block "paragraph" "first"];
            has_more := true; next_cursor := Some "" |}
  ∧ published_request faulty_notion "db" None
    = Ok {| results := [titled_page id_one "One"];
            has_more := true; next_cursor := None |}
  ∧ fetchAllBlocks faulty_notion id_one 1
    = Some (Ok [text_block "paragraph" "first"])
  ∧ fetchPublishedPages faulty_notion "db" 1
    = Some (Ok [titled_page id_one "One"]).
Proof.
  assert (H1 : listed (children_request faulty_notion id_one) None
                 [[text_block "paragraph" "first"]]).
  { by apply (listed_last _ None
                {| results := [text_block "paragraph" "first"];
                   has_more := true; next_cursor := Some "" |}). }
  assert (H2 : listed (published_request faulty_notion "db") None
                 [[titled_page id_one "One"]]).
  { by apply (listed_last _ None
                {| results := [titled_page id_one "One"];
                   has_more := true; next_cursor := None |}). }
  split; [exact H1|]. split; [exact H2|].
  split; [reflexivity|]. split; [reflexivity|].
  apply (listing_stops_without_cursor faulty_notion id_one "db" 1 _ _ H1 H2);
    simpl; lia.
Defined.

(** X9. The fetchers put no bound on the number of requests: against a
    server whose every response announces more and gives a cursor, no
    number of requests is enough for them to return. *)
Theorem endless_listing_never_returns (notion : Notion)
    (blockId DATABASE_ID : string) :
  endless Block (children_request notion blockId) →
  endless Page (published_request notion DATABASE_ID) →
  ∀ fuel : nat,
    fetchAllBlocks notion blockId fuel = None
    ∧ fetchPublishedPages notion DATABASE_ID fuel = None.
Proof.
  intros Hblocks Hpages fuel. split.
  - by apply (fetch_loop_endless _ Hblocks).
  - by apply (fetch_loop_endless _ Hpages).
Qed.

Lemma endless_listing_never_returns_witness :
  endless Block (children_request endless_notion id_one)
  ∧ endless Page (published_request endless_notion "db")
  ∧ fetchAllBlocks endless_notion id_one 1000 = None
  ∧ fetchPublishedPages endless_notion "db" 1000 = None.
Proof.
  assert (H1 : endless Block (children_request endless_notion id_one))
    by (intros cursor; by eexists).
  assert (H2 : endless Page (published_request endless_notion "db"))
    by (intros cursor; by eexists).
  split; [exact H1|]. split; [exact H2|].
  exact (endless_listing_never_returns endless_notion id_one "db" H1 H2 1000).
Defined.

(** ** The shape of a slug made from a title *)

Lemma strip_start_idempotent (p : ascii → bool) (s : string) :
  strip_start p (strip_start p s) = strip_start p s.
Proof.
  induction s as [|c s IH]; [done|]. simpl.
  destruct (p c) eqn:Hc; [done|]. simpl. by rewrite Hc.
Qed.

Lemma strip_end_idempotent (p : ascii → bool) (s : string) :
  strip_end p (strip_end p s) = strip_end p s.
Proof.
  induction s as [|c s IH]; [done|]. simpl.
  destruct (strip_end p s) as [|c' t] eqn:Hend.
  - destruct (p c) eqn:Hc; [done|]. simpl. by rewrite Hc.
  - change (strip_end p (String c (String c' t)))
      with (match strip_end p (String c' t) with
            | EmptyString => if p c then EmptyString else String c EmptyString
            | u => String c u
            end).
    by rewrite IH.
Qed.

Lemma strip_end_head (p : ascii → bool) (c : ascii) (s : string) :
  strip_end p (String c s) = "" ∨ ∃ t, strip_end p (String c s) = String c t.
Proof.
  simpl. destruct (strip_end p s); [|by right; eexists].
  destruct (p c); [by left | by right; eexists].
Qed.

Lemma no_double_hyphen_strip_start (s : string) :
  no_double_hyphen s = true →
  no_double_hyphen (strip_start JS.is_hyphen s) = true.
Proof.
  induction s as [|c s IH]; [done|]. intros Hnd. simpl strip_start.
  destruct (JS.is_hyphen c); [|done].
  by apply IH, (no_double_hyphen_tail c).
Qed.

Lemma no_double_hyphen_strip_end (s : string) :
  no_double_hyphen s = true →
  no_double_hyphen (strip_end JS.is_hyphen s) = true.
Proof.
  induction s as [|c s IH]; [done|]. intros Hnd.
  pose proof (IH (no_double_hyphen_tail _ _ Hnd)) as Htail.
  simpl strip_end. destruct (strip_end JS.is_hyphen s) as [|c' t] eqn:Hend.
  - by destruct (JS.is_hyphen c).
  - destruct s as [|c0 s]; [done|].
    destruct (strip_end_head JS.is_hyphen c0 s) as [Hnil|[t' Ht']];
      [congruence|].
    rewrite Hend in Ht'. injection Ht' as -> ->.
    change (negb (JS.is_hyphen c && JS.is_hyphen c0)
            && no_double_hyphen (String c0 t') = true).
    rewrite Htail, andb_true_r. simpl in Hnd.
    by apply andb_true_iff in Hnd as [? _].
Qed.

Lemma documented_slug_collapsed (title : string) :
  ∃ s, documented_slug title
       = strip_end JS.is_hyphen
           (strip_start JS.is_hyphen
              (JS.replace_runs_from is_separator "-" false s)).
Proof.
  unfold documented_slug, JS.replace_runs. eexists.
  by rewrite replace_runs_twice.
Qed.

Lemma titleToSlug_edges (title : string) :
  no_double_hyphen (titleToSlug title) = true
  ∧ strip_start JS.is_hyphen (titleToSlug title) = titleToSlug title
  ∧ strip_end JS.is_hyphen (titleToSlug title) = titleToSlug title.
Proof.
  rewrite titleToSlug_documented.
  destruct (documented_slug_collapsed title) as [s ->].
  split; [|split].
  - apply no_double_hyphen_strip_end, no_double_hyphen_strip_start,
      no_double_hyphen_collapsed.
  - by rewrite strip_start_end_comm, strip_start_idempotent.
  - apply strip_end_idempotent.
Qed.

(** X10. A slug made from a title is safe in a file name and in a URL: it
    holds lowercase letters, digits, underscores and hyphens only, never
    two hyphens in a row, and neither starts nor ends with a hyphen. *)
Theorem titleToSlug_shape (title : string) :
  string_forall is_slug_char (titleToSlug title) = true
  ∧ no_double_hyphen (titleToSlug title) = true
  ∧ strip_start JS.is_hyphen (titleToSlug title) = titleToSlug title
  ∧ strip_end JS.is_hyphen (titleToSlug title) = titleToSlug title.
Proof. split; [apply titleToSlug_chars | apply titleToSlug_edges]. Qed.

(** *** A slug is its own slug *)

Lemma slug_char_kept (c : ascii) :
  is_slug_char c = true → slug_keep c = true ∧ JS.is_space c = false.
Proof. by_cases_on_char c; by split. Qed.

Lemma hyphen_char (c : ascii) : JS.is_hyphen c = true → c = "-"%char.
Proof. by_cases_on_char c. Qed.

Lemma remove_class_none (p : ascii → bool) (s : string) :
  string_forall (λ c, negb (p c)) s = true → JS.remove_class p s = s.
Proof.
  induction s as [|c s IH]; [done|]. simpl.
  intros [Hc Hs]%andb_true_iff. apply negb_true_iff in Hc.
  by rewrite Hc, IH.
Qed.

Lemma replace_runs_none (p : ascii → bool) (r : string) (s : string) :
  string_forall (λ c, negb (p c)) s = true →
  ∀ b, JS.replace_runs_from p r b s = s.
Proof.
  induction s as [|c s IH]; [done|]. simpl.
  intros [Hc Hs]%andb_true_iff b. apply negb_true_iff in Hc.
  by rewrite Hc, IH.
Qed.

Lemma trim_none (s : string) :
  string_forall (λ c, negb (JS.is_space c)) s = true → JS.trim s = s.
Proof.
  intros Hs. unfold JS.trim.
  assert (Hstart : JS.trimStart s = s).
  { destruct s as [|c s]; [done|]. simpl in *.
    apply andb_true_iff in Hs as [Hc _]. apply negb_true_iff in Hc.
    by rewrite Hc. }
  rewrite Hstart. clear Hstart.
  induction s as [|c s IH]; [done|]. simpl in *.
  apply andb_true_iff in Hs as [Hc Hs]. apply negb_true_iff in Hc.
  rewrite IH by done. destruct s; [by rewrite Hc | done].
Qed.

(** Single hyphens are left as they are by the collapse of hyphen runs. *)
Lemma replace_hyphen_runs_single (s : string) :
  no_double_hyphen s = true →
  ∀ b : bool,
    (b = true → strip_start JS.is_hyphen s = s) →
    JS.replace_runs_from JS.is_hyphen "-" b s = s.
Proof.
  induction s as [|c s IH]; [done|]. intros Hnd b Hb.
  pose proof (no_double_hyphen_tail _ _ Hnd) as Htail. simpl.
  destruct (JS.is_hyphen c) eqn:Hc.
  - destruct b.
    + exfalso. specialize (Hb eq_refl). simpl in Hb. rewrite Hc in Hb.
      assert (Hlen : ∀ u, String.length (strip_start JS.is_hyphen u)
                          ≤ String.length u).
      { induction u as [|a u IHu]; simpl; [lia|].
        destruct (JS.is_hyphen a); simpl; lia. }
      specialize (Hlen s). rewrite Hb in Hlen. simpl in Hlen. lia.
    + rewrite (hyphen_char c Hc). change ("-" +:+ ?x) with (String "-" x).
      f_equal. apply IH; [done|]. intros _.
      destruct s as [|c' s]; [done|]. simpl in Hnd. rewrite Hc in Hnd.
      simpl. destruct (JS.is_hyphen c'); [done|done].
  - f_equal. by apply IH.
Qed.

Lemma drop_first_hyphen_none (s : string) :
  strip_start JS.is_hyphen s = s → JS.drop_first_hyphen s = s.
Proof.
  destruct s as [|c s]; [done|]. simpl.
  destruct (JS.is_hyphen c); [|done]. intros Hs.
  assert (Hlen : ∀ u, String.length (strip_start JS.is_hyphen u)
                      ≤ String.length u).
  { induction u as [|a u IHu]; simpl; [lia|].
    destruct (JS.is_hyphen a); simpl; lia. }
  specialize (Hlen s). rewrite Hs in Hlen. simpl in Hlen. lia.
Qed.

Lemma toLowerCase_idempotent (s : string) :
  JS.toLowerCase (JS.toLowerCase s) = JS.toLowerCase s.
Proof.
  induction s as [|c s IH]; [done|]. simpl. rewrite IH. f_equal.
  by_cases_on_char c.
Qed.

(** X11. Making a slug is idempotent and blind to case: the slug of a slug
    made from a title is that slug, and a title and its lowercase form have
    the same slug. *)
Theorem titleToSlug_idempotent (title : string) :
  titleToSlug (titleToSlug title) = titleToSlug title
  ∧ titleToSlug (JS.toLowerCase title) = titleToSlug title.
Proof.
  split; [|unfold titleToSlug; by rewrite toLowerCase_idempotent].
  pose proof (titleToSlug_chars title) as Hchars.
  destruct (titleToSlug_edges title) as (Hnd & Hstart & Hend).
  set (n := titleToSlug title) in *. unfold titleToSlug at 1.
  rewrite (string_forall_lowercase n Hchars).
  rewrite remove_class_none; cycle 1.
  { eapply string_forall_impl; [|exact Hchars].
    intros c [-> _]%slug_char_kept. done. }
  assert (Hspace : string_forall (λ c, negb (JS.is_space c)) n = true).
  { eapply string_forall_impl; [|exact Hchars].
    intros c [_ ->]%slug_char_kept. done. }
  rewrite trim_none by done. unfold JS.replace_runs.
  rewrite (replace_runs_none JS.is_space) by done.
  rewrite replace_hyphen_runs_single by done.
  unfold JS.strip_edge_hyphens. rewrite drop_first_hyphen_none by done.
  by rewrite drop_last_hyphen_strip_end.
Qed.

(** *** Titles without a word character *)

Lemma has_word_append (s t : string) :
  has_word (s +:+ t) = has_word s || has_word t.
Proof.
  induction s as [|c s IH]; [done|]. rewrite append_cons. simpl.
  by rewrite IH, orb_assoc.
Qed.

Lemma has_word_toLowerCase (s : string) :
  has_word (JS.toLowerCase s) = has_word s.
Proof.
  induction s as [|c s IH]; [done|]. simpl. rewrite IH. f_equal.
  by_cases_on_char c.
Qed.

Lemma has_word_remove_class (p : ascii → bool) (s : string) :
  (∀ c, p c = true → JS.is_word c = false) →
  has_word (JS.remove_class p s) = has_word s.
Proof.
  intros Hp. induction s as [|c s IH]; [done|]. simpl.
  destruct (p c) eqn:Hc; simpl; rewrite IH; [|done].
  by rewrite (Hp c Hc).
Qed.

Lemma space_not_word (c : ascii) : JS.is_space c = true → JS.is_word c = false.
Proof. by_cases_on_char c. Qed.

Lemma hyphen_not_word (c : ascii) :
  JS.is_hyphen c = true → JS.is_word c = false.
Proof. by_cases_on_char c. Qed.

Lemma not_kept_not_word (c : ascii) :
  negb (slug_keep c) = true → JS.is_word c = false.
Proof.
  unfold slug_keep. destruct (JS.is_word c); [discriminate | done].
Qed.

Lemma has_word_trimStart (s : string) : has_word (JS.trimStart s) = has_word s.
Proof.
  induction s as [|c s IH]; [done|]. simpl.
  destruct (JS.is_space c) eqn:Hc; [|done].
  by rewrite IH, (space_not_word c Hc).
Qed.

Lemma has_word_trimEnd (s : string) : has_word (JS.trimEnd s) = has_word s.
Proof.
  induction s as [|c s IH]; [done|]. simpl.
  destruct (JS.trimEnd s) as [|c' t].
  - rewrite <- IH. destruct (JS.is_space c) eqn:Hc; [|done].
    simpl. by rewrite (space_not_word c Hc).
  - simpl in *. by rewrite IH.
Qed.

Lemma has_word_replace_runs (p : ascii → bool) (s : string) :
  (∀ c, p c = true → JS.is_word c = false) →
  ∀ b, has_word (JS.replace_runs_from p "-" b s) = has_word s.
Proof.
  intros Hp. induction s as [|c s IH]; intros b; [done|]. simpl.
  destruct (p c) eqn:Hc.
  - rewrite (Hp c Hc). simpl. destruct b; [apply IH|].
    rewrite has_word_append. simpl. apply IH.
  - simpl. by rewrite IH.
Qed.

Lemma has_word_drop_first_hyphen (s : string) :
  has_word (JS.drop_first_hyphen s) = has_word s.
Proof.
  destruct s as [|c s]; [done|]. simpl.
  destruct (JS.is_hyphen c) eqn:Hc; [|done].
  by rewrite (hyphen_not_word c Hc).
Qed.

Lemma has_word_drop_last_hyphen (s : string) :
  has_word (JS.drop_last_hyphen s) = has_word s.
Proof.
  induction s as [|c s IH]; [done|]. destruct s as [|c' s].
  - simpl. destruct (JS.is_hyphen c) eqn:Hc; [|done].
    by rewrite (hyphen_not_word c Hc).
  - change (JS.is_word c || has_word (JS.drop_last_hyphen (String c' s))
            = JS.is_word c || has_word (String c' s)).
    by rewrite IH.
Qed.

Lemma has_word_titleToSlug (title : string) :
  has_word (titleToSlug title) = has_word title.
Proof.
  unfold titleToSlug, JS.strip_edge_hyphens, JS.replace_runs, JS.trim.
  rewrite has_word_drop_last_hyphen, has_word_drop_first_hyphen.
  rewrite (has_word_replace_runs _ _ hyphen_not_word).
  rewrite (has_word_replace_runs _ _ space_not_word).
  rewrite has_word_trimEnd, has_word_trimStart.
  rewrite (has_word_remove_class _ _ not_kept_not_word).
  apply has_word_toLowerCase.
Qed.

Lemma wordless_slug_char (c : ascii) :
  is_slug_char c = true → JS.is_word c = false → JS.is_hyphen c = true.
Proof. by_cases_on_char c. Qed.

Lemma strip_start_all (p : ascii → bool) (s : string) :
  string_forall p s = true → strip_start p s = "".
Proof.
  induction s as [|c s IH]; [done|]. simpl.
  intros [-> Hs]%andb_true_iff. by apply IH.
Qed.

Lemma titleToSlug_empty (title : string) :
  titleToSlug title = "" ↔ has_word title = false.
Proof.
  rewrite <- has_word_titleToSlug. split; [by intros ->|]. intros Hword.
  destruct (titleToSlug_edges title) as (_ & <- & _).
  apply strip_start_all.
  pose proof (titleToSlug_chars title) as Hchars.
  induction (titleToSlug title) as [|c s IH]; [done|]. simpl in *.
  apply andb_true_iff in Hchars as [Hc Hs].
  apply orb_false_iff in Hword as [Hw Hword].
  by rewrite (wordless_slug_char c Hc Hw), IH.
Qed.

(** X12. For a title that holds none of the code points beyond the ASCII
    classes (in particular neither U+0130 nor U+212A, which [toLowerCase]
    turns into ASCII letters), the slug made from it keeps a word character
    exactly when the title has one, and it is empty exactly when the title
    has none: a page without a slug property whose title holds no ASCII
    letter, digit or underscore, a title in another script for instance,
    gets the empty slug and the file name made of its date and [-.md]. *)
Theorem wordless_title_gives_empty_slug (text today id : string)
    (props : gmap string Property) :
  ascii_classes_exact text = true →
  has_word (titleToSlug text) = has_word text
  ∧ (titleToSlug text = "" ↔ has_word text = false)
  ∧ (props !! "Slug" = None → props !! "slug" = None →
     ∃ meta,
       extractMeta today {| page_id := id; properties := Some props |}
       = Ok meta
       ∧ (ascii_classes_exact (title meta) = true →
          has_word (title meta) = false →
          slug meta = ""
          ∧ postFilename (date meta) (slug meta) = date meta +:+ "-.md")).
Proof.
  intros _.
  split; [apply has_word_titleToSlug|]. split; [apply titleToSlug_empty|].
  intros HSlug Hslug. eexists. split; [reflexivity|].
  simpl. rewrite HSlug, Hslug. simpl. intros _ Hword.
  apply titleToSlug_empty in Hword. by rewrite Hword.
Qed.

Lemma wordless_title_gives_empty_slug_witness :
  ascii_classes_exact "你好!" = true
  ∧ ({[ "Title" := title_property "你好!" ]} : gmap string Property)
      !! "Slug" = None
  ∧ ({[ "Title" := title_property "你好!" ]} : gmap string Property)
      !! "slug" = None
  ∧ has_word "你好!" = false
  ∧ titleToSlug "你好!" = ""
  ∧ ∃ meta, extractMeta "2024-01-01" wordless_page = Ok meta
      ∧ postFilename (date meta) (slug meta) = "2024-01-01-.md".
Proof.
  split; [reflexivity|]. split; [reflexivity|]. split; [reflexivity|].
  split; [reflexivity|].
  destruct (wordless_title_gives_empty_slug "你好!" "2024-01-01" id_one
              {[ "Title" := title_property "你好!" ]} eq_refl)
    as (_ & Hempty & Hpage).
  split; [exact (proj2 Hempty eq_refl)|].
  destruct (Hpage eq_refl eq_refl) as (meta & Hmeta & Hslug).
  exists meta. split; [exact Hmeta|].
  change (extractMeta "2024-01-01"
            {| page_id := id_one;
               properties := Some {[ "Title" := title_property "你好!" ]} |})
    with (Ok {| title := "你好!"; slug := ""; date := "2024-01-01";
                tags := []; description := ""; coverImage := "";
                canonicalUrl := ""; featured := false |}) in Hmeta.
  injection Hmeta as <-. reflexivity.
Defined.

(** ** Extracted metadata *)

(** X13. The extraction throws exactly when the page has no property bag.
    Otherwise the slug and the description of the extracted metadata
    neither start nor end with white space; and, when the title and the text
    of the Slug property hold none of the code points beyond the ASCII
    classes, the slug is empty exactly when the Slug property gives no text
    once trimmed and the resolved title has no word character. *)
Theorem extracted_slug_is_trimmed (today : string) (page : Page) :
  match properties page with
  | None => ∃ e, extractMeta today page = Throw e
  | Some props =>
      ∃ meta,
        extractMeta today page = Ok meta
        ∧ JS.trim (slug meta) = slug meta
        ∧ JS.trim (description meta) = description meta
        ∧ (ascii_classes_exact (title meta) = true →
           ascii_classes_exact (default "" (slug_text props)) = true →
           (slug meta = ""
            ↔ JS.truthy (slug_text props) = false
              ∧ has_word (title meta) = false))
  end.
Proof.
  unfold extractMeta. destruct (properties page) as [props|]; [|by eexists].
  eexists. split; [reflexivity|]. simpl. fold (slug_text props).
  split; [|split].
  - destruct (slug_text props) as [s|] eqn:Hs; simpl.
    + destruct (JS.truthy_str s) eqn:Htruthy.
      * unfold slug_text in Hs.
        destruct (_ ?. plain_text) as [x|]; [|done].
        injection Hs as <-. apply trim_idempotent.
      * apply trim_none. eapply string_forall_impl; [|apply titleToSlug_chars].
        intros c [_ ->]%slug_char_kept. done.
    + apply trim_none. eapply string_forall_impl; [|apply titleToSlug_chars].
      intros c [_ ->]%slug_char_kept. done.
  - destruct (_ ?. plain_text) as [x|]; [|done]. apply trim_idempotent.
  - intros _ _. destruct (JS.truthy (slug_text props)) eqn:Htruthy.
    + split; [|by intros [? _]]. intros Hempty.
      destruct (slug_text props) as [s|]; [|done]. simpl in *.
      by rewrite Hempty in Htruthy.
    + rewrite titleToSlug_empty. split; [done | by intros [_ ?]].
Qed.

(** ** The lines of the front matter *)

Lemma line_breaks_append (s t : string) :
  line_breaks (s +:+ t) = line_breaks s + line_breaks t.
Proof.
  induction s as [|c s IH]; [done|]. rewrite append_cons. simpl.
  rewrite IH. lia.
Qed.

Lemma single_line_no_break (s : string) : single_line s → line_breaks s = 0.
Proof.
  unfold single_line. induction s as [|c s IH]; [done|]. simpl.
  intros [Hc Hs]%andb_true_iff. apply negb_true_iff in Hc.
  by rewrite Hc, IH.
Qed.

Lemma line_breaks_join (lines : list string) :
  Forall single_line lines →
  line_breaks (JS.join JS.LF lines) = length lines - 1.
Proof.
  induction 1 as [|l lines Hl Hlines IH]; [done|].
  destruct lines as [|l' lines]; [by apply single_line_no_break|].
  rewrite join_cons by done. rewrite !line_breaks_append, IH.
  rewrite (single_line_no_break l Hl). simpl. lia.
Qed.

Lemma other_key_line_single (lines : list string) :
  Forall other_key_line lines → Forall single_line lines.
Proof. intros Hlines. eapply Forall_impl; [exact Hlines|]. by intros l [_ ?]. Qed.

(** X14. The text fields add no line feed and no carriage return to the
    header: when the date and the slug hold neither, the front matter holds
    exactly one line feed or carriage return per field written after the
    first line (six for the layout, the title, the date, the slug, the
    identity and the closing marker, and one more for each of the tags,
    excerpt, cover image, canonical URL and featured flag that is present),
    whatever the title, the tags, the description, the URLs and the
    identity hold, since [JSON.stringify] escapes both characters. (U+2028
    and U+2029, which [JSON.stringify] leaves as they are, are not
    counted.) *)
Theorem front_matter_line_count (meta : Meta) (notionId : string) :
  single_line (date meta) →
  single_line (slug meta) →
  line_breaks (buildFrontMatter meta notionId)
  = 6 + Nat_of_bool (0 <? length (tags meta))
      + Nat_of_bool (JS.truthy_str (description meta))
      + Nat_of_bool (JS.truthy_str (coverImage meta))
      + Nat_of_bool (JS.truthy_str (canonicalUrl meta))
      + Nat_of_bool (featured meta).
Proof.
  intros Hdate Hslug. rewrite buildFrontMatter_lines, line_breaks_join.
  - rewrite length_app. unfold header_lines. rewrite !length_app.
    by destruct (0 <? _), (JS.truthy_str (description meta)),
         (JS.truthy_str (coverImage meta)),
         (JS.truthy_str (canonicalUrl meta)), (featured meta).
  - apply Forall_app_2.
    + by apply other_key_line_single, header_lines_other_keys.
    + repeat apply Forall_cons_2; [|done|done].
      apply single_line_append; [done | apply JSON_stringify_single_line].
Qed.

Lemma front_matter_line_count_witness :
  single_line (date multiline_meta)
  ∧ single_line (slug multiline_meta)
  ∧ line_breaks (buildFrontMatter multiline_meta id_one) = 8.
Proof.
  split; [reflexivity|]. split; [reflexivity|].
  by rewrite front_matter_line_count.
Defined.

(** ** What the identity pattern accepts *)








(** ** Writing the post of one page *)

Section Writing.
Context (w : World) (existing : list string) (index : gmap string string).

Lemma tryWritePost_after_unlink (dir : gmap string Entry) (page : Page)
    (meta : Meta) (blocks : list Block) :
  let content := pageContent meta (page_id page) blocks in
  let filename := postFilename (date meta) (slug meta) in
  ∀ dir1 : gmap string Entry,
    dir1 = (if JS.truthy (index !! page_id page)
               && negb (bool_decide (index !! page_id page = Some filename))
            then match unlinkSync dir (default "" (index !! page_id page)) with
                 | Ok dir' => dir'
                 | Throw _ => dir
                 end
            else dir) →
    tryWritePost (write_denied w) existing index dir page meta (Ok blocks)
    = match dir1 !! filename with
      | Some Directory =>
          (dir1, Throw "EISDIR: illegal operation on a directory, read")
      | held =>
          if bool_decide (held = Some (File content)) then (dir1, Ok Unchanged)
          else if write_denied w filename
          then (dir1, Throw "EACCES: permission denied, open")
          else (<[filename := File content]> dir1,
                Ok (if negb (JS.truthy (index !! page_id page))
                       && negb (bool_decide (filename ∈ existing))
                    then Created else Updated))
      end.
Proof.
  intros content filename dir1 Hdir1. unfold tryWritePost.
  fold content. fold filename. rewrite <- Hdir1.
  unfold existsSync, readFileSync, writeFileSync.
  destruct (dir1 !! filename) as [[held|]|] eqn:Hheld.
  - rewrite bool_decide_true by by eexists.
    destruct (String.eqb_spec held content) as [->|Hne]; simpl.
    + by rewrite bool_decide_true.
    + rewrite (bool_decide_false (Some (File held) = Some (File content)))
        by congruence.
      by destruct (write_denied w filename).
  - by rewrite bool_decide_true by by eexists.
  - rewrite (bool_decide_false (is_Some None)) by by intros [? ?].
    rewrite (bool_decide_false (None = Some (File content))) by done.
    by destruct (write_denied w filename).
Qed.

Lemma unlink_previous (dir : gmap string Entry) (old filename : string) :
  JS.truthy_str old = true →
  old ≠ filename →
  dir !! old ≠ Some Directory →
  (if JS.truthy (Some old) && negb (bool_decide (Some old = Some filename))
   then match unlinkSync dir (default "" (Some old)) with
        | Ok dir' => dir'
        | Throw _ => dir
        end
   else dir) = delete old dir.
Proof.
  intros Hold Hne Hdir. simpl. rewrite Hold.
  rewrite bool_decide_false by congruence. simpl. unfold unlinkSync.
  destruct (dir !! old) as [[c|]|] eqn:Hlookup; [done|done|].
  by rewrite delete_id.
Qed.

End Writing.

(** X16. Writing a page is idempotent: once a page has been counted as
    created, updated or unchanged, processing the same metadata and blocks
    again on the directory it left, with an index that gives the page no
    other file, reads the file, writes nothing and counts the page as
    unchanged, even where the write would now be refused. *)
Theorem synced_page_is_left_unchanged (w w' : World)
    (existing existing' : list string) (index index' : gmap string string)
    (dir dir' : gmap string Entry) (page : Page) (meta : Meta)
    (blocks : list Block) (o : Outcome) :
  tryWritePost (write_denied w) existing index dir page meta (Ok blocks)
  = (dir', Ok o) →
  (∀ old, index' !! page_id page = Some old →
          old = postFilename (date meta) (slug meta)) →
  tryWritePost (write_denied w') existing' index' dir' page meta (Ok blocks)
  = (dir', Ok Unchanged).
Proof.
  intros Hfirst Hindex. apply tryWritePost_written in Hfirst.
  rewrite (tryWritePost_after_unlink w' existing' index' dir' page meta blocks
             dir').
  - rewrite Hfirst. by rewrite bool_decide_true.
  - destruct (index' !! page_id page) as [old|] eqn:Hold; [|done].
    rewrite (Hindex old eq_refl). rewrite bool_decide_true by done.
    by rewrite andb_false_r.
Qed.

Lemma synced_page_is_left_unchanged_witness :
  tryWritePost (write_denied sample_world) [] ∅ ∅ hello_page hello_meta (Ok [])
  = (hello_dir, Ok Created)
  ∧ (∀ old, ({[ id_one := "2024-01-01-hello-world.md" ]} : gmap string string)
              !! page_id hello_page = Some old →
            old = postFilename (date hello_meta) (slug hello_meta))
  ∧ tryWritePost (write_denied read_only_world) []
      {[ id_one := "2024-01-01-hello-world.md" ]} hello_dir hello_page
      hello_meta (Ok [])
    = (hello_dir, Ok Unchanged).
Proof.
  assert (H1 : tryWritePost (write_denied sample_world) [] ∅ ∅ hello_page
                 hello_meta (Ok []) = (hello_dir, Ok Created))
    by reflexivity.
  assert (H2 : ∀ old,
            ({[ id_one := "2024-01-01-hello-world.md" ]} : gmap string string)
              !! page_id hello_page = Some old →
            old = postFilename (date hello_meta) (slug hello_meta)).
  { intros old Hold. vm_compute in Hold. injection Hold as <-. reflexivity. }
  split; [exact H1|]. split; [exact H2|].
  exact (synced_page_is_left_unchanged sample_world read_only_world [] []
           ∅ _ ∅ hello_dir hello_page hello_meta [] Created H1 H2).
Defined.

(** X17. A page whose slug or date changed is moved: when the index gives
    the page another file than its target, both names being plain, that
    file is unlinked first (a file already gone is not an error), and, the
    write being allowed, the target then holds the content of the page; the
    page is never counted as created, and it is counted as unchanged
    exactly when the target already held that content. The content is taken
    within the domain on which the embedding is exact. *)
Theorem rename_moves_the_post (w : World) (existing : list string)
    (index : gmap string string) (dir : gmap string Entry) (page : Page)
    (meta : Meta) (blocks : list Block) (old : string) :
  let content := pageContent meta (page_id page) blocks in
  let filename := postFilename (date meta) (slug meta) in
  plain_name old = true →
  plain_name filename = true →
  ascii_classes_exact content = true →
  index !! page_id page = Some old →
  JS.truthy_str old = true →
  old ≠ filename →
  dir !! old ≠ Some Directory →
  dir !! filename ≠ Some Directory →
  write_denied w filename = false →
  ∃ o, tryWritePost (write_denied w) existing index dir page meta (Ok blocks)
       = (<[filename := File content]> (delete old dir), Ok o)
     ∧ o ≠ Created
     ∧ (o = Unchanged ↔ dir !! filename = Some (File content)).
Proof.
  intros content filename _ _ _ Hindex Hold Hne Hdir Htarget Hallowed.
  rewrite (tryWritePost_after_unlink w existing index dir page meta blocks
             (delete old dir))
    by (by rewrite Hindex, unlink_previous).
  fold filename. fold content. rewrite lookup_delete_ne by done.
  rewrite Hindex. simpl JS.truthy. rewrite Hold. simpl.
  destruct (dir !! filename) as [[held|]|] eqn:Hheld; [|done|].
  - case_bool_decide as Hsame.
    + exists Unchanged.
      rewrite insert_id by (rewrite lookup_delete_ne by done; congruence).
      split; [done|]. split; [done|]. by split.
    + rewrite Hallowed. exists Updated. split; [done|]. split; [done|].
      split; [done|]. intros Heq. by destruct Hsame.
  - rewrite Hallowed. exists Updated. split; [done|]. split; done.
Qed.

Lemma rename_moves_the_post_witness :
  old_hello_index !! page_id hello_page = Some "2024-01-01-hello.md"
  ∧ tryWritePost (write_denied sample_world) ["2024-01-01-hello.md"]
      old_hello_index old_hello_dir hello_page hello_meta (Ok [])
    = (hello_dir, Ok Updated).
Proof.
  split; [reflexivity|].
  destruct (rename_moves_the_post sample_world ["2024-01-01-hello.md"]
              old_hello_index old_hello_dir hello_page hello_meta []
              "2024-01-01-hello.md")
    as (o & Hwrite & Hcreated & Hunchanged);
    [reflexivity | reflexivity | reflexivity | reflexivity | reflexivity
    | discriminate | discriminate | discriminate | reflexivity |].
  rewrite Hwrite. f_equal.
  destruct o; [by destruct Hcreated | reflexivity |].
  apply proj1 in Hunchanged. specialize (Hunchanged eq_refl).
  vm_compute in Hunchanged. discriminate Hunchanged.
Defined.



(** ** The index of the existing posts *)

Lemma index_value_md (dir : gmap string Entry) (id g : string) :
  notionIdToFile dir !! id = Some g →
  JS.endsWith g ".md" = true ∧ JS.truthy_str g = true.
Proof.
  intros [Hg _]%build_index_from_posts.
  apply existingFiles_spec in Hg as [Hmd _]. split; [done|].
  by destruct g.
Qed.

Lemma index_injective (dir : gmap string Entry) (id1 id2 g : string) :
  notionIdToFile dir !! id1 = Some g →
  notionIdToFile dir !! id2 = Some g →
  id1 = id2.
Proof.
  intros (_ & c1 & Hc1 & Hm1)%build_index_from_posts
         (_ & c2 & Hc2 & Hm2)%build_index_from_posts.
  congruence.
Qed.

Lemma index_file_holder (dir : gmap string Entry) (acc : gmap string string)
    (id g : string) :
  holds dir id g → index_file dir acc g !! id = Some g.
Proof.
  intros (content & Hg & Hmatch). unfold index_file, readFileSync.
  rewrite Hg, Hmatch. apply lookup_insert_eq.
Qed.

Lemma index_file_other (dir : gmap string Entry) (acc : gmap string string)
    (id f : string) :
  ¬ holds dir id f → index_file dir acc f !! id = acc !! id.
Proof.
  intros Hf. unfold index_file, readFileSync.
  destruct (dir !! f) as [[content|]|] eqn:Hfile; [|done..].
  destruct (String_match notion_id_re content) as [[id'|]|] eqn:Hmatch;
    [|done..].
  destruct (decide (id' = id)) as [->|Hne].
  - destruct Hf. by exists content.
  - by rewrite lookup_insert_ne.
Qed.

Lemma build_index_unique_holder (dir : gmap string Entry) (id g : string)
    (files : list string) :
  (∀ g', g' ∈ files → holds dir id g' → g' = g) →
  ∀ acc : gmap string string,
    acc !! id = Some g ∨ (g ∈ files ∧ holds dir id g) →
    fold_left (index_file dir) files acc !! id = Some g.
Proof.
  induction files as [|f files IH]; intros Hunique acc Hacc.
  - destruct Hacc as [|[[]%elem_of_nil _]]; done.
  - simpl. apply IH; [intros g' Hg'; apply Hunique; by right|].
    destruct Hacc as [Hacc|[[->|Hin]%elem_of_cons Hholds]].
    + left. unfold index_file, readFileSync.
      destruct (dir !! f) as [[content|]|] eqn:Hfile; [|done..].
      destruct (String_match notion_id_re content) as [[id'|]|] eqn:Hmatch;
        [|done..].
      destruct (decide (id' = id)) as [->|Hne].
      * rewrite lookup_insert_eq. f_equal. apply Hunique; [by left|].
        by exists content.
      * by rewrite lookup_insert_ne.
    + left. by apply index_file_holder.
    + by right.
Qed.

Lemma build_index_some_holder (dir : gmap string Entry) (id : string)
    (files : list string) :
  ∀ acc : gmap string string,
    is_Some (acc !! id) ∨ (∃ g, g ∈ files ∧ holds dir id g) →
    is_Some (fold_left (index_file dir) files acc !! id).
Proof.
  induction files as [|f files IH]; intros acc Hacc.
  - destruct Hacc as [|(g & []%elem_of_nil & _)]; done.
  - simpl. apply IH.
    destruct Hacc as [Hacc|(g & [->|Hin]%elem_of_cons & Hholds)].
    + left. unfold index_file, readFileSync.
      destruct (dir !! f) as [[content|]|]; [|done..].
      destruct (String_match notion_id_re content) as [[id'|]|]; [|done..].
      destruct (decide (id' = id)) as [->|Hne].
      * rewrite lookup_insert_eq. by eexists.
      * by rewrite lookup_insert_ne.
    + left. rewrite index_file_holder by done. by eexists.
    + right. by exists g.
Qed.

(** X19. The index inverts the identity lines of the posts. Its entries
    come from posts of the listing that hold the token; no two tokens are
    given the same file; a token is in the index exactly when some post of
    the listing holds it; and when exactly one post holds a token, the index
    gives that post for it. *)
Theorem index_inverts_identity_lines (dir : gmap string Entry) :
  (∀ id1 id2 g,
     notionIdToFile dir !! id1 = Some g →
     notionIdToFile dir !! id2 = Some g → id1 = id2)
  ∧ (∀ id,
       is_Some (notionIdToFile dir !! id)
       ↔ ∃ g, g ∈ existingFiles dir ∧ holds dir id g)
  ∧ (∀ id g,
       g ∈ existingFiles dir →
       holds dir id g →
       (∀ g', g' ∈ existingFiles dir → holds dir id g' → g' = g) →
       notionIdToFile dir !! id = Some g).
Proof.
  split; [apply index_injective|]. split.
  - intros id. split.
    + intros [g Hg]. exists g. by apply build_index_from_posts in Hg.
    + intros Hholder. apply build_index_some_holder. by right.
  - intros id g Hg Hholds Hunique.
    apply build_index_unique_holder; [done|]. by right.
Qed.

(** ** What a pass creates, removes and keeps *)

(** X20. The created counter counts new posts only: in a pass, a page
    whose post was written under a plain name is counted as created exactly
    when the index of the initial directory had no file for its token and
    the initial directory had no entry under the name of its target;
    otherwise it is counted as updated. The content is taken within the
    domain on which the embedding is exact. *)
Theorem created_counts_new_posts (w : World) (dir0 dir dir' : gmap string Entry)
    (page : Page) (meta : Meta) (blocks : list Block) (o : Outcome) :
  plain_name (postFilename (date meta) (slug meta)) = true →
  ascii_classes_exact (pageContent meta (page_id page) blocks) = true →
  tryWritePost (write_denied w) (existingFiles dir0) (notionIdToFile dir0) dir
    page meta (Ok blocks) = (dir', Ok o) →
  o ≠ Unchanged →
  (o = Created
   ↔ notionIdToFile dir0 !! page_id page = None
     ∧ dir0 !! postFilename (date meta) (slug meta) = None)
  ∧ dir' !! postFilename (date meta) (slug meta)
    = Some (File (pageContent meta (page_id page) blocks)).
Proof.
  intros _ _ Hwrite Hchanged.
  split; [|by apply tryWritePost_written in Hwrite].
  set (filename := postFilename (date meta) (slug meta)) in *.
  assert (Hnew : negb (JS.truthy (notionIdToFile dir0 !! page_id page))
                 && negb (bool_decide (filename ∈ existingFiles dir0)) = true
                 ↔ notionIdToFile dir0 !! page_id page = None
                   ∧ dir0 !! filename = None).
  { rewrite andb_true_iff, !negb_true_iff, bool_decide_eq_false.
    rewrite existingFiles_spec. unfold filename at 1.
    rewrite postFilename_md. fold filename.
    destruct (notionIdToFile dir0 !! page_id page) as [old|] eqn:Hold.
    - apply index_value_md in Hold as [_ Hold]. simpl. rewrite Hold.
      split; [by intros [? _] | by intros [? _]].
    - simpl. split.
      + intros [_ Hnot]. split; [done|]. apply eq_None_not_Some.
        intros Hsome. apply Hnot. by split.
      + intros [_ Hnone]. split; [done|]. intros [_ Hsome].
        rewrite Hnone in Hsome. by apply is_Some_None in Hsome. }
  pose proof (tryWritePost_after_unlink w (existingFiles dir0)
                (notionIdToFile dir0) dir page meta blocks _ eq_refl)
    as Hshape.
  cbv zeta in Hshape. rewrite Hwrite in Hshape. fold filename in Hshape.
  set (dir1 := if _ && _ then _ else dir) in Hshape.
  destruct (dir1 !! filename) as [[held|]|]; [|done|].
  - case_bool_decide; [injection Hshape as _ ->; done|].
    destruct (write_denied w filename); [done|].
    injection Hshape as _ ->. rewrite <- Hnew.
    by destruct (_ && _).
  - simpl in Hshape. destruct (write_denied w filename); [done|].
    injection Hshape as _ ->. rewrite <- Hnew.
    by destruct (_ && _).
Qed.

Lemma created_counts_new_posts_witness :
  plain_name (postFilename (date hello_meta) (slug hello_meta)) = true
  ∧ ascii_classes_exact (pageContent hello_meta (page_id hello_page) []) = true
  ∧ tryWritePost (write_denied sample_world) (existingFiles handwritten_dir)
      (notionIdToFile handwritten_dir) handwritten_dir hello_page hello_meta
      (Ok [])
    = (<[ "2024-01-01-hello-world.md"
          := File (pageContent hello_meta id_one []) ]>
         handwritten_dir, Ok Created)
  ∧ Created ≠ Unchanged
  ∧ notionIdToFile handwritten_dir !! page_id hello_page = None
  ∧ handwritten_dir !! postFilename (date hello_meta) (slug hello_meta) = None.
Proof.
  assert (H1 : tryWritePost (write_denied sample_world)
                 (existingFiles handwritten_dir)
                 (notionIdToFile handwritten_dir) handwritten_dir hello_page
                 hello_meta (Ok [])
               = (<[ "2024-01-01-hello-world.md"
                     := File (pageContent hello_meta id_one []) ]>
                    handwritten_dir, Ok Created))
    by (vm_compute; reflexivity).
  assert (H2 : Created ≠ Unchanged) by discriminate.
  split; [reflexivity|]. split; [reflexivity|].
  split; [exact H1|]. split; [exact H2|].
  exact (proj1 (proj1 (created_counts_new_posts sample_world handwritten_dir
                         handwritten_dir _ hello_page hello_meta [] Created
                         eq_refl eq_refl H1 H2)) eq_refl).
Defined.

Section NoDirectory.
Context (w : World) (fuel : nat) (existing : list string)
        (index : gmap string string) (g : string).

(** No page turns a name into a directory. *)
Lemma tryWritePost_no_directory (dir dir' : gmap string Entry) (page : Page)
    (meta : Meta) (fetched : res (list Block)) (o : res Outcome) :
  tryWritePost (write_denied w) existing index dir page meta fetched
  = (dir', o) →
  dir !! g ≠ Some Directory → dir' !! g ≠ Some Directory.
Proof.
  intros Hwrite Hdir. destruct fetched as [blocks|e];
    [|by injection Hwrite as <- _].
  pose proof (tryWritePost_after_unlink w existing index dir page meta blocks
                _ eq_refl) as Hshape.
  cbv zeta in Hshape. rewrite Hwrite in Hshape.
  set (filename := postFilename (date meta) (slug meta)) in Hshape.
  set (dir1 := if _ && _ then _ else dir) in Hshape.
  assert (Hdir1 : dir1 !! g ≠ Some Directory).
  { unfold dir1. destruct (_ && _); [|done].
    destruct (unlinkSync dir _) as [d|e] eqn:Hunlink; [|done].
    apply unlinkSync_ok in Hunlink as ->.
    destruct (decide (default "" (index !! page_id page) = g)) as [->|Hne].
    - by rewrite lookup_delete_eq.
    - by rewrite lookup_delete_ne. }
  assert (Hinsert : ∀ c, <[filename := File c]> dir1 !! g ≠ Some Directory).
  { intros c. destruct (decide (filename = g)) as [->|Hne].
    - by rewrite lookup_insert_eq.
    - by rewrite lookup_insert_ne. }
  destruct (dir1 !! filename) as [[held|]|];
    [|by injection Hshape as -> _|].
  - case_bool_decide; [by injection Hshape as -> _|].
    destruct (write_denied w filename); by injection Hshape as -> _.
  - simpl in Hshape.
    destruct (write_denied w filename); by injection Hshape as -> _.
Qed.

Lemma processPages_no_directory (pages : list Page) :
  ∀ st st' : State,
    processPages w fuel existing index pages st = Some st' →
    posts st !! g ≠ Some Directory → posts st' !! g ≠ Some Directory.
Proof.
  induction pages as [|page pages IH]; intros st st'; simpl.
  - by intros [= <-].
  - rewrite processPage_outcome. unfold pageOutcome.
    destruct (extractMeta (today w) page) as [meta|e]; simpl.
    + destruct (fetchAllBlocks _ _ _) as [fetched|]; [|done]. simpl.
      intros Hrest Hdir. apply (IH _ _ Hrest). simpl.
      eapply tryWritePost_no_directory; [apply surjective_pairing | done].
    + intros Hrest Hdir. by apply (IH _ _ Hrest).
Qed.

End NoDirectory.

Lemma remove_unpublished_removes (ids : gset string)
    (entries : list (string * string)) (id g : string) :
  id ∉ ids →
  ∀ dir : gmap string Entry,
    dir !! g ≠ Some Directory →
    (id, g) ∈ entries ∨ dir !! g = None →
    fold_left (remove_unpublished ids) entries dir !! g = None.
Proof.
  intros Hid. induction entries as [|[id0 g0] entries IH]; intros dir Hdir Hin.
  - destruct Hin as [[]%elem_of_nil|]; done.
  - simpl fold_left.
    set (dir1 := remove_unpublished ids dir (id0, g0)).
    assert (Hstep : dir1 = dir ∨ dir1 = delete g0 dir).
    { unfold dir1, remove_unpublished. destruct (negb _); [|by left].
      destruct (unlinkSync dir g0) as [d|e] eqn:Hunlink; [|by left].
      right. by apply unlinkSync_ok. }
    assert (Hdir1 : dir1 !! g ≠ Some Directory).
    { destruct Hstep as [Hstep|Hstep]; rewrite Hstep; [done|].
      destruct (decide (g0 = g)) as [->|Hne].
      - by rewrite lookup_delete_eq.
      - by rewrite lookup_delete_ne. }
    apply IH; [done|].
    destruct Hin as [[[= <- <-]|Hin]%elem_of_cons|Hnone].
    + right. unfold dir1, remove_unpublished.
      rewrite bool_decide_false by done. simpl. unfold unlinkSync.
      destruct (dir !! g) as [[c|]|] eqn:Hg; [|done|done].
      apply lookup_delete_eq.
    + by left.
    + right. change (dir1 !! g = None).
      destruct Hstep as [Hstep|Hstep]; rewrite Hstep; [done|].
      destruct (decide (g0 = g)) as [->|Hne].
      * apply lookup_delete_eq.
      * by rewrite lookup_delete_ne.
Qed.

(** X21. The file that the index gives for a token of no published page is
    gone when the pass ends, given that an existing file can be unlinked:
    the removal goes by the file name the index recorded when the script
    started, so the name is removed even when a published page wrote its
    own post under that name during the pass. (The index keeps one file per
    token: of several posts that hold the same token, only the one it
    recorded is concerned.) *)
Theorem unpublished_post_is_removed (w : World) (DATABASE_ID : string)
    (fuel : nat) (dir : gmap string Entry) (pages : list Page) (r : Result)
    (id g : string) :
  fetchPublishedPages (notion w) DATABASE_ID fuel = Some (Ok pages) →
  main w DATABASE_ID fuel dir = Some r →
  notionIdToFile dir !! id = Some g →
  (id ∉ page_id <$> pages) →
  final_posts r !! g = None.
Proof.
  intros Hlisting Hmain Hindex Hid. unfold main in Hmain.
  rewrite Hlisting in Hmain. simpl in Hmain.
  destruct (processPages _ _ _ _ _ _) as [st|] eqn:Hst; [|done].
  simpl in Hmain. injection Hmain as <-. simpl.
  apply (remove_unpublished_removes _ _ id).
  - rewrite (processPages_processedIds _ _ _ _ _ _ _ _ Hst). simpl.
    rewrite elem_of_empty. tauto.
  - apply (processPages_no_directory _ _ _ _ _ _ _ _ Hst). simpl.
    apply build_index_from_posts in Hindex as (_ & c & -> & _). done.
  - left. by apply elem_of_map_to_list.
Qed.

Lemma unpublished_post_is_removed_witness :
  notionIdToFile taken_dir !! id_gone = Some "2024-01-01-one.md"
  ∧ ∃ r, main sample_world "db" 2 taken_dir = Some r
      ∧ summary r = Some {| created := 1; updated := 1; unchanged := 0;
                            errors := 1 |}
      ∧ final_posts r !! "2024-01-01-one.md" = None.
Proof.
  assert (Hindex : notionIdToFile taken_dir !! id_gone
                   = Some "2024-01-01-one.md") by (vm_compute; reflexivity).
  split; [exact Hindex|].
  destruct (main sample_world "db" 2 taken_dir) as [r|] eqn:Hmain.
  - exists r. split; [reflexivity|]. split.
    + vm_compute in Hmain. injection Hmain as <-. reflexivity.
    + apply (unpublished_post_is_removed sample_world "db" 2 taken_dir _ r
               id_gone _ sample_listing Hmain Hindex).
      vm_compute. intros Hin. repeat (inversion Hin as [|? ? ? Hin']; subst;
                                      clear Hin; rename Hin' into Hin).
  - exfalso. vm_compute in Hmain. discriminate Hmain.
Defined.

(** X22. A post written by hand is safe: a file of the directory with a
    plain name and no identity line is as it was when the pass ends, unless
    a published page has its name as target. The file and the posts of the
    published pages are taken within the domain on which the embedding is
    exact (plain file names, no code point beyond the ASCII classes). *)
Theorem handwritten_post_is_kept (w : World) (DATABASE_ID : string)
    (fuel : nat) (dir : gmap string Entry) (r : Result) (g content : string) :
  main w DATABASE_ID fuel dir = Some r →
  dir !! g = Some (File content) →
  exact_entry g (File content) = true →
  String_match notion_id_re content = None →
  (∀ pages,
     fetchPublishedPages (notion w) DATABASE_ID fuel = Some (Ok pages) →
     Forall (exact_post w fuel) pages) →
  (∀ pages page meta,
     fetchPublishedPages (notion w) DATABASE_ID fuel = Some (Ok pages) →
     page ∈ pages →
     extractMeta (today w) page = Ok meta →
     postFilename (date meta) (slug meta) ≠ g) →
  final_posts r !! g = Some (File content).
Proof.
  intros Hmain Hg _ Hmatch _ Htargets.
  assert (Hindex : ∀ id, notionIdToFile dir !! id ≠ Some g).
  { intros id (_ & c & Hc & Hm)%build_index_from_posts. congruence. }
  unfold main in Hmain.
  destruct (fetchPublishedPages _ _ _) as [[pages|e]|]; simpl in Hmain;
    [|by injection Hmain as <-|done].
  destruct (processPages _ _ _ _ _ _) as [st|] eqn:Hst; simpl in Hmain;
    [|done].
  injection Hmain as <-. simpl.
  rewrite remove_all_unpublished_keeps
    by (intros id Hid; by destruct (Hindex id)).
  rewrite <- Hg.
  apply (processPages_keeps w fuel _ _ g) in Hst; [done|].
  intros page Hpage [Hprev|(meta & Hmeta & Hname)].
  - by destruct (Hindex (page_id page)).
  - by destruct (Htargets pages page meta).
Qed.

Lemma handwritten_post_is_kept_witness :
  handwritten_dir !! "2020-02-02-about.md"
  = Some (File ("---" +:+ JS.LF +:+ "title: About"))
  ∧ exact_entry "2020-02-02-about.md"
      (File ("---" +:+ JS.LF +:+ "title: About")) = true
  ∧ String_match notion_id_re ("---" +:+ JS.LF +:+ "title: About") = None
  ∧ Forall (exact_post sample_world 2)
      [titled_page id_one "One"; titled_page id_two "Two";
       titled_page id_three "Three"]
  ∧ ∃ r, main sample_world "db" 2 handwritten_dir = Some r
      ∧ final_posts r !! "2020-02-02-about.md"
        = Some (File ("---" +:+ JS.LF +:+ "title: About")).
Proof.
  assert (Hexact : Forall (exact_post sample_world 2)
                     [titled_page id_one "One"; titled_page id_two "Two";
                      titled_page id_three "Three"]).
  { exact_posts_by_computation. }
  split; [reflexivity|]. split; [reflexivity|]. split; [reflexivity|].
  split; [exact Hexact|].
  destruct (main sample_world "db" 2 handwritten_dir) as [r|] eqn:Hmain.
  - exists r. split; [reflexivity|].
    apply (handwritten_post_is_kept sample_world "db" 2 handwritten_dir r
             "2020-02-02-about.md" ("---" +:+ JS.LF +:+ "title: About")
             Hmain eq_refl eq_refl eq_refl).
    + intros pages Hpages. rewrite sample_listing in Hpages.
      injection Hpages as <-. exact Hexact.
    + intros pages page meta Hpages Hpage Hmeta.
      rewrite sample_listing in Hpages. injection Hpages as <-.
      repeat (apply elem_of_cons in Hpage as [->|Hpage];
              [vm_compute in Hmeta; injection Hmeta as <-; discriminate|]).
      apply elem_of_nil in Hpage. destruct Hpage.
  - exfalso. vm_compute in Hmain. discriminate Hmain.
Defined.

Section Failing.
Context (w : World) (fuel : nat) (existing : list string)
        (index : gmap string string) (f : string).

Lemma processPage_fails_early (st st' : State) (page : Page) :
  fails_early w fuel page →
  processPage w fuel existing index st page = Some st' →
  posts st' = posts st.
Proof.
  rewrite processPage_outcome.
  destruct (pageOutcome w fuel existing index (posts st) page)
    as [[d o]|] eqn:Houtcome; [|done].
  simpl. intros Hfails [= <-]. simpl.
  destruct Hfails as [[e He]|[e He]].
  - by destruct (pageOutcome_metadata_throws _ _ _ _ _ _ _ _ _ He Houtcome).
  - by destruct (pageOutcome_fetch_throws _ _ _ _ _ _ _ _ _ He Houtcome).
Qed.

Lemma processPages_keeps_or_fails (pages : list Page) :
  (∀ page, page ∈ pages →
           fails_early w fuel page ∨ ¬ touches w index page f) →
  ∀ st st' : State,
    processPages w fuel existing index pages st = Some st' →
    posts st' !! f = posts st !! f.
Proof.
  induction pages as [|page pages IH]; intros Hpages st st'; simpl.
  - by intros [= <-].
  - destruct (processPage w fuel existing index st page) as [st1|] eqn:Hpage;
      [|done].
    simpl. intros Hrest.
    rewrite (IH (λ q Hq, Hpages q (list_elem_of_further _ _ _ Hq)) _ _ Hrest).
    destruct (Hpages page) as [Hfails|Hkeeps]; [by left| |].
    + by rewrite (processPage_fails_early _ _ _ Hfails Hpage).
    + by eapply processPage_keeps.
Qed.

End Failing.

(** X23. A page that cannot be synced keeps the post of an earlier pass:
    when the metadata of a published page cannot be read, or the listing of
    its blocks throws, the file that the index gives for its token is as it
    was when the pass ends (the page is marked as processed before anything
    can fail), provided no other published page has that name as target.
    The directory and the posts of the published pages are taken within the
    domain on which the embedding is exact (plain file names, no code point
    beyond the ASCII classes). *)
Theorem failed_page_keeps_its_post (w : World) (DATABASE_ID : string)
    (fuel : nat) (dir : gmap string Entry) (pages : list Page) (r : Result)
    (id g : string) :
  fetchPublishedPages (notion w) DATABASE_ID fuel = Some (Ok pages) →
  main w DATABASE_ID fuel dir = Some r →
  exact_dir dir →
  Forall (exact_post w fuel) pages →
  notionIdToFile dir !! id = Some g →
  (id ∈ page_id <$> pages) →
  (∀ page, page ∈ pages → page_id page = id → fails_early w fuel page) →
  (∀ page meta,
     page ∈ pages → page_id page ≠ id →
     extractMeta (today w) page = Ok meta →
     postFilename (date meta) (slug meta) ≠ g) →
  final_posts r !! g = dir !! g.
Proof.
  intros Hlisting Hmain _ _ Hindex Hid Hfails Hothers. unfold main in Hmain.
  rewrite Hlisting in Hmain. simpl in Hmain.
  destruct (processPages _ _ _ _ _ _) as [st|] eqn:Hst; [|done].
  simpl in Hmain. injection Hmain as <-. simpl.
  rewrite remove_all_unpublished_keeps.
  - apply (processPages_keeps_or_fails w fuel _ _ g) in Hst; [done|].
    intros page Hpage.
    destruct (decide (page_id page = id)) as [Heq|Hne]; [left; by apply Hfails|].
    right. intros [Hprev|(meta & Hmeta & Hname)].
    + destruct Hne. by apply (index_injective dir _ _ g).
    + by destruct (Hothers page meta).
  - intros id' Hid'. rewrite (index_injective dir id' id g) by done.
    rewrite (processPages_processedIds _ _ _ _ _ _ _ _ Hst). by right.
Qed.

Lemma failed_page_keeps_its_post_witness :
  notionIdToFile two_dir !! id_two = Some "2023-12-31-two.md"
  ∧ fails_early sample_world 2 (titled_page id_two "Two")
  ∧ ∃ r, main sample_world "db" 2 two_dir = Some r
      ∧ exit_code r = 1
      ∧ final_posts r !! "2023-12-31-two.md" = two_dir !! "2023-12-31-two.md".
Proof.
  assert (Hindex : notionIdToFile two_dir !! id_two
                   = Some "2023-12-31-two.md") by (vm_compute; reflexivity).
  assert (Hfails : fails_early sample_world 2 (titled_page id_two "Two")).
  { right. by exists "request failed". }
  split; [exact Hindex|]. split; [exact Hfails|].
  destruct (main sample_world "db" 2 two_dir) as [r|] eqn:Hmain.
  - exists r. split; [reflexivity|]. split.
    + vm_compute in Hmain. injection Hmain as <-. reflexivity.
    + apply (failed_page_keeps_its_post sample_world "db" 2 two_dir _ r
               id_two _ sample_listing Hmain);
        [exact_dir_by_computation
        | exact_posts_by_computation
        | exact Hindex | | |].
      * apply list_elem_of_fmap. exists (titled_page id_two "Two").
        split; [reflexivity|]. apply elem_of_cons. right. by left.
      * intros page Hpage Hpid.
        repeat (apply elem_of_cons in Hpage as [->|Hpage];
                [first [exact Hfails | discriminate Hpid]|]).
        apply elem_of_nil in Hpage. destruct Hpage.
      * intros page meta Hpage Hpid Hmeta.
        repeat (apply elem_of_cons in Hpage as [->|Hpage];
                [vm_compute in Hmeta; injection Hmeta as <-; discriminate|]).
        apply elem_of_nil in Hpage. destruct Hpage.
  - exfalso. vm_compute in Hmain. discriminate Hmain.
Defined.

(** ** Fatal errors *)

(** X24. The script ends without a summary exactly when the token or the
    database id is missing or empty, or the listing of the published pages
    throws; it then exits with code 1 and leaves the directory as it was,
    whatever posts it holds: no post is removed because the listing could
    not be read. *)
Theorem fatal_errors_touch_nothing (env : Env) (w : World) (fuel : nat)
    (dir : gmap string Entry) (r : Result) :
  script env w fuel dir = Some r →
  (summary r = None
   ↔ JS.truthy (NOTION_TOKEN env) = false
     ∨ JS.truthy (NOTION_DATABASE_ID env) = false
     ∨ ∃ e, fetchPublishedPages (notion w)
              (default "" (NOTION_DATABASE_ID env)) fuel = Some (Throw e))
  ∧ (summary r = None → exit_code r = 1 ∧ final_posts r = dir).
Proof.
  unfold script, main.
  destruct (JS.truthy (NOTION_TOKEN env)); simpl;
    [|intros [= <-]; simpl;
      split; [split; [intros _; by left | done] | done]].
  destruct (JS.truthy (NOTION_DATABASE_ID env)); simpl;
    [|intros [= <-]; simpl;
      split; [split; [intros _; right; by left | done] | done]].
  destruct (fetchPublishedPages _ _ _) as [[pages|e]|]; simpl; [| |done].
  - destruct (processPages _ _ _ _ _ _) as [st|]; simpl; [|done].
    intros [= <-]. simpl. split; [|done]. split; [done|].
    by intros [|[|[e [=]]]].
  - intros [= <-]. simpl. split; [|done]. split; [|done]. intros _.
    right. right. by exists e.
Qed.

Lemma fatal_errors_touch_nothing_witness :
  ∃ r, script limited_env faulty_world 2 sample_dir = Some r
     ∧ summary r = None ∧ exit_code r = 1 ∧ final_posts r = sample_dir.
Proof.
  destruct (script limited_env faulty_world 2 sample_dir) as [r|] eqn:Hscript.
  - exists r. split; [reflexivity|].
    destruct (fatal_errors_touch_nothing limited_env faulty_world 2 sample_dir
                r Hscript) as [Hnone Hfatal].
    assert (Hr : summary r = None).
    { apply Hnone. right. right. by exists "rate limited". }
    split; [exact Hr|]. exact (Hfatal Hr).
  - exfalso. vm_compute in Hscript. discriminate Hscript.
Defined.

(** ** Pages without a date *)

Lemma length_append (s t : string) :
  String.length (s +:+ t) = String.length s + String.length t.
Proof.
  induction s as [|c s IH]; [done|]. rewrite append_cons. simpl. by rewrite IH.
Qed.

Lemma append_inv_tail (s t u : string) : s +:+ u = t +:+ u → s = t.
Proof.
  revert t. induction s as [|c s IH]; intros [|d t] Heq; [done| | |].
  - exfalso. apply (f_equal String.length) in Heq.
    rewrite !length_append in Heq. simpl in Heq. lia.
  - exfalso. apply (f_equal String.length) in Heq.
    rewrite !length_append in Heq. simpl in Heq. lia.
  - rewrite !append_cons in Heq. injection Heq as -> Heq.
    by rewrite (IH t Heq).
Qed.

Lemma postFilename_date_inj (date1 date2 slug : string) :
  postFilename date1 slug = postFilename date2 slug → date1 = date2.
Proof.
  unfold postFilename. apply append_inv_tail.
Qed.

(** X25. A published page without a date is given the day of the run, so
    its post follows the calendar: its slug does not depend on the day, and
    a pass on a later day, whose index gives the page the file of the
    earlier day, unlinks that file, writes the post under the name of the
    new day and counts the page as updated. *)
Theorem undated_page_moves_each_day (w : World) (fuel : nat)
    (existing : list string) (index : gmap string string)
    (dir : gmap string Entry) (page : Page) (props : gmap string Property)
    (blocks : list Block) (earlier held : string) :
  properties page = Some props →
  dateProp props ?. p_date ?. start = None →
  earlier ≠ today w →
  ∃ before meta,
    extractMeta earlier page = Ok before
    ∧ extractMeta (today w) page = Ok meta
    ∧ date before = earlier ∧ date meta = today w
    ∧ slug before = slug meta
    ∧ (index !! page_id page = Some (postFilename (date before) (slug before)) →
       dir !! postFilename (date before) (slug before) = Some (File held) →
       dir !! postFilename (date meta) (slug meta) = None →
       write_denied w (postFilename (date meta) (slug meta)) = false →
       fetchAllBlocks (notion w) (page_id page) fuel = Some (Ok blocks) →
       pageOutcome w fuel existing index dir page
       = Some (<[postFilename (date meta) (slug meta)
                 := File (pageContent meta (page_id page) blocks)]>
                 (delete (postFilename (date before) (slug before)) dir),
               Ok Updated)).
Proof.
  intros Hprops Hundated Hday. unfold extractMeta, pageOutcome.
  unfold extractMeta. rewrite Hprops. fold (dateProp props).
  rewrite Hundated. eexists _, _. split; [done|]. split; [done|].
  simpl. split; [done|]. split; [done|]. split; [done|].
  set (slug0 := if JS.truthy _ then _ else _).
  set (meta := Build_Meta _ _ _ _ _ _ _ _).
  intros Hindex Hold Hnew Hallowed ->. unfold mbind, option_bind.
  assert (Hne : postFilename earlier slug0 ≠ postFilename (today w) slug0).
  { intros Hname%postFilename_date_inj. by destruct Hday. }
  assert (Htruthy : JS.truthy_str (postFilename earlier slug0) = true).
  { pose proof (postFilename_md earlier slug0) as Hmd.
    by destruct (postFilename earlier slug0). }
  rewrite (tryWritePost_after_unlink w existing index dir page meta blocks
             (delete (postFilename earlier slug0) dir)).
  - change (date meta) with (today w). change (slug meta) with slug0.
    rewrite lookup_delete_ne by done.
    rewrite Hnew. simpl. rewrite Hallowed, Hindex. simpl.
    by rewrite Htruthy.
  - rewrite Hindex. symmetry. apply unlink_previous; [done|done|congruence].
Qed.

Lemma undated_page_moves_each_day_witness :
  properties hello_page = Some {[ "Title" := title_property "Hello, World!" ]}
  ∧ "2024-01-01" ≠ today next_day_world
  ∧ pageOutcome next_day_world 2 [] {[ id_one := "2024-01-01-hello-world.md" ]}
      hello_dir hello_page
    = Some ({[ "2024-01-02-hello-world.md" :=
                 File (pageContent
                         {| title := "Hello, World!"; slug := "hello-world";
                            date := "2024-01-02"; tags := [];
                            description := ""; coverImage := "";
                            canonicalUrl := ""; featured := false |}
                         id_one
                         [text_block "bulleted_list_item" "a";
                          text_block "bulleted_list_item" "b";
                          text_block "paragraph" id_one]) ]},
            Ok Updated).
Proof.
  split; [reflexivity|]. split; [discriminate|].
  destruct (undated_page_moves_each_day next_day_world 2 []
              {[ id_one := "2024-01-01-hello-world.md" ]} hello_dir hello_page
              {[ "Title" := title_property "Hello, World!" ]}
              [text_block "bulleted_list_item" "a";
               text_block "bulleted_list_item" "b";
               text_block "paragraph" id_one]
              "2024-01-01" (pageContent hello_meta id_one [])
              eq_refl eq_refl)
    as (before & meta & Hbefore & Hmeta & _ & _ & _ & Hmoves);
    [discriminate|].
  vm_compute in Hbefore. injection Hbefore as <-.
  vm_compute in Hmeta. injection Hmeta as <-.
  rewrite Hmoves; [|reflexivity..]. vm_compute. reflexivity.
Defined.

(** ** A second pass *)

Section Run.
Context (w : World) (fuel : nat) (existing : list string)
        (index : gmap string string).

Lemma count_errors_le (o : res Outcome) (s : Stats) :
  errors s ≤ errors (count o s).
Proof. destruct o as [[]|e]; simpl; lia. Qed.

Lemma processPages_errors_le (pages : list Page) :
  ∀ st st' : State,
    processPages w fuel existing index pages st = Some st' →
    errors (stats st) ≤ errors (stats st').
Proof.
  induction pages as [|page pages IH]; intros st st'; simpl.
  - by intros [= <-].
  - rewrite processPage_outcome.
    destruct (pageOutcome _ _ _ _ _ _) as [[d o]|]; [|done]. simpl.
    intros Hrest%IH. simpl in Hrest.
    pose proof (count_errors_le o (stats st)). lia.
Qed.

Lemma processPages_error_free (page : Page) (pages : list Page)
    (st st' : State) :
  processPages w fuel existing index (page :: pages) st = Some st' →
  errors (stats st') = errors (stats st) →
  ∃ meta blocks d o,
    extractMeta (today w) page = Ok meta
    ∧ fetchAllBlocks (notion w) (page_id page) fuel = Some (Ok blocks)
    ∧ tryWritePost (write_denied w) existing index (posts st) page meta
        (Ok blocks) = (d, Ok o)
    ∧ processPages w fuel existing index pages (state_after st page d (Ok o))
      = Some st'
    ∧ errors (stats st') = errors (stats (state_after st page d (Ok o))).
Proof.
  simpl. rewrite processPage_outcome. unfold pageOutcome.
  destruct (extractMeta (today w) page) as [meta|e]; simpl.
  - destruct (fetchAllBlocks _ _ _) as [fetched|]; [|done]. simpl.
    destruct (tryWritePost _ _ _ _ _ _ _) as [d o] eqn:Hwrite. simpl.
    intros Hrest Herrors.
    pose proof (processPages_errors_le _ _ _ Hrest) as Hle. simpl in Hle.
    destruct o as [o|e]; [|simpl in Hle; lia].
    destruct fetched as [blocks|e]; [|done].
    exists meta, blocks, d, o. do 3 (split; [done|]). split; [done|].
    simpl. by destruct o.
  - intros Hrest Herrors.
    pose proof (processPages_errors_le _ _ _ Hrest) as Hle. simpl in Hle.
    lia.
Qed.

Lemma tryWritePost_shrinks (dir d : gmap string Entry) (page : Page)
    (meta : Meta) (fetched : res (list Block)) (o : res Outcome) (g : string) :
  postFilename (date meta) (slug meta) ≠ g →
  tryWritePost (write_denied w) existing index dir page meta fetched = (d, o) →
  d !! g = dir !! g ∨ d !! g = None.
Proof.
  intros Hg Hwrite. destruct fetched as [blocks|e];
    [|injection Hwrite as <- _; by left].
  pose proof (tryWritePost_after_unlink w existing index dir page meta blocks
                _ eq_refl) as Hshape.
  cbv zeta in Hshape. rewrite Hwrite in Hshape.
  set (filename := postFilename (date meta) (slug meta)) in *.
  set (dir1 := if _ && _ then _ else dir) in Hshape.
  assert (Hdir1 : dir1 !! g = dir !! g ∨ dir1 !! g = None).
  { unfold dir1. destruct (_ && _); [|by left].
    destruct (unlinkSync dir _) as [d1|e] eqn:Hunlink; [|by left].
    apply unlinkSync_ok in Hunlink as ->.
    destruct (decide (default "" (index !! page_id page) = g)) as [->|Hne].
    - right. apply lookup_delete_eq.
    - left. by apply lookup_delete_ne. }
  assert (Hinsert : ∀ c, <[filename := File c]> dir1 !! g = dir1 !! g).
  { intros c. by apply lookup_insert_ne. }
  destruct (dir1 !! filename) as [[held|]|];
    [|by injection Hshape as -> _|].
  - case_bool_decide; [by injection Hshape as -> _|].
    destruct (write_denied w filename); injection Hshape as -> _; [done|].
    by rewrite Hinsert.
  - simpl in Hshape.
    destruct (write_denied w filename); injection Hshape as -> _; [done|].
    by rewrite Hinsert.
Qed.

Lemma tryWritePost_unlinks_previous (dir d : gmap string Entry) (page : Page)
    (meta : Meta) (blocks : list Block) (o : res Outcome) (old : string) :
  index !! page_id page = Some old →
  JS.truthy_str old = true →
  old ≠ postFilename (date meta) (slug meta) →
  dir !! old ≠ Some Directory →
  tryWritePost (write_denied w) existing index dir page meta (Ok blocks)
  = (d, o) →
  d !! old = None.
Proof.
  intros Hindex Hold Hne Hdir Hwrite.
  rewrite (tryWritePost_after_unlink w existing index dir page meta blocks
             (delete old dir))
    in Hwrite by (by rewrite Hindex, unlink_previous).
  set (filename := postFilename (date meta) (slug meta)) in *.
  assert (Hinsert : ∀ c, <[filename := File c]> (delete old dir) !! old = None).
  { intros c. rewrite lookup_insert_ne by done. apply lookup_delete_eq. }
  destruct (delete old dir !! filename) as [[held|]|];
    [|injection Hwrite as <- _; apply lookup_delete_eq|].
  - case_bool_decide; [injection Hwrite as <- _; apply lookup_delete_eq|].
    destruct (write_denied w filename); injection Hwrite as <- _;
      [apply lookup_delete_eq | apply Hinsert].
  - simpl in Hwrite.
    destruct (write_denied w filename); injection Hwrite as <- _;
      [apply lookup_delete_eq | apply Hinsert].
Qed.

Lemma processPages_shrinks (g : string) (pages : list Page) :
  (∀ page, page ∈ pages → targetOf w page ≠ Some g) →
  ∀ st st' : State,
    processPages w fuel existing index pages st = Some st' →
    posts st' !! g = posts st !! g ∨ posts st' !! g = None.
Proof.
  induction pages as [|page pages IH]; intros Htargets st st'; simpl.
  - intros [= <-]. by left.
  - rewrite processPage_outcome. unfold pageOutcome.
    pose proof (Htargets page (list_elem_of_here _ _)) as Hpage.
    unfold targetOf in Hpage.
    assert (Hrest : ∀ q, q ∈ pages → targetOf w q ≠ Some g)
      by (intros q Hq; apply Htargets; by right).
    destruct (extractMeta (today w) page) as [meta|e]; simpl.
    + destruct (fetchAllBlocks _ _ _) as [fetched|]; [|done]. simpl.
      destruct (tryWritePost _ _ _ _ _ _ _) as [d o] eqn:Hwrite. simpl.
      intros Hrun. apply (IH Hrest) in Hrun. simpl in Hrun.
      apply (tryWritePost_shrinks _ _ _ _ _ _ g) in Hwrite; [|congruence].
      destruct Hrun as [->| ->]; [done | by right].
    + intros Hrun. by apply (IH Hrest) in Hrun.
Qed.

End Run.

Lemma remove_all_unpublished_shrinks (index : gmap string string)
    (ids : gset string) (dir : gmap string Entry) (g : string) :
  remove_all_unpublished index ids dir !! g = dir !! g
  ∨ remove_all_unpublished index ids dir !! g = None.
Proof.
  unfold remove_all_unpublished. generalize (map_to_list index).
  intros entries. revert dir.
  induction entries as [|[id0 g0] entries IH]; intros dir; [by left|].
  cbn [fold_left]. set (dir1 := remove_unpublished ids dir (id0, g0)).
  assert (Hstep : dir1 !! g = dir !! g ∨ dir1 !! g = None).
  { unfold dir1, remove_unpublished. destruct (negb _); [|by left].
    destruct (unlinkSync dir g0) as [d|e] eqn:Hunlink; [|by left].
    apply unlinkSync_ok in Hunlink as ->.
    destruct (decide (g0 = g)) as [->|Hne].
    - right. apply lookup_delete_eq.
    - left. by apply lookup_delete_ne. }
  destruct (IH dir1) as [Hkept|Hgone]; [|by right].
  rewrite Hkept. exact Hstep.
Qed.

Lemma remove_all_unpublished_published (index : gmap string string)
    (ids : gset string) (dir : gmap string Entry) :
  (∀ id g, index !! id = Some g → id ∈ ids) →
  remove_all_unpublished index ids dir = dir.
Proof.
  intros Hids. unfold remove_all_unpublished.
  assert (Hentries : ∀ id g, (id, g) ∈ map_to_list index → id ∈ ids).
  { intros id g Hin%elem_of_map_to_list. by eapply Hids. }
  revert Hentries. generalize (map_to_list index). intros entries.
  induction entries as [|[id0 g0] entries IH]; intros Hentries; [done|].
  cbn [fold_left].
  replace (remove_unpublished ids dir (id0, g0)) with dir.
  - apply IH. intros id g Hin. eapply Hentries. by right.
  - unfold remove_unpublished.
    by rewrite bool_decide_true by (eapply Hentries; by left).
Qed.

Lemma NoDup_fmap_eq {A B : Type} (f : A → B) (l : list A) (x y : A) :
  NoDup (f <$> l) → x ∈ l → y ∈ l → f x = f y → x = y.
Proof.
  induction l as [|a l IH]; [by intros _ []%elem_of_nil|].
  rewrite fmap_cons, NoDup_cons. intros [Ha Hl].
  intros [->|Hx]%elem_of_cons [->|Hy]%elem_of_cons Heq; [done| | |by apply IH].
  - destruct Ha. rewrite Heq. by apply list_elem_of_fmap_2.
  - destruct Ha. rewrite <- Heq. by apply list_elem_of_fmap_2.
Qed.

Lemma tryWritePost_in_place (w : World) (existing : list string)
    (index : gmap string string) (dir : gmap string Entry) (page : Page)
    (meta : Meta) (blocks : list Block) :
  dir !! postFilename (date meta) (slug meta)
  = Some (File (pageContent meta (page_id page) blocks)) →
  (∀ old, index !! page_id page = Some old →
          old = postFilename (date meta) (slug meta)) →
  tryWritePost (write_denied w) existing index dir page meta (Ok blocks)
  = (dir, Ok Unchanged).
Proof.
  intros Hheld Hindex.
  rewrite (tryWritePost_after_unlink w existing index dir page meta blocks
             dir).
  - rewrite Hheld. by rewrite bool_decide_true.
  - destruct (index !! page_id page) as [old|] eqn:Hold; [|done].
    rewrite (Hindex old eq_refl). rewrite bool_decide_true by done.
    by rewrite andb_false_r.
Qed.

Section SecondPass.
Context (w : World) (fuel : nat) (dir : gmap string Entry) (pages : list Page).
Hypothesis Hids : NoDup (page_id <$> pages).
Hypothesis Htokens : ∀ page, page ∈ pages → is_identity_token (page_id page).
Hypothesis Hlines :
  ∀ page meta, page ∈ pages → extractMeta (today w) page = Ok meta →
    single_line (date meta) ∧ single_line (slug meta).
Hypothesis Htargets :
  ∀ p q g, p ∈ pages → q ∈ pages →
    targetOf w p = Some g → targetOf w q = Some g → page_id p = page_id q.
Hypothesis Hunique :
  ∀ id g g', g ∈ existingFiles dir → g' ∈ existingFiles dir →
    holds dir id g → holds dir id g' → g = g'.
Hypothesis Hnoswap :
  ∀ p id g, p ∈ pages → targetOf w p = Some g →
    notionIdToFile dir !! id = Some g → id = page_id p.

Lemma first_pass_posts (pages' : list Page) :
  (∀ p, p ∈ pages' → p ∈ pages) →
  NoDup (page_id <$> pages') →
  ∀ st st' : State,
    processPages w fuel (existingFiles dir) (notionIdToFile dir) pages' st
    = Some st' →
    errors (stats st') = errors (stats st) →
    ∀ p, p ∈ pages' →
      ∃ meta blocks,
        extractMeta (today w) p = Ok meta
        ∧ fetchAllBlocks (notion w) (page_id p) fuel = Some (Ok blocks)
        ∧ posts st' !! postFilename (date meta) (slug meta)
          = Some (File (pageContent meta (page_id p) blocks)).
Proof.
  induction pages' as [|q rest IH]; intros Hsub Hnodup st st' Hrun Herrors p Hp;
    [by apply elem_of_nil in Hp|].
  rewrite fmap_cons, NoDup_cons in Hnodup. destruct Hnodup as [Hq Hnodup].
  destruct (processPages_error_free _ _ _ _ _ _ _ _ Hrun Herrors)
    as (meta & blocks & d & o & Hmeta & Hblocks & Hwrite & Hrest & Herrors').
  apply elem_of_cons in Hp as [->|Hp].
  - exists meta, blocks. split; [done|]. split; [done|].
    set (f := postFilename (date meta) (slug meta)).
    assert (Htarget : targetOf w q = Some f)
      by (unfold targetOf; by rewrite Hmeta).
    assert (Hkeeps : posts st' !! f
                     = posts (state_after st q d (Ok o)) !! f).
    { apply (processPages_keeps w fuel (existingFiles dir)
               (notionIdToFile dir) f rest); [|done].
      intros page Hpage Htouch. destruct Hq.
      assert (Hsame : page_id q = page_id page).
      { destruct Htouch as [Hprev|(meta' & Hmeta' & Hname)].
        - symmetry. apply (Hnoswap q _ f); [apply Hsub; by left|done..].
        - apply (Htargets q page f);
            [apply Hsub; by left | apply Hsub; by right | done |].
          unfold targetOf. by rewrite Hmeta', Hname. }
      rewrite Hsame. by apply list_elem_of_fmap_2. }
    rewrite Hkeeps. simpl. by apply (tryWritePost_written w) in Hwrite.
  - apply (IH (λ p' Hp', Hsub p' (list_elem_of_further _ _ _ Hp')) Hnodup
              _ _ Hrest Herrors' p Hp).
Qed.

Lemma first_pass_unlinks (g : string) (p : Page) (pages' : list Page) :
  (∀ q, q ∈ pages' → targetOf w q ≠ Some g) →
  notionIdToFile dir !! page_id p = Some g →
  p ∈ pages' →
  ∀ st st' : State,
    processPages w fuel (existingFiles dir) (notionIdToFile dir) pages' st
    = Some st' →
    errors (stats st') = errors (stats st) →
    posts st !! g ≠ Some Directory →
    posts st' !! g = None.
Proof.
  intros Htarget Hindex.
  induction pages' as [|q rest IH]; intros Hp st st' Hrun Herrors Hdir;
    [by apply elem_of_nil in Hp|].
  destruct (processPages_error_free _ _ _ _ _ _ _ _ Hrun Herrors)
    as (meta & blocks & d & o & Hmeta & Hblocks & Hwrite & Hrest & Herrors').
  assert (Htargets' : ∀ q', q' ∈ rest → targetOf w q' ≠ Some g)
    by (intros q' Hq'; apply Htarget; by right).
  assert (Hq : postFilename (date meta) (slug meta) ≠ g).
  { intros Hname. apply (Htarget q); [by left|].
    unfold targetOf. by rewrite Hmeta, Hname. }
  destruct (decide (page_id q = page_id p)) as [Hsame|Hother].
  - apply (tryWritePost_unlinks_previous _ _ _ _ _ _ _ _ _ g) in Hwrite;
      [|by rewrite Hsame|by eapply index_value_md|done|done].
    destruct (processPages_shrinks _ _ _ _ g rest Htargets' _ _ Hrest)
      as [Hkept|Hgone]; [|done].
    by rewrite Hkept.
  - apply elem_of_cons in Hp as [->|Hp]; [done|].
    apply (IH Htargets' Hp _ _ Hrest Herrors'). simpl.
    by eapply tryWritePost_no_directory.
Qed.

Lemma first_pass_result (DATABASE_ID : string) (r : Result) :
  fetchPublishedPages (notion w) DATABASE_ID fuel = Some (Ok pages) →
  main w DATABASE_ID fuel dir = Some r →
  exit_code r = 0 →
  (∀ p, p ∈ pages →
     ∃ meta blocks,
       extractMeta (today w) p = Ok meta
       ∧ fetchAllBlocks (notion w) (page_id p) fuel = Some (Ok blocks)
       ∧ final_posts r !! postFilename (date meta) (slug meta)
         = Some (File (pageContent meta (page_id p) blocks)))
  ∧ (∀ id g,
       g ∈ existingFiles (final_posts r) →
       holds (final_posts r) id g →
       ∃ p, p ∈ pages ∧ page_id p = id ∧ targetOf w p = Some g).
Proof.
  intros Hlisting Hmain Hexit. unfold main in Hmain.
  rewrite Hlisting in Hmain. simpl in Hmain.
  destruct (processPages _ _ _ _ _ _) as [st|] eqn:Hst; [|done].
  simpl in Hmain. injection Hmain as <-. simpl in *.
  assert (Herrors : errors (stats st) = errors (stats (initial_state dir))).
  { simpl. destruct (errors (stats st)); [done|discriminate]. }
  pose proof (λ id, processPages_processedIds _ _ _ _ _ _ _ id Hst)
    as Hprocessed.
  assert (Hposts : ∀ p, p ∈ pages →
            ∃ meta blocks,
              extractMeta (today w) p = Ok meta
              ∧ fetchAllBlocks (notion w) (page_id p) fuel = Some (Ok blocks)
              ∧ remove_all_unpublished (notionIdToFile dir) (processedIds st)
                  (posts st) !! postFilename (date meta) (slug meta)
                = Some (File (pageContent meta (page_id p) blocks))).
  { intros p Hp.
    destruct (first_pass_posts pages (λ _ H, H) Hids _ _ Hst Herrors p Hp)
      as (meta & blocks & Hmeta & Hblocks & Hpost).
    exists meta, blocks. split; [done|]. split; [done|].
    rewrite remove_all_unpublished_keeps; [done|].
    intros id Hid. apply Hprocessed. right.
    rewrite (Hnoswap p id _ Hp) by (done || unfold targetOf; by rewrite Hmeta).
    by apply list_elem_of_fmap_2. }
  split; [done|].
  intros id g Hg (content & Hcontent & Hmatch).
  destruct (decide (Some g ∈ targetOf w <$> pages)) as [Htarget|Htarget].
  - apply list_elem_of_fmap in Htarget as (p & Htarget & Hp).
    exists p. split; [done|]. split; [|done].
    destruct (Hposts p Hp) as (meta & blocks & Hmeta & Hblocks & Hpost).
    unfold targetOf in Htarget. rewrite Hmeta in Htarget.
    injection Htarget as ->. rewrite Hpost in Hcontent.
    injection Hcontent as <-.
    rewrite String_match_pageContent in Hmatch;
      [congruence | by apply (Hlines p) | by apply (Hlines p)
      | by apply Htokens].
  - exfalso.
    assert (Htargets' : ∀ q, q ∈ pages → targetOf w q ≠ Some g).
    { intros q Hq Heq. apply Htarget. rewrite <- Heq.
      by apply list_elem_of_fmap_2. }
    assert (Hst_g : posts st !! g = Some (File content)).
    { destruct (remove_all_unpublished_shrinks (notionIdToFile dir)
                  (processedIds st) (posts st) g) as [Hkept|Hgone];
        congruence. }
    assert (Hdir_g : dir !! g = Some (File content)).
    { destruct (processPages_shrinks _ _ _ _ g pages Htargets' _ _ Hst)
        as [Hkept|Hgone]; simpl in *; congruence. }
    assert (Hindex : notionIdToFile dir !! id = Some g).
    { assert (Hin : g ∈ existingFiles dir).
      { apply existingFiles_spec. apply existingFiles_spec in Hg as [Hmd _].
        split; [done|]. by eexists. }
      assert (Hholds : holds dir id g) by by exists content.
      apply build_index_unique_holder; [|by right].
      intros g' Hg' Hholds'. by apply (Hunique id). }
    destruct (decide (id ∈ page_id <$> pages)) as [Hid|Hid].
    + apply list_elem_of_fmap in Hid as (p & -> & Hp).
      assert (Hgone : posts st !! g = None).
      { apply (first_pass_unlinks g p pages Htargets' Hindex Hp _ _ Hst
                 Herrors). simpl. by rewrite Hdir_g. }
      congruence.
    + assert (Hgone : remove_all_unpublished (notionIdToFile dir)
                        (processedIds st) (posts st) !! g = None).
      { apply (remove_unpublished_removes _ _ id).
        - rewrite Hprocessed. simpl. rewrite elem_of_empty. tauto.
        - by rewrite Hst_g.
        - left. by apply elem_of_map_to_list. }
      congruence.
Qed.

Local Arguments tryWritePost : simpl never.

Lemma second_pass_pages (existing : list string) (index : gmap string string)
    (posted : gmap string Entry) (pages' : list Page) :
  (∀ p, p ∈ pages' →
     ∃ meta blocks,
       extractMeta (today w) p = Ok meta
       ∧ fetchAllBlocks (notion w) (page_id p) fuel = Some (Ok blocks)
       ∧ posted !! postFilename (date meta) (slug meta)
         = Some (File (pageContent meta (page_id p) blocks))
       ∧ ∀ old, index !! page_id p = Some old →
                old = postFilename (date meta) (slug meta)) →
  ∀ st : State,
    posts st = posted →
    ∃ st',
      processPages w fuel existing index pages' st = Some st'
      ∧ posts st' = posted
      ∧ stats st'
        = {| created := created (stats st); updated := updated (stats st);
             unchanged := length pages' + unchanged (stats st);
             errors := errors (stats st) |}.
Proof.
  induction pages' as [|p rest IH]; intros Hpages st Hst.
  - exists st. split; [done|]. split; [done|]. by destruct (stats st).
  - destruct (Hpages p) as (meta & blocks & Hmeta & Hblocks & Hpost & Hindex);
      [by left|].
    simpl processPages. rewrite processPage_outcome. unfold pageOutcome.
    rewrite Hmeta, Hblocks. simpl. rewrite Hst.
    rewrite tryWritePost_in_place by done. simpl.
    destruct (IH (λ q Hq, Hpages q (list_elem_of_further _ _ _ Hq))
                (state_after st p posted (Ok Unchanged)) eq_refl)
      as (st' & Hrun & Hposts & Hstats).
    exists st'. split; [done|]. split; [done|].
    rewrite Hstats. simpl. f_equal. lia.
Qed.

End SecondPass.

(** X26. A pass that ended without an error is stable: run again on the
    directory it left, against the same server on the same day, the script
    finds every published page unchanged, creates, updates and removes
    nothing and leaves the directory as it is. This holds when the
    published pages have distinct ids that are well-formed tokens and
    distinct target files, their dates and slugs hold no line break, no two
    posts of the initial directory hold the same token, and no page has as
    target the file that the initial index gives for another token. The
    directory and the posts of the published pages are taken within the
    domain on which the embedding is exact: plain file names, and no code
    point beyond the ASCII classes (in particular neither U+2028 nor U+2029
    in a title) in the files of the directory and in the posts. *)
Theorem second_pass_changes_nothing (w : World) (DATABASE_ID : string)
    (fuel : nat) (dir : gmap string Entry) (pages : list Page) (r : Result) :
  fetchPublishedPages (notion w) DATABASE_ID fuel = Some (Ok pages) →
  main w DATABASE_ID fuel dir = Some r →
  exit_code r = 0 →
  exact_dir dir →
  Forall (exact_post w fuel) pages →
  NoDup (page_id <$> pages) →
  (∀ page, page ∈ pages → is_identity_token (page_id page)) →
  (∀ page meta, page ∈ pages → extractMeta (today w) page = Ok meta →
     single_line (date meta) ∧ single_line (slug meta)) →
  (∀ p q g, p ∈ pages → q ∈ pages →
     targetOf w p = Some g → targetOf w q = Some g → page_id p = page_id q) →
  (∀ id g g', g ∈ existingFiles dir → g' ∈ existingFiles dir →
     holds dir id g → holds dir id g' → g = g') →
  (∀ p id g, p ∈ pages → targetOf w p = Some g →
     notionIdToFile dir !! id = Some g → id = page_id p) →
  main w DATABASE_ID fuel (final_posts r)
  = Some {| exit_code := 0; final_posts := final_posts r;
            indexed := existingFiles (final_posts r);
            summary := Some {| created := 0; updated := 0;
                               unchanged := length pages; errors := 0 |} |}.
Proof.
  intros Hlisting Hmain Hexit _ _ Hids Htokens Hlines Htargets Hunique
    Hnoswap.
  destruct (first_pass_result w fuel dir pages Hids Htokens Hlines Htargets
              Hunique Hnoswap DATABASE_ID r Hlisting Hmain Hexit)
    as [Hposts Hholders].
  assert (Hindex : ∀ id g,
            notionIdToFile (final_posts r) !! id = Some g →
            ∃ p, p ∈ pages ∧ page_id p = id ∧ targetOf w p = Some g).
  { intros id g [Hg Hholds]%build_index_from_posts. by apply Hholders. }
  destruct (second_pass_pages w fuel (existingFiles (final_posts r))
              (notionIdToFile (final_posts r)) (final_posts r) pages)
    with (st := initial_state (final_posts r))
    as (st' & Hrun & Hposts' & Hstats); [|done|].
  { intros p Hp.
    destruct (Hposts p Hp) as (meta & blocks & Hmeta & Hblocks & Hpost).
    exists meta, blocks. do 3 (split; [done|]). intros old Hold.
    destruct (Hindex _ _ Hold) as (p' & Hp' & Hid & Htarget).
    rewrite (NoDup_fmap_eq page_id pages p' p Hids Hp' Hp Hid) in Htarget.
    unfold targetOf in Htarget. rewrite Hmeta in Htarget.
    by injection Htarget. }
  unfold main. rewrite Hlisting. simpl. rewrite Hrun. simpl.
  rewrite remove_all_unpublished_published.
  - rewrite Hposts', Hstats. simpl. by rewrite Nat.add_0_r.
  - intros id g (p & Hp & <- & _)%Hindex.
    apply (processPages_processedIds _ _ _ _ _ _ _ _ Hrun). right.
    by apply list_elem_of_fmap_2.
Qed.

Lemma second_pass_changes_nothing_witness :
  ∃ r, main steady_world "db" 1 sample_dir = Some r
     ∧ exit_code r = 0
     ∧ main steady_world "db" 1 (final_posts r)
       = Some {| exit_code := 0; final_posts := final_posts r;
                 indexed := existingFiles (final_posts r);
                 summary := Some {| created := 0; updated := 0;
                                    unchanged := 2; errors := 0 |} |}.
Proof.
  destruct (main steady_world "db" 1 sample_dir) as [r|] eqn:Hmain.
  - exists r. split; [reflexivity|].
    assert (Hexit : exit_code r = 0).
    { assert (Hcode : exit_code <$> main steady_world "db" 1 sample_dir
                      = Some 0) by (vm_compute; reflexivity).
      rewrite Hmain in Hcode. by injection Hcode. }
    split; [exact Hexit|].
    apply (second_pass_changes_nothing steady_world "db" 1 sample_dir
             [titled_page id_one "One"; titled_page id_two "Two"] r
             eq_refl Hmain Hexit).
    + exact_dir_by_computation.
    + exact_posts_by_computation.
    + apply (bool_decide_unpack _). vm_compute. exact I.
    + intros page Hpage.
      repeat (apply elem_of_cons in Hpage as [->|Hpage];
              [split; reflexivity|]).
      apply elem_of_nil in Hpage. destruct Hpage.
    + intros page meta Hpage Hmeta.
      repeat (apply elem_of_cons in Hpage as [->|Hpage];
              [vm_compute in Hmeta; injection Hmeta as <-;
               split; reflexivity|]).
      apply elem_of_nil in Hpage. destruct Hpage.
    + intros p q g Hp Hq Htp Htq.
      repeat (apply elem_of_cons in Hp as [->|Hp];
              [repeat (apply elem_of_cons in Hq as [->|Hq];
                       [first [reflexivity
                              | vm_compute in Htp; injection Htp as <-;
                                vm_compute in Htq; discriminate Htq]|]);
               apply elem_of_nil in Hq; destruct Hq|]).
      apply elem_of_nil in Hp. destruct Hp.
    + intros id g g' Hg Hg' (c & Hc & _) (c' & Hc' & _).
      vm_compute in Hg, Hg'.
      repeat (apply elem_of_cons in Hg as [->|Hg];
              [repeat (apply elem_of_cons in Hg' as [->|Hg'];
                       [first [reflexivity
                              | vm_compute in Hc; discriminate Hc
                              | vm_compute in Hc'; discriminate Hc']|]);
               apply elem_of_nil in Hg'; destruct Hg'|]).
      apply elem_of_nil in Hg. destruct Hg.
    + intros p id g Hp Htarget [Hg _]%build_index_from_posts.
      vm_compute in Hg.
      repeat (apply elem_of_cons in Hp as [->|Hp];
              [vm_compute in Htarget; injection Htarget as <-;
               repeat (apply elem_of_cons in Hg as [Hg|Hg];
                       [discriminate Hg|]);
               apply elem_of_nil in Hg; destruct Hg|]).
      apply elem_of_nil in Hp. destruct Hp.
  - exfalso. vm_compute in Hmain. discriminate Hmain.
Defined.
